(** * Suvarna Prompt: a shallow embedding of the front-end's state logic

    The development follows the TypeScript sources:
    - [src/App.tsx]: the PCM encoder [createBlob], the live-session message
      handler, the audio teardown [cleanupAudio], [startRecording], the
      history operations and the two persistence effects;
    - [services/geminiService]: [generateGoldenPrompt], [sendChatMessage];
    - [components/ChatBot.tsx]: [handleSend];
    - [components/GoldenCard]: [handleEnhance].

    The built-ins the sources call are modelled after ECMAScript: Number
    values and their decimal text ([Float64]), [JSON.stringify] and
    [JSON.parse] ([JSON]), [btoa] ([Base64]).

    Part I holds the definitions, one module per source unit; Part II holds
    the lemmas and the properties proved about them; Part III holds further
    properties of the handlers. *)

From Stdlib Require Import ZArith QArith Bool Lia String Ascii List.
From Stdlib Require DecimalFacts DecimalPos.
From Stdlib Require Import Permutation Sorted.
Import ListNotations.
Local Open Scope Z_scope.
Set Warnings "-register-all".

(* ================================================================== *)
(** * Part I. Definitions *)
(* ================================================================== *)

(** ** The JavaScript values the sources compute with *)

Module JS.

(** A JavaScript string is a sequence of UTF-16 code units. *)
Abbreviation jsstring := (list Z) (only parsing).

(** A string literal of the sources (ASCII only). *)
Definition str (s : string) : jsstring :=
  map (fun a => Z.of_N (N_of_ascii a)) (list_ascii_of_string s).

(** [a === b] on strings: code unit by code unit. *)
Fixpoint str_eqb (a b : jsstring) : bool :=
  match a, b with
  | [], [] => true
  | x :: a', y :: b' => (x =? y) && str_eqb a' b'
  | _, _ => false
  end.

(** A JavaScript number.  Finite values are carried as rationals: every
    Float32Array element is a dyadic rational, and for |x| <= 1 the double
    product [x * 32767] is exact (24 + 15 significant bits), so the
    arithmetic of the encoder is the arithmetic of Q. Signed zeros are not
    told apart: both convert to the integer 0. *)
Inductive number : Type :=
| NaN
| Infinity (negative : bool)
| Finite (q : Q).

(** [Math.min]: NaN if either argument is NaN, else the smaller one. *)
Definition Math_min (a b : number) : number :=
  match a, b with
  | NaN, _ | _, NaN => NaN
  | Infinity true, _ | _, Infinity true => Infinity true
  | Infinity false, y => y
  | x, Infinity false => x
  | Finite p, Finite q => if Qle_bool p q then Finite p else Finite q
  end.

(** [Math.max]: NaN if either argument is NaN, else the larger one. *)
Definition Math_max (a b : number) : number :=
  match a, b with
  | NaN, _ | _, NaN => NaN
  | Infinity false, _ | _, Infinity false => Infinity false
  | Infinity true, y => y
  | x, Infinity true => x
  | Finite p, Finite q => if Qle_bool q p then Finite p else Finite q
  end.

Definition Qsign_neg (q : Q) : bool := (Qnum q <? 0).

(** The [*] operator on numbers. *)
Definition mul (a b : number) : number :=
  match a, b with
  | NaN, _ | _, NaN => NaN
  | Infinity s, Infinity t => Infinity (xorb s t)
  | Infinity s, Finite q | Finite q, Infinity s =>
      if Qnum q =? 0 then NaN else Infinity (xorb s (Qsign_neg q))
  | Finite p, Finite q => Finite (p * q)
  end.

(** Truncation toward zero of a finite value. *)
Definition truncate (q : Q) : Z := Z.quot (Qnum q) (Z.pos (Qden q)).

(** ECMAScript [ToInt16], the conversion applied by a store into an
    Int16Array: NaN and the infinities give 0; a finite value is truncated,
    reduced modulo 2^16 and read as a signed integer. *)
Definition ToInt16 (x : number) : Z :=
  match x with
  | NaN | Infinity _ => 0
  | Finite q =>
      let int16bit := truncate q mod 65536 in
      if 32768 <=? int16bit then int16bit - 65536 else int16bit
  end.

(** [String.fromCharCode(n)]: the code unit [ToUint16(n)]. *)
Definition fromCharCode (n : Z) : Z := n mod 65536.

(** Byte order of the host, which a typed-array view over a shared buffer
    exposes. *)
Inductive ByteOrder : Type := LittleEndian | BigEndian.

End JS.

(** ** Base64 (RFC 4648, section 4), as [btoa] computes it *)

Module Base64.
Import JS.

Definition alphabet : jsstring :=
  Eval cbv in str "ABCDEFGHIJKLMNOPQRSTUVWXYZabcdefghijklmnopqrstuvwxyz0123456789+/".

(** The padding character [=]. *)
Definition pad : Z := 61.

Definition b64_char (i : Z) : Z := nth (Z.to_nat i) alphabet pad.

Fixpoint index_from (c : Z) (l : list Z) (i : Z) : option Z :=
  match l with
  | [] => None
  | x :: l' => if x =? c then Some i else index_from c l' (i + 1)
  end.

Definition b64_index (c : Z) : option Z := index_from c alphabet 0.

(** The 6-bit groups, 0 to 63. *)
Definition sextets : list Z := map Z.of_nat (seq 0 64).

(** A 24-bit group is cut into four 6-bit groups; a final group of one or
    two bytes is completed with zero bits and padded with [=]. *)
Fixpoint encode (bs : list Z) : jsstring :=
  match bs with
  | [] => []
  | [a] =>
      let n := a * 65536 in
      [b64_char (n / 262144); b64_char (n / 4096 mod 64); pad; pad]
  | [a; b] =>
      let n := a * 65536 + b * 256 in
      [b64_char (n / 262144); b64_char (n / 4096 mod 64);
       b64_char (n / 64 mod 64); pad]
  | a :: b :: c :: rest =>
      let n := a * 65536 + b * 256 + c in
      b64_char (n / 262144) :: b64_char (n / 4096 mod 64)
        :: b64_char (n / 64 mod 64) :: b64_char (n mod 64) :: encode rest
  end.

Definition is_byte (c : Z) : bool := (0 <=? c) && (c <=? 255).

(** [btoa(binary)]: throws InvalidCharacterError ([None]) when a code unit
    is above 255. *)
Definition btoa (binary : jsstring) : option jsstring :=
  if forallb is_byte binary then Some (encode binary) else None.

(** The receiver's side: decoding by groups of four characters; padding is
    accepted in the last group only, any other character outside the
    alphabet is an error. *)
Fixpoint decode (cs : jsstring) : option (list Z) :=
  match cs with
  | [] => Some []
  | c0 :: c1 :: c2 :: c3 :: rest =>
      match b64_index c0, b64_index c1 with
      | Some s0, Some s1 =>
          if (c2 =? pad) && (c3 =? pad) then
            match rest with
            | [] => Some [(s0 * 262144 + s1 * 4096) / 65536]
            | _ => None
            end
          else
            match b64_index c2 with
            | Some s2 =>
                let m := s0 * 262144 + s1 * 4096 + s2 * 64 in
                if c3 =? pad then
                  match rest with
                  | [] => Some [m / 65536; m / 256 mod 256]
                  | _ => None
                  end
                else
                  match b64_index c3, decode rest with
                  | Some s3, Some bytes =>
                      let m := m + s3 in
                      Some (m / 65536 :: m / 256 mod 256 :: m mod 256 :: bytes)
                  | _, _ => None
                  end
            | None => None
            end
      | _, _ => None
      end
  | _ => None
  end.

End Base64.

(** ** [src/App.tsx]: the PCM encoder *)

Module PCM.
Import JS.

(** The object handed to [session.sendRealtimeInput]. *)
Record GeminiBlob : Type := { data : jsstring; mimeType : jsstring }.

(** The value stored by [int16[i] = Math.max(-1, Math.min(1, data[i])) * 32767]. *)
Definition clamp (x : number) : number :=
  Math_max (Finite (-1)) (Math_min (Finite 1) x).

Definition sample_to_int16 (x : number) : Z :=
  ToInt16 (mul (clamp x) (Finite 32767)).

(** The first loop: one Int16Array element per sample. *)
Definition Int16Array_from (frame : list number) : list Z :=
  map sample_to_int16 frame.

(** The two bytes of one 16-bit element, as the host lays them out. *)
Definition int16_bytes (bo : ByteOrder) (v : Z) : list Z :=
  let u := v mod 65536 in
  match bo with
  | LittleEndian => [u mod 256; u / 256]
  | BigEndian => [u / 256; u mod 256]
  end.

(** [new Uint8Array(int16.buffer)]: the same buffer seen as bytes. *)
Definition Uint8Array_of_buffer (bo : ByteOrder) (int16 : list Z) : list Z :=
  flat_map (int16_bytes bo) int16.

(** The second loop: [binary += String.fromCharCode(uint8[i])]. *)
Definition binary_of (uint8 : list Z) : jsstring :=
  fold_left (fun binary b => binary ++ [fromCharCode b]) uint8 [].

(** *** The encoding in the words of its description *)

(** A sample clamped to [-1, 1], multiplied by 32767 and truncated; NaN,
    which no clamp brings into the range, is written as 0. *)
Definition clamped_int16 (x : number) : Z :=
  match x with
  | NaN => 0
  | Infinity negative => if negative then -32767 else 32767
  | Finite q =>
      truncate ((if Qle_bool 1 q then 1 else if Qle_bool q (-1) then -1 else q) * 32767)
  end.

(** The two bytes of a 16-bit integer in two's complement: the low byte
    first (little-endian), or the high byte first. *)
Definition packed (bo : ByteOrder) (v : Z) : list Z :=
  let u := if v <? 0 then v + 65536 else v in
  match bo with
  | LittleEndian => [u mod 256; u / 256]
  | BigEndian => [u / 256; u mod 256]
  end.

(** *** [createBlob] *)

Definition createBlob (bo : ByteOrder) (frame : list number) : option GeminiBlob :=
  let int16 := Int16Array_from frame in
  let uint8 := Uint8Array_of_buffer bo int16 in
  let binary := binary_of uint8 in
  match Base64.btoa binary with
  | Some base64 =>
      Some {| data := base64; mimeType := str "audio/pcm;rate=16000" |}
  | None => None
  end.

End PCM.

(** ** Number values: IEEE 754 binary64, and the decimal text of a Number *)

Module Float64.
Import JS.

(** A Number value other than NaN (no JSON text denotes NaN, and the
    sources compute none on the values they store). A finite value that
    is not a zero is [m * 2^e] with [m] odd, which is unique; the two zeros
    and the two infinities are told apart by their sign. *)
Inductive t : Type :=
| Zero (negative : bool)
| Dyadic (negative : bool) (m : positive) (e : Z)
| Infinite (negative : bool).

Definition is_odd (m : positive) : bool :=
  match m with
  | xO _ => false
  | _ => true
  end.

(** The values a binary64 holds: at most 53 significant bits, the last bit
    no finer than 2^-1074, and a magnitude below 2^1024. *)
Definition is_double (x : t) : bool :=
  match x with
  | Dyadic _ m e =>
      is_odd m && (Z.pos m <? 2 ^ 53) && (-1074 <=? e)
      && (Z.log2 (Z.pos m) + e <=? 1023)
  | _ => true
  end.

Definition eqb (x y : t) : bool :=
  match x, y with
  | Zero a, Zero b => Bool.eqb a b
  | Infinite a, Infinite b => Bool.eqb a b
  | Dyadic a m e, Dyadic b n f => Bool.eqb a b && Pos.eqb m n && (e =? f)
  | _, _ => false
  end.

Definition is_finite (x : t) : bool :=
  match x with
  | Infinite _ => false
  | _ => true
  end.

(** [x] is neither zero: the truthiness of a number that is not NaN. *)
Definition is_nonzero (x : t) : bool :=
  match x with
  | Zero _ => false
  | _ => true
  end.

(** *** Rounding a rational to the nearest Number, ties to even *)

(** The integer [L] with [2^L <= a / b < 2^(L+1)], for positive [a], [b]. *)
Definition floor_log2 (a b : Z) : Z :=
  let la := Z.log2 a in
  let lb := Z.log2 b in
  if a * 2 ^ lb <? b * 2 ^ la then la - lb - 1 else la - lb.

(** The integer nearest to [num / den]; of two equally near, the even one. *)
Definition nearest_even (num den : Z) : Z :=
  let q := num / den in
  let r := num mod den in
  match 2 * r ?= den with
  | Lt => q
  | Gt => q + 1
  | Eq => if Z.even q then q else q + 1
  end.

(** [m * 2^e] with the factors of two moved from [m] to the exponent. *)
Fixpoint strip (m : positive) (e : Z) : positive * Z :=
  match m with
  | xO m' => strip m' (e + 1)
  | _ => (m, e)
  end.

(** The Number nearest to [a / b] ([0 <= a], [0 < b]), with the given
    sign: the quotient is rounded to an integer number of units in the last
    place, [2^(L - 52)] or [2^-1074] for a subnormal; a result of 2^1024 or
    more is an infinity. *)
Definition round (negative : bool) (a b : Z) : t :=
  if a =? 0 then Zero negative
  else
    let ulp := Z.max (floor_log2 a b - 52) (-1074) in
    match nearest_even (a * 2 ^ Z.max 0 (- ulp)) (b * 2 ^ Z.max 0 ulp) with
    | Zpos q =>
        let (m, e) := strip q ulp in
        if 1023 <? Z.log2 (Z.pos m) + e then Infinite negative
        else Dyadic negative m e
    | _ => Zero negative
    end.

(** The Number a decimal numeral [s * 10^p] denotes: the nearest one. A
    numeral of 10^310 or more is beyond every finite Number, and one below
    10^-324 (as [s] is below 10 to its number of bits) is nearer to zero
    than to the least one: the power of ten is not computed for them. *)
Definition of_decimal (negative : bool) (s p : Z) : t :=
  if 310 <=? p then (if s =? 0 then Zero negative else Infinite negative)
  else if p <=? -324 - (Z.log2 s + 1) then Zero negative
  else round negative (s * 10 ^ Z.max 0 p) (10 ^ Z.max 0 (- p)).

(** An integer as a Number. *)
Definition of_Z (n : Z) : t := of_decimal (n <? 0) (Z.abs n) 0.

(** The integer a Number is, when it is one (and not -0). *)
Definition to_Z (x : t) : option Z :=
  match x with
  | Zero false => Some 0
  | Dyadic negative m e =>
      if 0 <=? e
      then Some ((if negative then -1 else 1) * (Z.pos m * 2 ^ e))
      else None
  | _ => None
  end.

(** *** [Number::toString] *)

Fixpoint uint_chars (d : Decimal.uint) : jsstring :=
  match d with
  | Decimal.Nil => []
  | Decimal.D0 d => 48 :: uint_chars d
  | Decimal.D1 d => 49 :: uint_chars d
  | Decimal.D2 d => 50 :: uint_chars d
  | Decimal.D3 d => 51 :: uint_chars d
  | Decimal.D4 d => 52 :: uint_chars d
  | Decimal.D5 d => 53 :: uint_chars d
  | Decimal.D6 d => 54 :: uint_chars d
  | Decimal.D7 d => 55 :: uint_chars d
  | Decimal.D8 d => 56 :: uint_chars d
  | Decimal.D9 d => 57 :: uint_chars d
  end.

(** The decimal digits of a positive integer. *)
Definition digits (s : positive) : jsstring := uint_chars (Pos.to_uint s).

(** The integer [n] with [10^(n-1) <= a / b < 10^n], for positive [a], [b]. *)
Definition magnitude (a b : Z) : Z :=
  if b <=? a then Z.of_nat (length (digits (Z.to_pos (a / b))))
  else 1 - Z.of_nat (length (digits (Z.to_pos ((b - 1) / a)))).

(** [s * 10^p] without the final zeros of [s]. *)
Fixpoint trim (fuel : nat) (s p : Z) : Z * Z :=
  match fuel with
  | O => (s, p)
  | S fuel' =>
      if (0 <? s) && (s mod 10 =? 0) then trim fuel' (s / 10) (p + 1) else (s, p)
  end.

(** The numeral [s * 10^p], when it is positive and denotes [x]. *)
Definition candidate (x : t) (negative : bool) (s p : Z) : option (positive * Z) :=
  let (s', p') := trim (Z.to_nat (Z.log2 s) + 1) s p in
  match s' with
  | Zpos digits =>
      if eqb (of_decimal negative s' p') x then Some (digits, p') else None
  | _ => None
  end.

(** The numeral with the fewest digits that denotes [x]: with the last
    digit at 10^p, the two numerals around [a / b] are tried, and of two
    that denote [x] the nearer is taken (the even one when equally near);
    then one more digit. Seventeen digits always reach [x]; [exact] is the
    full expansion the search would end with. *)
Fixpoint shortest (fuel : nat) (x : t) (negative : bool) (a b p : Z)
    (exact : positive * Z) : positive * Z :=
  match fuel with
  | O => exact
  | S fuel' =>
      let num := a * 10 ^ Z.max 0 (- p) in
      let den := b * 10 ^ Z.max 0 p in
      let f := num / den in
      let r := num mod den in
      match candidate x negative f p, candidate x negative (f + 1) p with
      | Some lower, Some upper =>
          match 2 * r ?= den with
          | Lt => lower
          | Gt => upper
          | Eq => if Z.even f then lower else upper
          end
      | Some lower, None => lower
      | None, Some upper => upper
      | None, None => shortest fuel' x negative a b (p - 1) exact
      end
  end.

(** The digits [s] and the exponent [p] of the text of [m * 2^e]. *)
Definition decimal_of (negative : bool) (m : positive) (e : Z) : positive * Z :=
  let a := Z.pos m * 2 ^ Z.max 0 e in
  let b := 2 ^ Z.max 0 (- e) in
  let exact :=
    if 0 <=? e then (Z.to_pos (Z.pos m * 2 ^ e), 0)
    else (Z.to_pos (Z.pos m * 5 ^ (- e)), e) in
  shortest 17 (Dyadic negative m e) negative a b (magnitude a b - 1) exact.

Definition zeros (n : Z) : jsstring := repeat 48 (Z.to_nat n).

(** The exponent part: [e], a sign that is always written, the digits. *)
Definition exponent_text (x : Z) : jsstring :=
  101 :: (if 0 <=? x then 43 else 45) :: digits (Z.to_pos (Z.abs x)).

(** The digits [ds] of a numeral whose value lies in [10^(n-1), 10^n)
    written as a decimal, or with an exponent when [n] is above 21 or below
    -5. *)
Definition format (ds : jsstring) (n : Z) : jsstring :=
  let k := Z.of_nat (length ds) in
  if (k <=? n) && (n <=? 21) then ds ++ zeros (n - k)
  else if (0 <? n) && (n <=? 21) then
    firstn (Z.to_nat n) ds ++ 46 :: skipn (Z.to_nat n) ds
  else if (-6 <? n) && (n <=? 0) then 48 :: 46 :: zeros (- n) ++ ds
  else
    match ds with
    | [] => []
    | d :: fraction =>
        match fraction with
        | [] => d :: exponent_text (n - 1)
        | _ => d :: 46 :: fraction ++ exponent_text (n - 1)
        end
    end.

(** [Number::toString(x)], radix 10. *)
Definition toString (x : t) : jsstring :=
  match x with
  | Zero _ => [48]
  | Infinite negative => if negative then str "-Infinity" else str "Infinity"
  | Dyadic negative m e =>
      let (s, p) := decimal_of negative m e in
      (if negative then [45] else [])
        ++ format (digits s) (p + Z.of_nat (length (digits s)))
  end.

(** *** What the rounding is compared to *)

(** [L] is the integer part of the binary logarithm of [a / b]. *)
Definition bracket (a b L : Z) : Prop :=
  b * 2 ^ Z.max 0 L <= a * 2 ^ Z.max 0 (- L) < 2 * (b * 2 ^ Z.max 0 L).

(** [a / b] is [m * 2^e]. *)
Definition is_dyadic (a b : Z) (m : positive) (e : Z) : Prop :=
  a * 2 ^ Z.max 0 (- e) = Z.pos m * 2 ^ Z.max 0 e * b.

End Float64.

(** ** JSON text: [JSON.stringify] and [JSON.parse] *)

Module JSON.
Import JS.

(** The values [JSON.parse] returns and the sources store. An object is
    its own properties in the order [JSON.stringify] and [Object.keys]
    list them: array indices first, in ascending order, then the other
    keys in the order of their creation. *)
Inductive value : Type :=
| JNull
| JBool (b : bool)
| JNumber (x : Float64.t)
| JString (s : jsstring)
| JArray (elements : list value)
| JObject (members : list (jsstring * value)).

(** JavaScript truthiness, as [if (v)] and [!v] test it. *)
Definition truthy (v : value) : bool :=
  match v with
  | JNull => false
  | JBool b => b
  | JNumber x => Float64.is_nonzero x
  | JString s => match s with [] => false | _ => true end
  | JArray _ | JObject _ => true
  end.

(** Property access [o.key] on an object; [None] is [undefined]. *)
Fixpoint lookup (key : jsstring) (members : list (jsstring * value)) : option value :=
  match members with
  | [] => None
  | (k, v) :: rest => if str_eqb k key then Some v else lookup key rest
  end.

Definition get (key : jsstring) (v : value) : option value :=
  match v with
  | JObject members => lookup key members
  | _ => None
  end.

(** *** Printing *)

Definition hex_digit (d : Z) : Z := if d <? 10 then 48 + d else 87 + d.

(** [\uXXXX], lower-case hexadecimal. *)
Definition unicode_escape (c : Z) : jsstring :=
  [92; 117; hex_digit (c / 4096); hex_digit (c / 256 mod 16);
   hex_digit (c / 16 mod 16); hex_digit (c mod 16)].

Definition is_high_surrogate (c : Z) : bool := (55296 <=? c) && (c <=? 56319).
Definition is_low_surrogate (c : Z) : bool := (56320 <=? c) && (c <=? 57343).

(** One code unit that is not part of a surrogate pair. *)
Definition quote_unit (c : Z) : jsstring :=
  if c =? 8 then [92; 98]            (* \b *)
  else if c =? 9 then [92; 116]      (* \t *)
  else if c =? 10 then [92; 110]     (* \n *)
  else if c =? 12 then [92; 102]     (* \f *)
  else if c =? 13 then [92; 114]     (* \r *)
  else if c =? 34 then [92; 34]      (* escaped double quote *)
  else if c =? 92 then [92; 92]      (* escaped backslash *)
  else if (c <? 32) || is_high_surrogate c || is_low_surrogate c
       then unicode_escape c
  else [c].

(** The body of QuoteJSONString: a well-formed surrogate pair is copied, a
    lone surrogate is escaped. *)
Fixpoint quote_chars (s : jsstring) : jsstring :=
  match s with
  | [] => []
  | c :: rest =>
      if is_high_surrogate c then
        match rest with
        | d :: rest' =>
            if is_low_surrogate d then c :: d :: quote_chars rest'
            else unicode_escape c ++ quote_chars rest
        | [] => unicode_escape c
        end
      else quote_unit c ++ quote_chars rest
  end.

Definition quote (s : jsstring) : jsstring := 34 :: quote_chars s ++ [34].

(** [n.toString()] for an integer [n] below 10^21 in magnitude, as
    [Date.now().toString()]: the decimal digits, [-] first for a negative
    one. *)
Definition number_chars (n : Z) : jsstring :=
  match n with
  | Z0 => [48]
  | Zpos p => Float64.digits p
  | Zneg p => 45 :: Float64.digits p
  end.

(** Items separated by commas. *)
Fixpoint join (items : list jsstring) : jsstring :=
  match items with
  | [] => []
  | [x] => x
  | x :: rest => x ++ 44 :: join rest
  end.

(** [JSON.stringify(v)], without indentation. *)
Fixpoint stringify (v : value) : jsstring :=
  match v with
  | JNull => str "null"
  | JBool true => str "true"
  | JBool false => str "false"
  | JNumber x => if Float64.is_finite x then Float64.toString x else str "null"
  | JString s => quote s
  | JArray elements => 91 :: join (map stringify elements) ++ [93]
  | JObject members =>
      123 :: join (map (fun m => quote (fst m) ++ 58 :: stringify (snd m)) members)
          ++ [125]
  end.

(** *** Parsing *)

Definition is_ws (c : Z) : bool :=
  (c =? 32) || (c =? 9) || (c =? 10) || (c =? 13).

Fixpoint skip_ws (s : jsstring) : jsstring :=
  match s with
  | c :: rest => if is_ws c then skip_ws rest else s
  | [] => []
  end.

Definition hex_value (c : Z) : option Z :=
  if (48 <=? c) && (c <=? 57) then Some (c - 48)
  else if (97 <=? c) && (c <=? 102) then Some (c - 87)
  else if (65 <=? c) && (c <=? 70) then Some (c - 55)
  else None.

Definition hex4 (h1 h2 h3 h4 : Z) : option Z :=
  match hex_value h1, hex_value h2, hex_value h3, hex_value h4 with
  | Some a, Some b, Some c, Some d => Some (a * 4096 + b * 256 + c * 16 + d)
  | _, _, _, _ => None
  end.

Definition simple_escape (e : Z) : option Z :=
  if e =? 34 then Some 34
  else if e =? 92 then Some 92
  else if e =? 47 then Some 47
  else if e =? 98 then Some 8
  else if e =? 102 then Some 12
  else if e =? 110 then Some 10
  else if e =? 114 then Some 13
  else if e =? 116 then Some 9
  else None.

Definition prepend (c : Z) (r : option (jsstring * jsstring)) : option (jsstring * jsstring) :=
  match r with
  | Some (s, rest) => Some (c :: s, rest)
  | None => None
  end.

(** The characters of a string token, after the opening quote, up to and
    including the closing quote. *)
Fixpoint parse_chars (s : jsstring) : option (jsstring * jsstring) :=
  match s with
  | [] => None
  | c :: r =>
      if c =? 34 then Some ([], r)
      else if c =? 92 then
        match r with
        | [] => None
        | e :: r' =>
            if e =? 117 then
              match r' with
              | h1 :: h2 :: h3 :: h4 :: r'' =>
                  match hex4 h1 h2 h3 h4 with
                  | Some u => prepend u (parse_chars r'')
                  | None => None
                  end
              | _ => None
              end
            else
              match simple_escape e with
              | Some u => prepend u (parse_chars r')
              | None => None
              end
        end
      else if c <? 32 then None
      else prepend c (parse_chars r)
  end.

Definition is_digit (c : Z) : bool := (48 <=? c) && (c <=? 57).

(** The longest run of digits at the head of [s], and what follows. *)
Fixpoint span_digits (s : jsstring) : jsstring * jsstring :=
  match s with
  | [] => ([], [])
  | c :: r =>
      if is_digit c then let (ds, rest) := span_digits r in (c :: ds, rest)
      else ([], s)
  end.

(** The integer a run of digits denotes. *)
Definition digits_value (ds : jsstring) : Z :=
  fold_left (fun acc c => 10 * acc + (c - 48)) ds 0.

(** The fraction of a number token: nothing, or a point and at least one
    digit. *)
Definition parse_fraction (s : jsstring) : option (jsstring * jsstring) :=
  match s with
  | [] => Some ([], s)
  | c :: r =>
      if c =? 46 then
        match span_digits r with
        | ([], _) => None
        | (ds, rest) => Some (ds, rest)
        end
      else Some ([], s)
  end.

(** The exponent of a number token: nothing, or [e] or [E], an optional
    sign and at least one digit. *)
Definition parse_exponent (s : jsstring) : option (Z * jsstring) :=
  match s with
  | [] => Some (0, s)
  | c :: r =>
      if (c =? 101) || (c =? 69) then
        let (negative, r') :=
          match r with
          | [] => (false, r)
          | sign :: after =>
              if sign =? 45 then (true, after)
              else if sign =? 43 then (false, after)
              else (false, r)
          end in
        match span_digits r' with
        | ([], _) => None
        | (ds, rest) =>
            Some (if negative then - digits_value ds else digits_value ds, rest)
        end
      else Some (0, s)
  end.

(** A number token: an optional [-], an integer part without a leading
    zero, an optional fraction, an optional exponent. Its value is the
    Number nearest to the decimal numeral. *)
Definition parse_number (s : jsstring) : option (value * jsstring) :=
  let (negative, s1) :=
    match s with
    | [] => (false, s)
    | c :: r => if c =? 45 then (true, r) else (false, s)
    end in
  match span_digits s1 with
  | ([], _) => None
  | (d :: more, s2) =>
      if (d =? 48) && (match more with [] => false | _ => true end) then None
      else
        match parse_fraction s2 with
        | None => None
        | Some (fraction, s3) =>
            match parse_exponent s3 with
            | None => None
            | Some (exponent, rest) =>
                Some (JNumber
                        (Float64.of_decimal negative
                           (digits_value ((d :: more) ++ fraction))
                           (exponent - Z.of_nat (length fraction))),
                      rest)
            end
        end
  end.

(** *** Objects as [JSON.parse] builds them *)

(** A key that is an array index: the canonical decimal text of an integer
    from 0 to 2^32 - 2. *)
Definition array_index (key : jsstring) : option Z :=
  match key with
  | [] => None
  | d :: more =>
      if forallb is_digit key
         && negb ((d =? 48) && (match more with [] => false | _ => true end))
         && (digits_value key <=? 4294967294)
      then Some (digits_value key)
      else None
  end.

(** Property [a] is listed before property [b] whenever both exist. *)
Definition precedes (a b : jsstring) : bool :=
  match array_index a, array_index b with
  | Some i, Some j => i <? j
  | Some _, None => true
  | None, _ => false
  end.

(** [CreateDataProperty(object, key, v)]: an existing property keeps its
    place and takes the new value; a new one is created, at the place of
    its key among the array indices or after every other key. *)
Fixpoint define (key : jsstring) (v : value) (members : list (jsstring * value))
  : list (jsstring * value) :=
  match members with
  | [] => [(key, v)]
  | (k, w) :: rest =>
      if str_eqb k key then (k, v) :: rest
      else if precedes key k then (key, v) :: members
      else (k, w) :: define key v rest
  end.

(** The object of a member list read from left to right: of two members
    with the same name the later one gives the value. *)
Definition object_of (members : list (jsstring * value)) : list (jsstring * value) :=
  fold_left (fun object m => define (fst m) (snd m) object) members [].

(** The members of an object: no key twice, and every key at its place. *)
Fixpoint ordered (members : list (jsstring * value)) : bool :=
  match members with
  | [] => true
  | (k, _) :: rest =>
      forallb (fun m => negb (str_eqb k (fst m)) && negb (precedes (fst m) k)) rest
      && ordered rest
  end.

(** [expect word s]: [s] without the prefix [word]. *)
Fixpoint expect (word s : jsstring) : option jsstring :=
  match word, s with
  | [], _ => Some s
  | w :: word', c :: s' => if w =? c then expect word' s' else None
  | _ :: _, [] => None
  end.

Fixpoint parse_value (fuel : nat) (s : jsstring) {struct fuel}
  : option (value * jsstring) :=
  match fuel with
  | O => None
  | S fuel =>
      match skip_ws s with
      | [] => None
      | c :: r =>
          if c =? 34 then
            match parse_chars r with
            | Some (text, rest) => Some (JString text, rest)
            | None => None
            end
          else if c =? 91 then
            match skip_ws r with
            | [] => None
            | c' :: rest =>
                if c' =? 93 then Some (JArray [], rest)
                else
                  match parse_elements fuel r with
                  | Some (l, rest) => Some (JArray l, rest)
                  | None => None
                  end
            end
          else if c =? 123 then
            match skip_ws r with
            | [] => None
            | c' :: rest =>
                if c' =? 125 then Some (JObject [], rest)
                else
                  match parse_members fuel r with
                  | Some (l, rest) => Some (JObject (object_of l), rest)
                  | None => None
                  end
            end
          else if c =? 110 then
            option_map (pair JNull) (expect (str "ull") r)
          else if c =? 116 then
            option_map (pair (JBool true)) (expect (str "rue") r)
          else if c =? 102 then
            option_map (pair (JBool false)) (expect (str "alse") r)
          else parse_number (c :: r)
      end
  end
with parse_elements (fuel : nat) (s : jsstring) {struct fuel}
  : option (list value * jsstring) :=
  match fuel with
  | O => None
  | S fuel =>
      match parse_value fuel s with
      | Some (v, r) =>
          match skip_ws r with
          | [] => None
          | c :: r' =>
              if c =? 44 then
                match parse_elements fuel r' with
                | Some (l, rest) => Some (v :: l, rest)
                | None => None
                end
              else if c =? 93 then Some ([v], r')
              else None
          end
      | None => None
      end
  end
with parse_members (fuel : nat) (s : jsstring) {struct fuel}
  : option (list (jsstring * value) * jsstring) :=
  match fuel with
  | O => None
  | S fuel =>
      match skip_ws s with
      | [] => None
      | q :: r =>
          if q =? 34 then
            match parse_chars r with
            | Some (key, r1) =>
                match skip_ws r1 with
                | [] => None
                | colon :: r2 =>
                    if colon =? 58 then
                      match parse_value fuel r2 with
                      | Some (v, r3) =>
                          match skip_ws r3 with
                          | [] => None
                          | c :: r4 =>
                              if c =? 44 then
                                match parse_members fuel r4 with
                                | Some (l, rest) => Some ((key, v) :: l, rest)
                                | None => None
                                end
                              else if c =? 125 then Some ([(key, v)], r4)
                              else None
                          end
                      | None => None
                      end
                    else None
                end
            | None => None
            end
          else None
      end
  end.

(** *** Well-formed values and the measure the parser's fuel is compared to *)

Definition is_code_unit (c : Z) : bool := (0 <=? c) && (c <? 65536).

(** A number that JSON text keeps: a binary64 value that is finite and is
    not -0 ([JSON.stringify] writes [null] for an infinity and [0] for
    -0). *)
Definition kept_number (x : Float64.t) : bool :=
  Float64.is_double x
  && match x with
     | Float64.Zero negative => negb negative
     | Float64.Dyadic _ _ _ => true
     | Float64.Infinite _ => false
     end.

(** A value as JavaScript holds it (strings of 16-bit code units, binary64
    numbers, objects with their keys in place) whose numbers JSON text
    keeps. *)
Fixpoint well_formed (v : value) : bool :=
  match v with
  | JNumber x => kept_number x
  | JString s => forallb is_code_unit s
  | JArray elements => forallb well_formed elements
  | JObject members =>
      forallb (fun m => forallb is_code_unit (fst m) && well_formed (snd m)) members
      && ordered members
  | _ => true
  end.

Fixpoint size (v : value) : nat :=
  match v with
  | JArray elements => S (list_sum (map (fun x => S (size x)) elements))
  | JObject members => S (list_sum (map (fun m => S (size (snd m))) members))
  | _ => 1
  end.

(** What may follow a value inside a text: nothing, a comma or a closing
    bracket. *)
Definition delimited (rest : jsstring) : bool :=
  match rest with
  | [] => true
  | c :: _ => (c =? 44) || (c =? 93) || (c =? 125)
  end.

(** What may follow a run of digits: anything but a digit. *)
Definition stops (s : jsstring) : Prop :=
  match s with
  | c :: _ => is_digit c = false
  | [] => True
  end.

(** The text of [v], followed by a delimiter, is read back as [v]. *)
Definition reads_back (v : value) : Prop :=
  forall (fuel : nat) (rest : jsstring),
    (size v <= fuel)%nat -> delimited rest = true ->
    parse_value fuel (stringify v ++ rest) = Some (v, rest).

(** [JSON.parse(text)]: one value, then only white space; [None] is the
    SyntaxError it throws.  Every call of the three parsers above either
    consumes a character or is followed by one that does, so the fuel
    below is never the reason for [None]. *)
Definition parse (text : jsstring) : option value :=
  match parse_value (2 * length text + 2) text with
  | Some (v, rest) =>
      match skip_ws rest with
      | [] => Some v
      | _ => None
      end
  | None => None
  end.

End JSON.


(** ** [types.ts] *)

Module GoldenResult.
Import JS JSON.

(** The four-field structured result of a conversion. *)
Record t : Type := {
  originalTranslation : jsstring;
  goldenPrompt : jsstring;
  category : jsstring;
  reasoning : jsstring
}.

(** The object a response text denotes when it follows the response
    schema. *)
Definition toJSON (r : t) : value :=
  JObject [(str "originalTranslation", JString (originalTranslation r));
           (str "goldenPrompt", JString (goldenPrompt r));
           (str "category", JString (category r));
           (str "reasoning", JString (reasoning r))].

(** The four strings are sequences of 16-bit code units. *)
Definition well_formed (r : t) : bool :=
  forallb is_code_unit (originalTranslation r)
  && forallb is_code_unit (goldenPrompt r)
  && forallb is_code_unit (category r)
  && forallb is_code_unit (reasoning r).

End GoldenResult.

Module GroundingSource.
Import JS.
Record t : Type := { uri : jsstring; title : jsstring }.
End GroundingSource.

Module ConversionState.
Import JS.
(** [result] is a [GoldenResult] or [null] ([JNull]); [error] is a string
    or [null] ([None]). *)
Record t : Type := {
  isLoading : bool;
  result : JSON.value;
  error : option jsstring;
  sources : list GroundingSource.t
}.
End ConversionState.

Module HistoryItem.
Import JS JSON.

(** [result] is declared [GoldenResult]; [addToHistory] takes it as [any]
    and stores what the service returned. *)
Record t : Type := {
  id : jsstring;
  originalInput : jsstring;
  result : value;
  timestamp : Z
}.

(** The object [addToHistory] builds: four properties, in the order of the
    object literal. *)
Definition toJSON (item : t) : value :=
  JObject [(str "id", JString (id item));
           (str "originalInput", JString (originalInput item));
           (str "result", result item);
           (str "timestamp", JNumber (Float64.of_Z (timestamp item)))].

(** A parsed value seen as an entry: exactly the objects [toJSON] gives
    (the four properties in that order, strings for the first two, an
    integer for the last); any other value is not an entry of the typed
    history. *)
Definition fromJSON (v : value) : option t :=
  match v with
  | JObject [(k1, JString i); (k2, JString o); (k3, r); (k4, JNumber x)] =>
      if str_eqb k1 (str "id") && str_eqb k2 (str "originalInput")
         && str_eqb k3 (str "result") && str_eqb k4 (str "timestamp")
      then
        match Float64.to_Z x with
        | Some ts =>
            if Float64.eqb (Float64.of_Z ts) x
            then Some {| id := i; originalInput := o; result := r; timestamp := ts |}
            else None
        | None => None
        end
      else None
  | _ => None
  end.

(** What React takes as a child between two tags: text and numbers, the
    values it shows as nothing ([null], [true], [false]) and arrays of
    children; on a plain object it throws. *)
Fixpoint isChild (v : value) : bool :=
  match v with
  | JObject _ => false
  | JArray elements => forallb isChild elements
  | _ => true
  end.

(** [{item.result.name}]: a property that is missing reads as [undefined],
    which is shown as nothing. *)
Definition shows (name : jsstring) (r : value) : bool :=
  match get name r with
  | Some v => isChild v
  | None => true
  end.

(** The card the history drawer draws for an entry, open or closed:
    [{item.result.category}], [{item.result.goldenPrompt}],
    ["{item.originalInput}"] and [{formatDate(item.timestamp)}]. Reading a
    property of [null] throws, and so does [Intl.DateTimeFormat]'s [format]
    on a date outside the range of time values. *)
Definition cardRenders (item : t) : bool :=
  match result item with
  | JNull => false
  | r => shows (str "category") r && shows (str "goldenPrompt") r
  end
  && (Z.abs (timestamp item) <=? 8640000000000000).

(** An entry as the component holds it: strings of 16-bit code units, any
    result that JSON text keeps (whatever its members and their order), and
    a card that the drawer has drawn, which makes the timestamp a time
    value, one of the integers a Number holds exactly. *)
Definition well_typed (item : t) : bool :=
  forallb is_code_unit (id item) && forallb is_code_unit (originalInput item)
  && well_formed (result item)
  && cardRenders item.

End HistoryItem.

Module ChatMessage.
Import JS.
Inductive Role : Type := user | model.
Record t : Type := {
  id : jsstring;
  role : Role;
  text : jsstring;
  timestamp : Z
}.
End ChatMessage.

(** ** The host: browser objects, the hosted API, and what a handler does
    to the outside *)

Module Web.
Import JS.

Record MediaStreamTrack : Type := { trackId : Z }.
Record MediaStream : Type := { getTracks : list MediaStreamTrack }.
Record AudioContext : Type := { contextId : Z }.
(** A [MediaStreamAudioSourceNode] or a [ScriptProcessorNode]. *)
Record AudioNode : Type := { nodeId : Z }.
Record Session : Type := { sessionId : Z }.

(** The calls that release an audio resource. *)
Inductive ReleaseCall : Type :=
| NodeDisconnect (node : AudioNode)
| TrackStop (track : MediaStreamTrack)
| ContextClose (context : AudioContext).

(** How a call or an awaited promise ends. *)
Inductive Result (A : Type) : Type :=
| Returned (a : A)
| Threw (message : jsstring).
Arguments Returned {A} a.
Arguments Threw {A} message.

(** A time value, as [Date.now()] returns it: an integer number of
    milliseconds, at most 8.64e15 in magnitude. *)
Record TimeValue : Type := {
  milliseconds :> Z;
  time_clip : (Z.abs milliseconds <=? 8640000000000000) = true
}.

(** [localStorage]. *)
Definition Storage : Type := jsstring -> option jsstring.

Definition getItem (key : jsstring) (storage : Storage) : option jsstring :=
  storage key.

Definition setItem (key value : jsstring) (storage : Storage) : Storage :=
  fun k => if str_eqb k key then Some value else storage k.

(** [s.trim()] is empty: every code unit is white space or a line
    terminator. *)
Definition is_space (c : Z) : bool :=
  ((9 <=? c) && (c <=? 13)) || (c =? 32) || (c =? 160) || (c =? 5760)
  || ((8192 <=? c) && (c <=? 8202)) || (c =? 8232) || (c =? 8233)
  || (c =? 8239) || (c =? 8287) || (c =? 12288) || (c =? 65279).

Definition trim_is_empty (s : jsstring) : bool := forallb is_space s.

(** Truthiness of a string, and of a possibly undefined string. *)
Definition nonempty (s : jsstring) : bool :=
  match s with [] => false | _ => true end.

Definition truthy (s : option jsstring) : bool :=
  match s with Some s => nonempty s | None => false end.

(** [a || b] on strings. *)
Definition or_else (a : option jsstring) (b : jsstring) : jsstring :=
  match a with
  | Some s => if nonempty s then s else b
  | None => b
  end.

End Web.

Module Api.
Import JS.

Inductive Tool : Type := googleSearch.

(** The request of [ai.models.generateContent]; the system instruction and
    the response schema are constants of the source and carry no state. *)
Record GenerateContentParameters : Type := {
  model : jsstring;
  contents : jsstring;
  tools : list Tool;
  responseMimeType : jsstring;
  thinkingBudget : Z
}.

Record WebChunk : Type := { uri : option jsstring; title : option jsstring }.
Record GroundingChunk : Type := { web : option WebChunk }.

Record GenerateContentResponse : Type := {
  text : option jsstring;
  groundingChunks : option (list GroundingChunk)
}.

(** One prior turn, as [sendChatMessage] receives it. *)
Record Content : Type := { role : ChatMessage.Role; parts : list jsstring }.

(** What a handler does to the outside, in order. *)
Inductive Effect : Type :=
| ConsoleLog (text : jsstring)
| ConsoleError (label message : jsstring)
| Alert (message : jsstring)
| Released (call : Web.ReleaseCall)
| GenerateContent (request : GenerateContentParameters)
| ChatSendMessage (history : list Content) (message : jsstring)
| SendRealtimeInput (media : PCM.GeminiBlob).

End Api.

(** ** [services/geminiService.ts] *)

Module GeminiService.
Import JS Web Api.

Record GoldenPromptResult : Type := {
  data : JSON.value;
  sources : list GroundingSource.t;
  error : option jsstring
}.

Definition goldenPromptRequest (input : jsstring) (useGrounding : bool)
  : GenerateContentParameters :=
  {| model := str "gemini-3-pro-preview";
     contents := input;
     tools := if useGrounding then [googleSearch] else [];
     responseMimeType := str "application/json";
     thinkingBudget := 32768 |}.

(** [chunks.forEach]: a chunk gives a source when its [web.uri] and
    [web.title] are both truthy. *)
Definition sourceOfChunk (chunk : GroundingChunk) : list GroundingSource.t :=
  match web chunk with
  | Some w =>
      match uri w, title w with
      | Some u, Some t =>
          if nonempty u && nonempty t
          then [{| GroundingSource.uri := u; GroundingSource.title := t |}]
          else []
      | _, _ => []
      end
  | None => []
  end.

Definition extractSources (chunks : option (list GroundingChunk))
  : list GroundingSource.t :=
  match chunks with
  | Some l => flat_map sourceOfChunk l
  | None => []
  end.

(** The [catch] of [generateGoldenPrompt]. *)
Definition failed (message : jsstring) : GoldenPromptResult * list Effect :=
  ({| data := JSON.JNull; sources := [];
      error := Some (or_else (Some message) (str "An unexpected error occurred.")) |},
   [ConsoleError (str "Gemini API Error:") message]).

(** [generateGoldenPrompt(input, useGrounding)], over the behaviour of the
    hosted model; the second component lists the call made and what is
    logged. It never throws. *)
Definition generateGoldenPrompt
    (generateContent : GenerateContentParameters -> Result GenerateContentResponse)
    (input : jsstring) (useGrounding : bool)
  : GoldenPromptResult * list Effect :=
  let request := goldenPromptRequest input useGrounding in
  let (outcome, log) :=
    match generateContent request with
    | Threw message => failed message
    | Returned response =>
        match text response with
        | Some resultText =>
            if nonempty resultText then
              match JSON.parse resultText with
              | Some parsedResult =>
                  ({| data := parsedResult;
                      sources := extractSources (groundingChunks response);
                      error := None |}, [])
              | None =>
                  let (r, l) := failed (str "Failed to parse Golden Prompt.") in
                  (r, ConsoleError (str "JSON Parse error") (str "SyntaxError") :: l)
              end
            else failed (str "No response from Gemini")
        | None => failed (str "No response from Gemini")
        end
    end in
  (outcome, GenerateContent request :: log).

(** [sendChatMessage(history, message)]: the reply text, or the failure
    thrown again with the same message. *)
Definition sendChatMessage
    (sendMessage : list Content -> jsstring -> Result (option jsstring))
    (history : list Content) (message : jsstring)
  : Result (option jsstring) * list Effect :=
  (match sendMessage history message with
   | Returned text => Returned text
   | Threw m => Threw m
   end,
   [ChatSendMessage history message]).

End GeminiService.

(** ** [src/App.tsx] *)

Module App.
Import JS Web Api.

(** The component's [useState] and [useRef] cells, the session promise the
    audio callback closes over, and the outside it acts on: [localStorage]
    and the trace of effects. The preview cell, which only the debounced
    preview effect writes and no handler below reads, is left out. *)
Record State : Type := {
  inputText : jsstring;
  useGrounding : bool;
  conversionState : ConversionState.t;
  history : list HistoryItem.t;
  isHistoryOpen : bool;
  isRecording : bool;
  audioContextRef : option AudioContext;
  streamRef : option MediaStream;
  processorRef : option AudioNode;
  sourceRef : option AudioNode;
  currentTranscriptionRef : jsstring;
  sessionPromise : option (Result Session);
  localStorage : Storage;
  trace : list Effect
}.

Definition set_inputText (x : jsstring) (s : State) : State :=
  {| inputText := x;
     useGrounding := useGrounding s;
     conversionState := conversionState s;
     history := history s;
     isHistoryOpen := isHistoryOpen s;
     isRecording := isRecording s;
     audioContextRef := audioContextRef s;
     streamRef := streamRef s;
     processorRef := processorRef s;
     sourceRef := sourceRef s;
     currentTranscriptionRef := currentTranscriptionRef s;
     sessionPromise := sessionPromise s;
     localStorage := localStorage s;
     trace := trace s |}.

Definition set_conversionState (x : ConversionState.t) (s : State) : State :=
  {| inputText := inputText s;
     useGrounding := useGrounding s;
     conversionState := x;
     history := history s;
     isHistoryOpen := isHistoryOpen s;
     isRecording := isRecording s;
     audioContextRef := audioContextRef s;
     streamRef := streamRef s;
     processorRef := processorRef s;
     sourceRef := sourceRef s;
     currentTranscriptionRef := currentTranscriptionRef s;
     sessionPromise := sessionPromise s;
     localStorage := localStorage s;
     trace := trace s |}.

Definition set_history (x : list HistoryItem.t) (s : State) : State :=
  {| inputText := inputText s;
     useGrounding := useGrounding s;
     conversionState := conversionState s;
     history := x;
     isHistoryOpen := isHistoryOpen s;
     isRecording := isRecording s;
     audioContextRef := audioContextRef s;
     streamRef := streamRef s;
     processorRef := processorRef s;
     sourceRef := sourceRef s;
     currentTranscriptionRef := currentTranscriptionRef s;
     sessionPromise := sessionPromise s;
     localStorage := localStorage s;
     trace := trace s |}.

Definition set_isHistoryOpen (x : bool) (s : State) : State :=
  {| inputText := inputText s;
     useGrounding := useGrounding s;
     conversionState := conversionState s;
     history := history s;
     isHistoryOpen := x;
     isRecording := isRecording s;
     audioContextRef := audioContextRef s;
     streamRef := streamRef s;
     processorRef := processorRef s;
     sourceRef := sourceRef s;
     currentTranscriptionRef := currentTranscriptionRef s;
     sessionPromise := sessionPromise s;
     localStorage := localStorage s;
     trace := trace s |}.

Definition set_isRecording (x : bool) (s : State) : State :=
  {| inputText := inputText s;
     useGrounding := useGrounding s;
     conversionState := conversionState s;
     history := history s;
     isHistoryOpen := isHistoryOpen s;
     isRecording := x;
     audioContextRef := audioContextRef s;
     streamRef := streamRef s;
     processorRef := processorRef s;
     sourceRef := sourceRef s;
     currentTranscriptionRef := currentTranscriptionRef s;
     sessionPromise := sessionPromise s;
     localStorage := localStorage s;
     trace := trace s |}.

Definition set_audioContextRef (x : option AudioContext) (s : State) : State :=
  {| inputText := inputText s;
     useGrounding := useGrounding s;
     conversionState := conversionState s;
     history := history s;
     isHistoryOpen := isHistoryOpen s;
     isRecording := isRecording s;
     audioContextRef := x;
     streamRef := streamRef s;
     processorRef := processorRef s;
     sourceRef := sourceRef s;
     currentTranscriptionRef := currentTranscriptionRef s;
     sessionPromise := sessionPromise s;
     localStorage := localStorage s;
     trace := trace s |}.

Definition set_streamRef (x : option MediaStream) (s : State) : State :=
  {| inputText := inputText s;
     useGrounding := useGrounding s;
     conversionState := conversionState s;
     history := history s;
     isHistoryOpen := isHistoryOpen s;
     isRecording := isRecording s;
     audioContextRef := audioContextRef s;
     streamRef := x;
     processorRef := processorRef s;
     sourceRef := sourceRef s;
     currentTranscriptionRef := currentTranscriptionRef s;
     sessionPromise := sessionPromise s;
     localStorage := localStorage s;
     trace := trace s |}.

Definition set_processorRef (x : option AudioNode) (s : State) : State :=
  {| inputText := inputText s;
     useGrounding := useGrounding s;
     conversionState := conversionState s;
     history := history s;
     isHistoryOpen := isHistoryOpen s;
     isRecording := isRecording s;
     audioContextRef := audioContextRef s;
     streamRef := streamRef s;
     processorRef := x;
     sourceRef := sourceRef s;
     currentTranscriptionRef := currentTranscriptionRef s;
     sessionPromise := sessionPromise s;
     localStorage := localStorage s;
     trace := trace s |}.

Definition set_sourceRef (x : option AudioNode) (s : State) : State :=
  {| inputText := inputText s;
     useGrounding := useGrounding s;
     conversionState := conversionState s;
     history := history s;
     isHistoryOpen := isHistoryOpen s;
     isRecording := isRecording s;
     audioContextRef := audioContextRef s;
     streamRef := streamRef s;
     processorRef := processorRef s;
     sourceRef := x;
     currentTranscriptionRef := currentTranscriptionRef s;
     sessionPromise := sessionPromise s;
     localStorage := localStorage s;
     trace := trace s |}.

Definition set_currentTranscriptionRef (x : jsstring) (s : State) : State :=
  {| inputText := inputText s;
     useGrounding := useGrounding s;
     conversionState := conversionState s;
     history := history s;
     isHistoryOpen := isHistoryOpen s;
     isRecording := isRecording s;
     audioContextRef := audioContextRef s;
     streamRef := streamRef s;
     processorRef := processorRef s;
     sourceRef := sourceRef s;
     currentTranscriptionRef := x;
     sessionPromise := sessionPromise s;
     localStorage := localStorage s;
     trace := trace s |}.

Definition set_sessionPromise (x : option (Result Session)) (s : State) : State :=
  {| inputText := inputText s;
     useGrounding := useGrounding s;
     conversionState := conversionState s;
     history := history s;
     isHistoryOpen := isHistoryOpen s;
     isRecording := isRecording s;
     audioContextRef := audioContextRef s;
     streamRef := streamRef s;
     processorRef := processorRef s;
     sourceRef := sourceRef s;
     currentTranscriptionRef := currentTranscriptionRef s;
     sessionPromise := x;
     localStorage := localStorage s;
     trace := trace s |}.

Definition set_localStorage (x : Storage) (s : State) : State :=
  {| inputText := inputText s;
     useGrounding := useGrounding s;
     conversionState := conversionState s;
     history := history s;
     isHistoryOpen := isHistoryOpen s;
     isRecording := isRecording s;
     audioContextRef := audioContextRef s;
     streamRef := streamRef s;
     processorRef := processorRef s;
     sourceRef := sourceRef s;
     currentTranscriptionRef := currentTranscriptionRef s;
     sessionPromise := sessionPromise s;
     localStorage := x;
     trace := trace s |}.

Definition set_trace (x : list Effect) (s : State) : State :=
  {| inputText := inputText s;
     useGrounding := useGrounding s;
     conversionState := conversionState s;
     history := history s;
     isHistoryOpen := isHistoryOpen s;
     isRecording := isRecording s;
     audioContextRef := audioContextRef s;
     streamRef := streamRef s;
     processorRef := processorRef s;
     sourceRef := sourceRef s;
     currentTranscriptionRef := currentTranscriptionRef s;
     sessionPromise := sessionPromise s;
     localStorage := localStorage s;
     trace := x |}.

Definition emit (e : Effect) (s : State) : State := set_trace (trace s ++ [e]) s.

Definition emit_all (l : list Effect) (s : State) : State :=
  set_trace (trace s ++ l) s.

(** What the browser and the hosted services answer during a handler. *)
Record Host : Type := {
  getUserMedia : Result MediaStream;
  newAudioContext : Result AudioContext;
  createMediaStreamSource : Result AudioNode;
  createScriptProcessor : Result AudioNode;
  connectToLiveSession : Result Session;
  sourceConnect : Result unit;
  processorConnect : Result unit;
  releaseThrows : ReleaseCall -> option jsstring;
  generateContent : GenerateContentParameters -> Result GenerateContentResponse;
  Date_now : nat -> TimeValue;
  byteOrder : ByteOrder
}.

(** *** Handlers that may throw: state passing with an exception *)

Definition M (A : Type) : Type := State -> Result A * State.

Definition ret {A : Type} (a : A) : M A := fun s => (Returned a, s).

Definition bind {A B : Type} (m : M A) (k : A -> M B) : M B :=
  fun s =>
    match m s with
    | (Returned a, s') => k a s'
    | (Threw e, s') => (Threw e, s')
    end.

Definition call {A : Type} (r : Result A) : M A := fun s => (r, s).

Definition modify (f : State -> State) : M unit := fun s => (Returned tt, f s).

Definition gets {A : Type} (f : State -> A) : M A := fun s => (Returned (f s), s).

Definition try_catch {A : Type} (body : M A) (handler : jsstring -> M A) : M A :=
  fun s =>
    match body s with
    | (Returned a, s') => (Returned a, s')
    | (Threw e, s') => handler e s'
    end.

Notation "x <- m ;; k" := (bind m (fun x => k))
  (at level 61, m at next level, right associativity).
Notation "m ;; k" := (bind m (fun _ => k))
  (at level 61, right associativity).

Definition when {A : Type} (o : option A) (f : A -> M unit) : M unit :=
  match o with
  | Some a => f a
  | None => ret tt
  end.

(** [list.forEach(f)]. *)
Fixpoint forEach {A : Type} (l : list A) (f : A -> M unit) : M unit :=
  match l with
  | [] => ret tt
  | a :: l' => f a ;; forEach l' f
  end.

(** *** The audio teardown *)

Definition release (host : Host) (c : ReleaseCall) : M unit :=
  match releaseThrows host c with
  | Some e => call (Threw e)
  | None => modify (emit (Released c))
  end.

Definition cleanupAudio (host : Host) : M unit :=
  processor <- gets processorRef ;;
  when processor (fun p =>
    release host (NodeDisconnect p) ;;
    modify (set_processorRef None)) ;;
  source <- gets sourceRef ;;
  when source (fun n =>
    release host (NodeDisconnect n) ;;
    modify (set_sourceRef None)) ;;
  stream <- gets streamRef ;;
  when stream (fun m =>
    forEach (getTracks m) (fun track => release host (TrackStop track)) ;;
    modify (set_streamRef None)) ;;
  context <- gets audioContextRef ;;
  when context (fun c =>
    release host (ContextClose c) ;;
    modify (set_audioContextRef None)).

(** The release calls the held resources ask for, in the order of the
    teardown. *)
Definition heldReleaseCalls (s : State) : list ReleaseCall :=
  match processorRef s with Some p => [NodeDisconnect p] | None => [] end
  ++ match sourceRef s with Some n => [NodeDisconnect n] | None => [] end
  ++ match streamRef s with Some m => map TrackStop (getTracks m) | None => [] end
  ++ match audioContextRef s with Some c => [ContextClose c] | None => [] end.

(** No audio resource is referenced any more. *)
Definition allReleased (s : State) : Prop :=
  processorRef s = None /\ sourceRef s = None
  /\ streamRef s = None /\ audioContextRef s = None.

(** The state with the four references cleared and the given effects
    appended to the trace. *)
Definition cleared (effects : list Effect) (s : State) : State :=
  set_trace (trace s ++ effects)
    (set_audioContextRef None
       (set_streamRef None (set_sourceRef None (set_processorRef None s)))).

(** The alerts a trace shows to the user. *)
Definition alertsOf (t : list Effect) : list jsstring :=
  flat_map (fun e => match e with Alert m => [m] | _ => [] end) t.

(** A step that, whether it returns or throws, leaves the recording flag
    as it is and shows no alert. *)
Definition keepsFlagAndAlerts {A : Type} (m : M A) : Prop :=
  forall s : State,
    isRecording (snd (m s)) = isRecording s
    /\ alertsOf (trace (snd (m s))) = alertsOf (trace s).

(** *** The live session callbacks *)

Record Transcription : Type := { text : option jsstring }.

Record LiveServerContent : Type := {
  inputTranscription : option Transcription;
  outputTranscription : option Transcription;
  turnComplete : bool
}.

Record LiveServerMessage : Type := { serverContent : option LiveServerContent }.

(** [onmessage]: [setInputText(prev => prev + text)] when the message
    carries a truthy input transcription text. *)
Definition onmessage (message : LiveServerMessage) (s : State) : State :=
  match serverContent message with
  | Some content =>
      match inputTranscription content with
      | Some transcription =>
          match text transcription with
          | Some fragment =>
              if nonempty fragment
              then set_inputText (inputText s ++ fragment) s
              else s
          | None => s
          end
      | None => s
      end
  | None => s
  end.

(** A message that carries one transcript fragment. *)
Definition transcriptMessage (fragment : jsstring) : LiveServerMessage :=
  {| serverContent :=
       Some {| inputTranscription := Some {| text := Some fragment |};
               outputTranscription := None;
               turnComplete := false |} |}.

(** The messages of one session, handled in arrival order. *)
Definition deliver (messages : list LiveServerMessage) (s : State) : State :=
  fold_left (fun st message => onmessage message st) messages s.

Definition onopen (s : State) : State :=
  emit (ConsoleLog (str "Gemini Live Session Opened")) s.

Definition onerror (host : Host) (err : jsstring) : M unit :=
  modify (emit (ConsoleError (str "Gemini Live Error:") err)) ;;
  modify (set_isRecording false) ;;
  cleanupAudio host.

Definition onclose (host : Host) : M unit :=
  modify (emit (ConsoleLog (str "Gemini Live Session Closed"))) ;;
  modify (set_isRecording false) ;;
  cleanupAudio host.

(** [processor.onaudioprocess]: encode the block; the send waits for the
    session promise, and a rejected promise is only logged. *)
Definition onaudioprocess (host : Host) (inputData : list number) (s : State) : State :=
  match PCM.createBlob (byteOrder host) inputData with
  | Some pcmBlob =>
      match sessionPromise s with
      | Some (Returned _) => emit (SendRealtimeInput pcmBlob) s
      | Some (Threw e) => emit (ConsoleError (str "Session send error") e) s
      | None => s
      end
  | None => s
  end.

(** *** Recording *)

Definition MICROPHONE_ALERT : jsstring :=
  str "Could not access microphone. Please ensure permissions are granted.".

(** The [try] block of [startRecording] up to its [await]: the handler
    stops there until the promise of [getUserMedia] settles, and other
    handlers may run in between. *)
Definition startRecording_begin : M unit :=
  modify (set_isRecording true) ;;
  modify (set_currentTranscriptionRef []).

(** The rest of the [try] block, run when the promise of [getUserMedia]
    has settled: the promise of [connectToLiveSession] is stored, not
    awaited, so the block sees none of its failures. *)
Definition startRecording_resume (host : Host) : M unit :=
  stream <- call (getUserMedia host) ;;
  modify (set_streamRef (Some stream)) ;;
  audioContext <- call (newAudioContext host) ;;
  modify (set_audioContextRef (Some audioContext)) ;;
  source <- call (createMediaStreamSource host) ;;
  modify (set_sourceRef (Some source)) ;;
  processor <- call (createScriptProcessor host) ;;
  modify (set_processorRef (Some processor)) ;;
  modify (set_sessionPromise (Some (connectToLiveSession host))) ;;
  call (sourceConnect host) ;;
  call (processorConnect host).

(** The [catch] block of [startRecording]. *)
Definition startRecording_catch (host : Host) (error : jsstring) : M unit :=
  modify (emit (ConsoleError (str "Microphone Access Error:") error)) ;;
  modify (emit (Alert MICROPHONE_ALERT)) ;;
  modify (set_isRecording false) ;;
  cleanupAudio host.

(** The [try] block when no other handler runs during the [await]. *)
Definition startRecording_try (host : Host) : M unit :=
  startRecording_begin ;; startRecording_resume host.

Definition startRecording (host : Host) : M unit :=
  try_catch (startRecording_try host) (startRecording_catch host).

(** The continuation of [startRecording] after the [await], under its
    [try]: what runs once the promise has settled, in the state the handlers
    that ran meanwhile have left. *)
Definition startRecording_settled (host : Host) : M unit :=
  try_catch (startRecording_resume host) (startRecording_catch host).

(** A call or awaited promise inside the [try] block fails. *)
Definition acquisitionFails (host : Host) : bool :=
  match getUserMedia host, newAudioContext host, createMediaStreamSource host,
        createScriptProcessor host, sourceConnect host, processorConnect host with
  | Returned _, Returned _, Returned _, Returned _, Returned _, Returned _ => false
  | _, _, _, _, _, _ => true
  end.

Definition stopRecording (host : Host) : M unit :=
  modify (set_isRecording false) ;;
  cleanupAudio host.

Definition handleMicClick (host : Host) : M unit :=
  recording <- gets isRecording ;;
  if recording then stopRecording host else startRecording host.

(** *** History *)

Definition addToHistory (host : Host) (originalInput : jsstring)
    (result : JSON.value) (s : State) : State :=
  let newItem :=
    {| HistoryItem.id := JSON.number_chars (Date_now host 0);
       HistoryItem.originalInput := originalInput;
       HistoryItem.result := result;
       HistoryItem.timestamp := Date_now host 1 |} in
  set_history (newItem :: history s) s.

Definition handleSelectHistoryItem (item : HistoryItem.t) (s : State) : State :=
  set_isHistoryOpen false
    (set_conversionState
       {| ConversionState.isLoading := false;
          ConversionState.result := HistoryItem.result item;
          ConversionState.sources := [];
          ConversionState.error := None |}
       (set_inputText (HistoryItem.originalInput item) s)).

(** The updater [prev => prev.filter(item => item.id !== id)]. *)
Definition deleteHistoryItem (id : jsstring) (prev : list HistoryItem.t)
  : list HistoryItem.t :=
  filter (fun item => negb (str_eqb (HistoryItem.id item) id)) prev.

Definition handleDeleteHistoryItem (id : jsstring) (s : State) : State :=
  set_history (deleteHistoryItem id (history s)) s.

(** The claim's words: [after] is [before] without the entries whose id is
    [id]; every other entry stays, as it is and where it is. *)
Inductive RemovesExactly (id : jsstring)
  : list HistoryItem.t -> list HistoryItem.t -> Prop :=
| removes_nil : RemovesExactly id [] []
| removes_drop (item : HistoryItem.t) (before after : list HistoryItem.t) :
    HistoryItem.id item = id ->
    RemovesExactly id before after ->
    RemovesExactly id (item :: before) after
| removes_keep (item : HistoryItem.t) (before after : list HistoryItem.t) :
    HistoryItem.id item <> id ->
    RemovesExactly id before after ->
    RemovesExactly id (item :: before) (item :: after).

(** *** Conversion *)

(** [handleConvert]: the service catches every failure of its own and
    returns; what the hosted model throws is an [Error] carrying a message
    ([Web.Threw]), which the service's [catch] reads, so the handler's own
    [catch] is not entered. *)
Definition handleConvert (host : Host) (s : State) : State :=
  if trim_is_empty (inputText s) then s
  else
    let prev := conversionState s in
    let s1 :=
      set_conversionState
        {| ConversionState.isLoading := true;
           ConversionState.result := ConversionState.result prev;
           ConversionState.error := None;
           ConversionState.sources := ConversionState.sources prev |} s in
    let (answer, log) :=
      GeminiService.generateGoldenPrompt (generateContent host)
        (inputText s1) (useGrounding s1) in
    let s2 := emit_all log s1 in
    let data := GeminiService.data answer in
    let error := GeminiService.error answer in
    if truthy error || negb (JSON.truthy data) then
      let prev := conversionState s2 in
      set_conversionState
        {| ConversionState.isLoading := false;
           ConversionState.result := ConversionState.result prev;
           ConversionState.error := Some (or_else error (str "Failed to generate."));
           ConversionState.sources := ConversionState.sources prev |} s2
    else
      addToHistory host (inputText s2) data
        (set_conversionState
           {| ConversionState.isLoading := false;
              ConversionState.result := data;
              ConversionState.sources := GeminiService.sources answer;
              ConversionState.error := None |} s2).

(** The two ways a conversion ends, as the user and the history see them. *)
Definition ConvertFailed (s s' : State) (message : jsstring) : Prop :=
  history s' = history s
  /\ ConversionState.error (conversionState s') = Some message
  /\ ConversionState.result (conversionState s')
     = ConversionState.result (conversionState s).

Definition ConvertSucceeded (host : Host) (s s' : State) (data : JSON.value)
    (sources : list GroundingSource.t) : Prop :=
  history s'
  = {| HistoryItem.id := JSON.number_chars (Date_now host 0);
       HistoryItem.originalInput := inputText s;
       HistoryItem.result := data;
       HistoryItem.timestamp := Date_now host 1 |} :: history s
  /\ ConversionState.result (conversionState s') = data
  /\ ConversionState.sources (conversionState s') = sources
  /\ ConversionState.error (conversionState s') = None.

(** How [handleConvert] must end for a given answer of the hosted model. *)
Definition ConvertOutcome (host : Host) (s s' : State)
    (answer : Result GenerateContentResponse) : Prop :=
  match answer with
  | Threw message =>
      ConvertFailed s s' (or_else (Some message) (str "An unexpected error occurred."))
  | Returned response =>
      match Api.text response with
      | Some resultText =>
          if nonempty resultText then
            match JSON.parse resultText with
            | Some data =>
                if JSON.truthy data
                then ConvertSucceeded host s s' data
                       (GeminiService.extractSources (groundingChunks response))
                else ConvertFailed s s' (str "Failed to generate.")
            | None => ConvertFailed s s' (str "Failed to parse Golden Prompt.")
            end
          else ConvertFailed s s' (str "No response from Gemini")
      | None => ConvertFailed s s' (str "No response from Gemini")
      end
  end.

(** *** Persistence *)

Definition HISTORY_KEY : jsstring := str "suvarna-history".

Definition historyToJSON (h : list HistoryItem.t) : JSON.value :=
  JSON.JArray (map HistoryItem.toJSON h).

Fixpoint itemsFromJSON (l : list JSON.value) : option (list HistoryItem.t) :=
  match l with
  | [] => Some []
  | v :: l' =>
      match HistoryItem.fromJSON v, itemsFromJSON l' with
      | Some item, Some items => Some (item :: items)
      | _, _ => None
      end
  end.

(** The parsed text as a list of entries, when it is one. *)
Definition historyFromJSON (v : JSON.value) : option (list HistoryItem.t) :=
  match v with
  | JSON.JArray l => itemsFromJSON l
  | _ => None
  end.

(** The second effect: the whole collection is written under one key. *)
Definition persistHistory (s : State) : State :=
  set_localStorage
    (setItem HISTORY_KEY (JSON.stringify (historyToJSON (history s)))
       (localStorage s)) s.

(** The state of the first render. *)
Definition initialState (storage : Storage) : State :=
  {| inputText := [];
     useGrounding := false;
     conversionState :=
       {| ConversionState.isLoading := false;
          ConversionState.result := JSON.JNull;
          ConversionState.error := None;
          ConversionState.sources := [] |};
     history := [];
     isHistoryOpen := false;
     isRecording := false;
     audioContextRef := None;
     streamRef := None;
     processorRef := None;
     sourceRef := None;
     currentTranscriptionRef := [];
     sessionPromise := None;
     localStorage := storage;
     trace := [] |}.

(** What the two effects leave when the component mounts. *)
Inductive Mounted : Type :=
| Loaded (s : State)
| Foreign (installed : JSON.value) (s : State).

(** Mounting: the first effect reads the saved text and queues
    [setHistory(JSON.parse(saved))]; the second effect runs in the same
    commit with the initial, empty history, and writes it. The component
    then renders the queued value. When that is a list of entries whose
    cards the drawer draws, the second effect runs again for the new
    history ([Loaded]). When one of the cards throws, the render ends there
    and nothing more is written. Any other value is installed all the same,
    though the history cell is declared [HistoryItem[]], and the typed
    state does not follow the component further. [Foreign] carries the
    value of these two cases with the state of the first commit. *)
Definition mountEffects (storage : Storage) : Mounted :=
  let s0 := initialState storage in
  let saved := getItem HISTORY_KEY (localStorage s0) in
  let s1 := persistHistory s0 in
  match saved with
  | Some savedHistory =>
      if nonempty savedHistory then
        match JSON.parse savedHistory with
        | Some parsed =>
            match historyFromJSON parsed with
            | Some h =>
                if forallb HistoryItem.cardRenders h
                then Loaded (persistHistory (set_history h s1))
                else Foreign parsed s1
            | None => Foreign parsed s1
            end
        | None =>
            Loaded (emit (ConsoleError (str "Failed to parse history")
                            (str "SyntaxError")) s1)
        end
      else Loaded s1
  | None => Loaded s1
  end.

(** The state after mounting, when the component stands with a list of
    entries in the history cell. *)
Definition mount (storage : Storage) : option State :=
  match mountEffects storage with
  | Loaded s => Some s
  | Foreign _ _ => None
  end.

End App.

(** ** [components/ChatBot.tsx] *)

Module ChatBot.
Import JS Web Api.

(** The component's state; the user sees [messages], [input] and the
    loading indicator, never the console. *)
Record State : Type := {
  isOpen : bool;
  input : jsstring;
  messages : list ChatMessage.t;
  isLoading : bool;
  trace : list Effect
}.

Record Host : Type := {
  sendMessage : list Content -> jsstring -> Result (option jsstring);
  Date_now : nat -> Z
}.

Definition NO_RESPONSE : jsstring := str "I couldn't generate a response.".

(** The message built from the input field. *)
Definition userMessage (host : Host) (s : State) : ChatMessage.t :=
  {| ChatMessage.id := JSON.number_chars (Date_now host 0);
     ChatMessage.role := ChatMessage.user;
     ChatMessage.text := input s;
     ChatMessage.timestamp := Date_now host 1 |}.

(** Format history for API: the messages of the render the handler closed
    over, without the new one. *)
Definition formatHistory (messages : list ChatMessage.t) : list Content :=
  map (fun m => {| role := ChatMessage.role m; parts := [ChatMessage.text m] |})
      messages.

Definition handleSend (host : Host) (s : State) : State :=
  if trim_is_empty (input s) || isLoading s then s
  else
    let userMsg := userMessage host s in
    let messages1 := messages s ++ [userMsg] in
    let history := formatHistory (messages s) in
    let (response, calls) :=
      GeminiService.sendChatMessage (sendMessage host) history (ChatMessage.text userMsg) in
    match response with
    | Returned responseText =>
        let botMsg :=
          {| ChatMessage.id := JSON.number_chars (Date_now host 2 + 1);
             ChatMessage.role := ChatMessage.model;
             ChatMessage.text := or_else responseText NO_RESPONSE;
             ChatMessage.timestamp := Date_now host 3 |} in
        {| isOpen := isOpen s; input := []; messages := messages1 ++ [botMsg];
           isLoading := false; trace := trace s ++ calls |}
    | Threw error =>
        (* catch: console.error("Chat error", error); finally: loading off *)
        {| isOpen := isOpen s; input := []; messages := messages1;
           isLoading := false;
           trace := trace s ++ calls ++ [ConsoleError (str "Chat error") error] |}
    end.

(** What the chat window renders of a state: the bubbles' texts, the
    input field and the loading dots. *)
Definition rendered (s : State) : list jsstring * jsstring * bool :=
  (map ChatMessage.text (messages s), input s, isLoading s).

End ChatBot.

(** ** [components/GoldenCard.tsx] *)

Module GoldenCard.
Import JS.

Definition ENHANCEMENT_CHIPS : list (jsstring * jsstring) :=
  [(str "4K Resolution", str " in 4K resolution, highly detailed");
   (str "Photorealistic", str ", photorealistic style, cinematic lighting");
   (str "Professional Tone", str " (rewritten in a formal, professional tone)");
   (str "Cyberpunk", str ", cyberpunk aesthetic, neon lights, high contrast");
   (str "JSON Format", str " Format output as JSON.");
   (str "Minimalist", str ", minimalist style, clean lines, white background")].

(** [s.endsWith(searchString)]: the code units of [s] from position
    [length s - length searchString] are those of [searchString]. *)
Definition endsWith (s searchString : jsstring) : bool :=
  let start := Z.of_nat (length s) - Z.of_nat (length searchString) in
  if start <? 0 then false
  else str_eqb (skipn (Z.to_nat start) s) searchString.

(** The updater [handleEnhance] passes to [setCurrentPrompt]. *)
Definition handleEnhance (textToAdd : jsstring) (prev : jsstring) : jsstring :=
  if endsWith prev textToAdd then prev else prev ++ textToAdd.

End GoldenCard.

(** ** Concrete hosts and states used by the examples below *)

Module Scenario.
Import JS Web Api App.

Definition microphone : MediaStream := {| getTracks := [{| trackId := 1 |}] |}.
Definition context : AudioContext := {| contextId := 1 |}.
Definition sourceNode : AudioNode := {| nodeId := 1 |}.
Definition processorNode : AudioNode := {| nodeId := 2 |}.

Definition emptyStorage : Storage := fun _ => None.

(** A clock: the readings of one handler, a millisecond apart. *)
Definition clock (n : nat) : TimeValue :=
  match n with
  | O => {| milliseconds := 1700000000000; time_clip := eq_refl |}
  | S O => {| milliseconds := 1700000000001; time_clip := eq_refl |}
  | _ => {| milliseconds := 1700000000002; time_clip := eq_refl |}
  end.

(** A host on which everything succeeds. *)
Definition quietHost : Host :=
  {| getUserMedia := Returned microphone;
     newAudioContext := Returned context;
     createMediaStreamSource := Returned sourceNode;
     createScriptProcessor := Returned processorNode;
     connectToLiveSession := Returned {| sessionId := 1 |};
     sourceConnect := Returned tt;
     processorConnect := Returned tt;
     releaseThrows := fun _ => None;
     generateContent := fun _ => Threw (str "offline");
     Date_now := clock;
     byteOrder := LittleEndian |}.

(** The user refuses the microphone. *)
Definition deniedHost : Host :=
  {| getUserMedia := Threw (str "NotAllowedError");
     newAudioContext := newAudioContext quietHost;
     createMediaStreamSource := createMediaStreamSource quietHost;
     createScriptProcessor := createScriptProcessor quietHost;
     connectToLiveSession := connectToLiveSession quietHost;
     sourceConnect := sourceConnect quietHost;
     processorConnect := processorConnect quietHost;
     releaseThrows := releaseThrows quietHost;
     generateContent := generateContent quietHost;
     Date_now := Date_now quietHost;
     byteOrder := byteOrder quietHost |}.

(** The microphone is granted; the live session cannot be opened, so the
    promise of [connectToLiveSession] is rejected. *)
Definition sessionRefusedHost : Host :=
  {| getUserMedia := getUserMedia quietHost;
     newAudioContext := newAudioContext quietHost;
     createMediaStreamSource := createMediaStreamSource quietHost;
     createScriptProcessor := createScriptProcessor quietHost;
     connectToLiveSession := Threw (str "WebSocket connection failed");
     sourceConnect := sourceConnect quietHost;
     processorConnect := processorConnect quietHost;
     releaseThrows := releaseThrows quietHost;
     generateContent := generateContent quietHost;
     Date_now := Date_now quietHost;
     byteOrder := byteOrder quietHost |}.


Definition idle : State := initialState emptyStorage.

(** A recording turn in progress: the four resources are held. *)
Definition recording : State :=
  set_isRecording true
    (set_processorRef (Some processorNode)
       (set_sourceRef (Some sourceNode)
          (set_audioContextRef (Some context)
             (set_streamRef (Some microphone) idle)))).

(** The spec's end-to-end input, typed with grounding disabled. *)
Definition typedIdea : State :=
  set_inputText (str "Oka pilla akasamlo egurutundi") idle.

Definition kite : GoldenResult.t :=
  {| GoldenResult.originalTranslation := str "A child is flying in the sky";
     GoldenResult.goldenPrompt := str "A child soaring through a luminous sky";
     GoldenResult.category := str "Image Generation";
     GoldenResult.reasoning := str "Added light and motion." |}.

(** A host whose model answers with the text of [kite]. *)
Definition answeringHost : Host :=
  {| getUserMedia := getUserMedia quietHost;
     newAudioContext := newAudioContext quietHost;
     createMediaStreamSource := createMediaStreamSource quietHost;
     createScriptProcessor := createScriptProcessor quietHost;
     connectToLiveSession := connectToLiveSession quietHost;
     sourceConnect := sourceConnect quietHost;
     processorConnect := processorConnect quietHost;
     releaseThrows := releaseThrows quietHost;
     generateContent := fun _ =>
       Returned {| Api.text := Some (JSON.stringify (GoldenResult.toJSON kite));
                   groundingChunks := None |};
     Date_now := Date_now quietHost;
     byteOrder := byteOrder quietHost |}.

(** A state whose history holds one past conversion. *)
Definition withHistory : State :=
  set_history
    [{| HistoryItem.id := str "1700000000000";
        HistoryItem.originalInput := str "Oka pilla akasamlo egurutundi";
        HistoryItem.result := GoldenResult.toJSON kite;
        HistoryItem.timestamp := 1700000000001 |}] idle.

(** The chat window with [hi] typed, and a chat service that fails. *)
Definition typedHi : ChatBot.State :=
  {| ChatBot.isOpen := true; ChatBot.input := str "hi"; ChatBot.messages := [];
     ChatBot.isLoading := false; ChatBot.trace := [] |}.

Definition failingChat : ChatBot.Host :=
  {| ChatBot.sendMessage := fun _ _ => Threw (str "quota exceeded");
     ChatBot.Date_now := fun n => 1700000000000 + Z.of_nat n |}.

End Scenario.

(** ** Further definitions over [src/App.tsx] *)

Module LiveSession.
Import JS Web Api App.

(** The message has a truthy [serverContent.inputTranscription.text]. *)
Definition carriesFragment (message : LiveServerMessage) : bool :=
  match serverContent message with
  | Some content =>
      match inputTranscription content with
      | Some transcription => truthy (text transcription)
      | None => false
      end
  | None => false
  end.

End LiveSession.

Module Samples.
Import JS.

(** Unary minus on a number. *)
Definition negate (x : number) : number :=
  match x with
  | NaN => NaN
  | Infinity negative => Infinity (negb negative)
  | Finite q => Finite (- q)
  end.

End Samples.

(** ** [services/geminiService.ts]: the preview call, and the debounced
    effect of [src/App.tsx] that uses it *)

Module Preview.
Import JS Web.

(** The request of [quickPreview]; [temperature] is 0.3. *)
Record PreviewParameters : Type := {
  model : jsstring;
  contents : jsstring;
  maxOutputTokens : Z;
  temperature : Q
}.

(** The template literal: the input stands between two double quotes
    (code unit 34), as typed. *)
Definition previewRequest (input : jsstring) : PreviewParameters :=
  {| model := str "gemini-2.5-flash-lite-latest";
     contents :=
       str "Translate this text (Telugu, Hindi, or English) to English concisely: "
       ++ [34] ++ input ++ [34];
     maxOutputTokens := 50;
     temperature := 3 # 10 |}.

(** [quickPreview(input)]: [response.text || ""], and [""] when the call
    throws. The host answers with the response's text, or throws. *)
Definition quickPreview
    (generateContent : PreviewParameters -> Result (option jsstring))
    (input : jsstring) : jsstring :=
  match generateContent (previewRequest input) with
  | Returned text => or_else text []
  | Threw _ => []
  end.

(** The body of the timer the debounced effect sets: the new content of
    the preview cell, and the requests made. *)
Definition previewTimer
    (generateContent : PreviewParameters -> Result (option jsstring))
    (inputText : jsstring) (isLoading : bool) (previewTranslation : jsstring)
  : jsstring * list PreviewParameters :=
  if (5 <? Z.of_nat (length inputText)) && negb isLoading then
    (quickPreview generateContent inputText, [previewRequest inputText])
  else if Z.of_nat (length inputText) =? 0 then ([], [])
  else (previewTranslation, []).

End Preview.

(** ** [components/HistoryDrawer.tsx] *)

Module HistoryDrawer.
Import JS Web.

(** [s.startsWith(prefix)] and [s.includes(sub)], code unit by code unit. *)
Fixpoint startsWith (s prefix : jsstring) : bool :=
  match prefix, s with
  | [], _ => true
  | p :: prefix', c :: s' => (c =? p) && startsWith s' prefix'
  | _ :: _, [] => false
  end.

Fixpoint includes (s sub : jsstring) : bool :=
  startsWith s sub
  || match s with
     | [] => false
     | _ :: s' => includes s' sub
     end.

Section Drawer.

(** [String.prototype.toLowerCase], the Unicode case mapping of the host. *)
Variable toLowerCase : jsstring -> jsstring.

(** [item.result.goldenPrompt] as a string; [None] is the TypeError of
    calling [toLowerCase] on something else. *)
Definition goldenPromptOf (item : HistoryItem.t) : option jsstring :=
  match JSON.get (str "goldenPrompt") (HistoryItem.result item) with
  | Some (JSON.JString prompt) => Some prompt
  | _ => None
  end.

(** The filter's predicate; [||] does not look at the prompt when the input
    already matches. *)
Definition matchesSearch (searchTerm : jsstring) (item : HistoryItem.t)
  : option bool :=
  if includes (toLowerCase (HistoryItem.originalInput item)) (toLowerCase searchTerm)
  then Some true
  else
    match goldenPromptOf item with
    | Some prompt => Some (includes (toLowerCase prompt) (toLowerCase searchTerm))
    | None => None
    end.

(** [history.filter(...)]: a predicate that throws ends the render. *)
Fixpoint filterMatching (searchTerm : jsstring) (history : list HistoryItem.t)
  : option (list HistoryItem.t) :=
  match history with
  | [] => Some []
  | item :: rest =>
      match matchesSearch searchTerm item, filterMatching searchTerm rest with
      | Some keep, Some kept => Some (if keep then item :: kept else kept)
      | _, _ => None
      end
  end.

(** [.sort((a, b) => b.timestamp - a.timestamp)]: the sort is stable, so
    its result is the one insertion gives: an entry goes after the entries
    with a later timestamp and before the others. *)
Fixpoint insertByTimestamp (item : HistoryItem.t) (sorted : list HistoryItem.t)
  : list HistoryItem.t :=
  match sorted with
  | [] => [item]
  | other :: rest =>
      if HistoryItem.timestamp item <? HistoryItem.timestamp other
      then other :: insertByTimestamp item rest
      else item :: sorted
  end.

Definition sortNewestFirst (items : list HistoryItem.t) : list HistoryItem.t :=
  fold_right insertByTimestamp [] items.

Definition filteredHistory (searchTerm : jsstring) (history : list HistoryItem.t)
  : option (list HistoryItem.t) :=
  option_map sortNewestFirst (filterMatching searchTerm history).

End Drawer.

(** A lower-casing of the ASCII letters, for the examples. *)
Definition asciiLowerCase (s : jsstring) : jsstring :=
  map (fun c => if (65 <=? c) && (c <=? 90) then c + 32 else c) s.

End HistoryDrawer.

(** ** More concrete inputs *)

Module Cases.
Import JS Web Api App Scenario.

(** A store whose saved history is not JSON. *)
Definition corruptStorage : Storage :=
  setItem HISTORY_KEY (str "{oops") emptyStorage.

(** A chat service that answers. *)
Definition answeringChat : ChatBot.Host :=
  {| ChatBot.sendMessage := fun _ _ => Returned (Some (str "namaste"));
     ChatBot.Date_now := fun n => 1700000000000 + Z.of_nat n |}.

Definition older : HistoryItem.t :=
  {| HistoryItem.id := str "1";
     HistoryItem.originalInput := str "Oka Robot";
     HistoryItem.result := GoldenResult.toJSON kite;
     HistoryItem.timestamp := 1 |}.

Definition newer : HistoryItem.t :=
  {| HistoryItem.id := str "2";
     HistoryItem.originalInput := str "Ek city";
     HistoryItem.result := GoldenResult.toJSON kite;
     HistoryItem.timestamp := 2 |}.

End Cases.

(* ================================================================== *)
(** * Part II. Properties *)
(* ================================================================== *)

Import JS.

(** ** Base64 *)

Section Base64Facts.
Import Base64.

Lemma sextets_spec (i : Z) : 0 <= i < 64 -> In i sextets.
Proof.
  intros Hi. unfold sextets. apply in_map_iff.
  exists (Z.to_nat i). split; [lia|]. apply in_seq. lia.
Qed.

Lemma b64_index_char (i : Z) :
  0 <= i < 64 -> b64_index (b64_char i) = Some i /\ b64_char i <> pad.
Proof.
  intros Hi.
  assert (Hall : forallb (fun j =>
            match b64_index (b64_char j) with
            | Some k => (k =? j) && negb (b64_char j =? pad)
            | None => false
            end) sextets = true) by (vm_compute; reflexivity).
  rewrite forallb_forall in Hall.
  specialize (Hall i (sextets_spec i Hi)).
  destruct (b64_index (b64_char i)) as [k|]; [|discriminate].
  apply andb_true_iff in Hall. destruct Hall as [Hk Hp].
  apply Z.eqb_eq in Hk. apply negb_true_iff, Z.eqb_neq in Hp.
  subst k. split; [reflexivity|assumption].
Qed.

Lemma list_ind3 (A : Type) (P : list A -> Prop) :
  P [] -> (forall a, P [a]) -> (forall a b, P [a; b]) ->
  (forall a b c l, P l -> P (a :: b :: c :: l)) ->
  forall l, P l.
Proof.
  intros H0 H1 H2 H3. fix IH 1.
  intros [|a [|b [|c l]]]; [exact H0|apply H1|apply H2|apply H3, IH].
Qed.

Lemma is_byte_spec (c : Z) : is_byte c = true <-> 0 <= c < 256.
Proof. unfold is_byte. rewrite andb_true_iff, Z.leb_le, Z.leb_le. lia. Qed.

(** The four 6-bit groups of a 24-bit group, and back. *)
Lemma group24_sextets (n : Z) :
  0 <= n < 16777216 ->
  0 <= n / 262144 < 64 /\ 0 <= n / 4096 mod 64 < 64 /\
  0 <= n / 64 mod 64 < 64 /\ 0 <= n mod 64 < 64 /\
  n / 262144 * 262144 + n / 4096 mod 64 * 4096 + n / 64 mod 64 * 64 + n mod 64 = n.
Proof. intros Hn. repeat split; Z.div_mod_to_equations; lia. Qed.

Lemma group24_bytes (a b c : Z) :
  0 <= a < 256 -> 0 <= b < 256 -> 0 <= c < 256 ->
  let n := a * 65536 + b * 256 + c in
  0 <= n < 16777216 /\ n / 65536 = a /\ n / 256 mod 256 = b /\ n mod 256 = c.
Proof. intros Ha Hb Hc n. subst n. repeat split; Z.div_mod_to_equations; lia. Qed.

Lemma decode_pad_head (c0 c1 c2 c3 : Z) (rest : jsstring) (s0 s1 s2 s3 : Z) :
  b64_index c0 = Some s0 -> b64_index c1 = Some s1 ->
  b64_index c2 = Some s2 -> b64_index c3 = Some s3 ->
  c2 <> pad -> c3 <> pad ->
  decode (c0 :: c1 :: c2 :: c3 :: rest) =
  match decode rest with
  | Some bytes =>
      let m := s0 * 262144 + s1 * 4096 + s2 * 64 + s3 in
      Some (m / 65536 :: m / 256 mod 256 :: m mod 256 :: bytes)
  | None => None
  end.
Proof.
  intros E0 E1 E2 E3 P2 P3. simpl. rewrite E0, E1, E2, E3.
  apply Z.eqb_neq in P2, P3. rewrite P2, P3. simpl.
  destruct (decode rest); reflexivity.
Qed.

(** Decoding inverts encoding on every byte sequence. *)
Lemma decode_encode (bs : list Z) :
  forallb is_byte bs = true -> decode (encode bs) = Some bs.
Proof.
  induction bs as [|a|a b|a b c l IH] using list_ind3; intros Hb.
  - reflexivity.
  - simpl in Hb. rewrite andb_true_r in Hb. apply is_byte_spec in Hb.
    destruct (group24_bytes a 0 0 Hb) as (Hn & Ha & _ & _); [lia|lia|].
    replace (a * 65536 + 0 * 256 + 0) with (a * 65536) in * by lia.
    destruct (group24_sextets _ Hn) as (R0 & R1 & _ & _ & Hsum).
    destruct (b64_index_char _ R0) as [E0 _].
    destruct (b64_index_char _ R1) as [E1 _].
    cbn [encode decode]. rewrite E0, E1. rewrite Z.eqb_refl. cbn [andb].
    f_equal. f_equal. Z.div_mod_to_equations; lia.
  - simpl in Hb. rewrite andb_true_r in Hb. apply andb_true_iff in Hb.
    destruct Hb as [Ha Hb]. apply is_byte_spec in Ha, Hb.
    destruct (group24_bytes a b 0 Ha Hb) as (Hn & Ea & Eb & _); [lia|].
    replace (a * 65536 + b * 256 + 0) with (a * 65536 + b * 256) in * by lia.
    destruct (group24_sextets _ Hn) as (R0 & R1 & R2 & _ & Hsum).
    destruct (b64_index_char _ R0) as [E0 _].
    destruct (b64_index_char _ R1) as [E1 _].
    destruct (b64_index_char _ R2) as [E2 P2].
    cbn [encode decode]. rewrite E0, E1, E2.
    apply Z.eqb_neq in P2. rewrite P2, Z.eqb_refl. cbn [andb].
    set (n := a * 65536 + b * 256) in *.
    assert (Hm : n / 262144 * 262144 + n / 4096 mod 64 * 4096 + n / 64 mod 64 * 64
                 = n - n mod 64) by lia.
    rewrite Hm. f_equal. f_equal; [|f_equal].
    + Z.div_mod_to_equations; lia.
    + Z.div_mod_to_equations; lia.
  - simpl in Hb. apply andb_true_iff in Hb. destruct Hb as [Ha Hb].
    apply andb_true_iff in Hb. destruct Hb as [Hb Hc].
    apply andb_true_iff in Hc. destruct Hc as [Hc Hl].
    apply is_byte_spec in Ha, Hb, Hc.
    destruct (group24_bytes a b c Ha Hb Hc) as (Hn & Ea & Eb & Ec).
    destruct (group24_sextets _ Hn) as (R0 & R1 & R2 & R3 & Hsum).
    destruct (b64_index_char _ R0) as [E0 _].
    destruct (b64_index_char _ R1) as [E1 _].
    destruct (b64_index_char _ R2) as [E2 P2].
    destruct (b64_index_char _ R3) as [E3 P3].
    cbn [encode].
    rewrite (decode_pad_head _ _ _ _ _ _ _ _ _ E0 E1 E2 E3 P2 P3).
    rewrite (IH Hl). cbv zeta. rewrite Hsum, Ea, Eb, Ec. reflexivity.
Qed.

Lemma encode_length (bs : list Z) :
  length (encode bs) = (4 * ((length bs + 2) / 3))%nat.
Proof.
  induction bs as [|a|a b|a b c l IH] using list_ind3; try reflexivity.
  cbn [encode length]. rewrite IH.
  replace (S (S (S (length l))) + 2)%nat with (1 * 3 + (length l + 2))%nat by lia.
  rewrite Nat.div_add_l by lia. lia.
Qed.

End Base64Facts.

(** ** The PCM encoder *)

Section PCMFacts.
Import PCM.

Lemma binary_of_map (uint8 : list Z) : binary_of uint8 = map fromCharCode uint8.
Proof.
  unfold binary_of.
  assert (H : forall acc, fold_left (fun binary b => binary ++ [fromCharCode b]) uint8 acc
                          = acc ++ map fromCharCode uint8).
  { induction uint8 as [|b l IH]; intros acc; simpl.
    - now rewrite app_nil_r.
    - rewrite IH, <- app_assoc. reflexivity. }
  apply H.
Qed.

Lemma int16_bytes_range (bo : ByteOrder) (v : Z) :
  Forall (fun b => 0 <= b < 256) (int16_bytes bo v).
Proof.
  unfold int16_bytes. destruct bo; repeat constructor; Z.div_mod_to_equations; lia.
Qed.

Lemma Uint8Array_range (bo : ByteOrder) (int16 : list Z) :
  Forall (fun b => 0 <= b < 256) (Uint8Array_of_buffer bo int16).
Proof.
  unfold Uint8Array_of_buffer. induction int16 as [|v l IH]; simpl.
  - constructor.
  - apply Forall_app. split; [apply int16_bytes_range|exact IH].
Qed.

Lemma Uint8Array_length (bo : ByteOrder) (int16 : list Z) :
  length (Uint8Array_of_buffer bo int16) = (2 * length int16)%nat.
Proof.
  unfold Uint8Array_of_buffer. induction int16 as [|v l IH]; simpl; [reflexivity|].
  rewrite length_app, IH. destruct bo; simpl; lia.
Qed.

Lemma binary_of_bytes (uint8 : list Z) :
  Forall (fun b => 0 <= b < 256) uint8 ->
  binary_of uint8 = uint8 /\ forallb Base64.is_byte uint8 = true.
Proof.
  intros H. rewrite binary_of_map. induction H as [|b l Hb Hl [IH1 IH2]]; simpl.
  - split; reflexivity.
  - rewrite IH1, IH2. split.
    + f_equal. unfold fromCharCode. apply Z.mod_small. lia.
    + rewrite andb_true_r. apply is_byte_spec. exact Hb.
Qed.

Lemma quot_scaled_nonneg (n d : Z) :
  0 < d -> 0 <= n <= d -> 0 <= Z.quot (n * 32767) d <= 32767.
Proof.
  intros Hd Hn. rewrite Z.quot_div_nonneg by lia. split.
  - apply Z.div_pos; lia.
  - apply Z.div_le_upper_bound; lia.
Qed.

Lemma quot_scaled_bound (n d : Z) :
  0 < d -> - d <= n <= d -> -32767 <= Z.quot (n * 32767) d <= 32767.
Proof.
  intros Hd Hn.
  destruct (Z_le_gt_dec 0 n) as [Hpos|Hneg].
  - pose proof (quot_scaled_nonneg n d Hd ltac:(lia)). lia.
  - pose proof (quot_scaled_nonneg (- n) d Hd ltac:(lia)) as H.
    replace (n * 32767) with (- (- n * 32767)) by lia.
    rewrite Z.quot_opp_l by lia. lia.
Qed.

Lemma ToInt16_small (q : Q) :
  -32768 <= truncate q <= 32767 -> ToInt16 (Finite q) = truncate q.
Proof.
  intros H. unfold ToInt16. cbv zeta.
  destruct (Z_le_gt_dec 0 (truncate q)) as [Hpos|Hneg].
  - rewrite Z.mod_small by lia.
    destruct (Z.leb_spec 32768 (truncate q)); [lia|reflexivity].
  - replace (truncate q mod 65536) with (truncate q + 65536).
    + destruct (Z.leb_spec 32768 (truncate q + 65536)); lia.
    + apply Z.mod_unique with (q := -1); lia.
Qed.

Lemma truncate_scaled (q : Q) :
  (Qnum q < Z.pos (Qden q)) -> (- Z.pos (Qden q) < Qnum q) ->
  -32767 <= truncate (q * 32767) <= 32767.
Proof.
  intros H1 H2. unfold truncate. destruct q as [n d]. simpl in *.
  rewrite Pos.mul_1_r. apply quot_scaled_bound; lia.
Qed.

(** C1. For every audio frame of length N, [createBlob] returns a chunk (it
    never throws) tagged ['audio/pcm;rate=16000'] whose base64 [data] decodes
    to exactly the 2N bytes of the Int16Array buffer. *)
Theorem createBlob_payload_roundtrip (bo : ByteOrder) (frame : list number) :
  exists blob : GeminiBlob,
    createBlob bo frame = Some blob /\
    mimeType blob = str "audio/pcm;rate=16000" /\
    Base64.btoa (Uint8Array_of_buffer bo (Int16Array_from frame)) = Some (data blob) /\
    Base64.decode (data blob)
      = Some (Uint8Array_of_buffer bo (Int16Array_from frame)) /\
    length (Uint8Array_of_buffer bo (Int16Array_from frame))
      = (2 * length frame)%nat.
Proof.
  set (uint8 := Uint8Array_of_buffer bo (Int16Array_from frame)).
  destruct (binary_of_bytes uint8 (Uint8Array_range bo _)) as [Hbin Hbytes].
  exists {| data := Base64.encode uint8; mimeType := str "audio/pcm;rate=16000" |}.
  assert (Hbtoa : Base64.btoa uint8 = Some (Base64.encode uint8)).
  { unfold Base64.btoa. now rewrite Hbytes. }
  repeat split.
  - unfold createBlob. fold uint8. rewrite Hbin, Hbtoa. reflexivity.
  - exact Hbtoa.
  - cbn [data]. apply decode_encode, Hbytes.
  - unfold uint8, Int16Array_from. rewrite Uint8Array_length, length_map. reflexivity.
Qed.

(** The integer stored for one sample: it lies in [-32767, 32767] and is
    the truncation itself (the reduction modulo 2^16 of the Int16Array
    store changes nothing); the clamp brings every sample but NaN into
    [-1, 1]. *)
Lemma sample_to_int16_value (x : number) :
  let v := sample_to_int16 x in
  -32767 <= v <= 32767 /\
  v = match x with
      | NaN => 0
      | Infinity negative => if negative then -32767 else 32767
      | Finite q =>
          if Qle_bool 1 q then 32767
          else if Qle_bool q (-1) then -32767
          else truncate (q * 32767)
      end /\
  match x with
  | NaN => clamp x = NaN
  | _ => exists q, clamp x = Finite q /\ (-1 <= q <= 1)%Q
  end /\
  exists lo hi : Z,
    int16_bytes LittleEndian v = [lo; hi] /\
    0 <= lo < 256 /\ 0 <= hi < 256 /\
    lo + 256 * hi = (if v <? 0 then v + 65536 else v).
Proof.
  cbv zeta.
  assert (Hval : sample_to_int16 x =
                 match x with
                 | NaN => 0
                 | Infinity negative => if negative then -32767 else 32767
                 | Finite q =>
                     if Qle_bool 1 q then 32767
                     else if Qle_bool q (-1) then -32767
                     else truncate (q * 32767)
                 end).
  { destruct x as [|[|]|q]; try reflexivity.
    unfold sample_to_int16, clamp. cbn [Math_min].
    destruct (Qle_bool 1 q) eqn:H1; [reflexivity|].
    cbn [Math_max]. destruct (Qle_bool q (-1)) eqn:H2; [reflexivity|].
    cbn [mul]. apply ToInt16_small.
    unfold Qle_bool in H1, H2. cbn in H1, H2.
    apply Z.leb_gt in H1, H2.
    pose proof (truncate_scaled q ltac:(lia) ltac:(lia)). lia. }
  assert (Hrange : -32767 <= sample_to_int16 x <= 32767).
  { rewrite Hval. destruct x as [|[|]|q]; try lia.
    destruct (Qle_bool 1 q) eqn:H1; [lia|].
    destruct (Qle_bool q (-1)) eqn:H2; [lia|].
    unfold Qle_bool in H1, H2. cbn in H1, H2.
    apply Z.leb_gt in H1, H2.
    apply truncate_scaled; lia. }
  split; [exact Hrange|]. split; [exact Hval|]. split.
  - destruct x as [|[|]|q]; [reflexivity| | |].
    + exists (-1)%Q. split; [reflexivity|]. split; discriminate.
    + exists 1%Q. split; [reflexivity|]. split; discriminate.
    + unfold clamp. cbn [Math_min].
      destruct (Qle_bool 1 q) eqn:H1.
      * exists 1%Q. split; [reflexivity|]. split; discriminate.
      * cbn [Math_max]. destruct (Qle_bool q (-1)) eqn:H2.
        -- exists (-1)%Q. split; [reflexivity|]. split; discriminate.
        -- exists q. split; [reflexivity|].
           unfold Qle_bool in H1, H2. unfold Qle. cbn in *.
           apply Z.leb_gt in H1, H2. lia.
  - set (v := sample_to_int16 x) in *.
    exists ((v mod 65536) mod 256), ((v mod 65536) / 256).
    split; [reflexivity|].
    destruct (Z.ltb_spec v 0); repeat split; Z.div_mod_to_equations; lia.
Qed.

Lemma sample_to_int16_clamped_int16 (x : number) :
  sample_to_int16 x = clamped_int16 x /\ -32767 <= clamped_int16 x <= 32767.
Proof.
  destruct (sample_to_int16_value x) as (Hrange & Hval & _).
  assert (E : sample_to_int16 x = clamped_int16 x).
  { rewrite Hval. destruct x as [|[|]|q]; try reflexivity.
    cbn [clamped_int16].
    destruct (Qle_bool 1 q); [reflexivity|].
    destruct (Qle_bool q (-1)); reflexivity. }
  split; [exact E|]. rewrite <- E. exact Hrange.
Qed.

Lemma int16_bytes_packed (bo : ByteOrder) (v : Z) :
  -32768 <= v <= 32767 -> int16_bytes bo v = packed bo v.
Proof.
  intros Hv. unfold int16_bytes, packed. cbv zeta.
  replace (v mod 65536) with (if v <? 0 then v + 65536 else v); [reflexivity|].
  destruct (Z.ltb_spec v 0).
  - apply Z.mod_unique with (q := -1); lia.
  - symmetry. apply Z.mod_small. lia.
Qed.

Lemma Uint8Array_packed (bo : ByteOrder) (frame : list number) :
  Uint8Array_of_buffer bo (Int16Array_from frame)
  = flat_map (fun x => packed bo (clamped_int16 x)) frame.
Proof.
  unfold Uint8Array_of_buffer, Int16Array_from.
  induction frame as [|x frame IH]; [reflexivity|].
  cbn [map flat_map]. rewrite IH.
  destruct (sample_to_int16_clamped_int16 x) as [E Hrange].
  rewrite E, int16_bytes_packed by lia. reflexivity.
Qed.

(** C2 (amended). For every block and either byte order of the host,
    [createBlob] returns a chunk whose data decodes to the samples' 16-bit
    integers, one after the other, each laid out in the byte order of the
    host: low byte first on a little-endian host, high byte first on a
    big-endian one. The integer of a sample is the sample clamped to
    [-1, 1], multiplied by 32767 and truncated, with 0 for NaN; it lies in
    [-32767, 32767] and the store into the Int16Array changes nothing of it
    (no wraparound). The clamp of the source gives a value in [-1, 1] for
    every sample but NaN, which it leaves as NaN. *)
Theorem createBlob_clamps_then_packs (bo : ByteOrder) (frame : list number) :
  (exists blob : GeminiBlob,
     createBlob bo frame = Some blob
     /\ Base64.decode (data blob)
        = Some (flat_map (fun x => packed bo (clamped_int16 x)) frame))
  /\ (forall x : number,
        -32767 <= clamped_int16 x <= 32767
        /\ ToInt16 (mul (clamp x) (Finite 32767)) = clamped_int16 x
        /\ match x with
           | NaN => clamp x = NaN
           | _ => exists q, clamp x = Finite q /\ (-1 <= q <= 1)%Q
           end)
  /\ (forall v : Z, -32768 <= v <= 32767 ->
        exists lo hi : Z,
          0 <= lo < 256 /\ 0 <= hi < 256
          /\ lo + 256 * hi = (if v <? 0 then v + 65536 else v)
          /\ packed LittleEndian v = [lo; hi]
          /\ packed BigEndian v = [hi; lo]).
Proof.
  split; [|split].
  - set (uint8 := Uint8Array_of_buffer bo (Int16Array_from frame)).
    destruct (binary_of_bytes uint8 (Uint8Array_range bo _)) as [Hbin Hbytes].
    exists {| data := Base64.encode uint8; mimeType := str "audio/pcm;rate=16000" |}.
    split.
    + unfold createBlob. fold uint8. rewrite Hbin. unfold Base64.btoa.
      rewrite Hbytes. reflexivity.
    + cbn [data]. rewrite decode_encode by exact Hbytes.
      unfold uint8. rewrite Uint8Array_packed. reflexivity.
  - intros x. destruct (sample_to_int16_clamped_int16 x) as [E Hrange].
    destruct (sample_to_int16_value x) as (_ & _ & Hclamp & _).
    split; [exact Hrange|]. split; [exact E|exact Hclamp].
  - intros v Hv. set (u := if v <? 0 then v + 65536 else v).
    exists (u mod 256), (u / 256).
    assert (Hu : 0 <= u < 65536) by (unfold u; destruct (Z.ltb_spec v 0); lia).
    repeat split; try (Z.div_mod_to_equations; lia).
Qed.

(** C2, as stated, fails on a big-endian host: the bytes of the chunk are
    those of the Int16Array buffer in the byte order of the host, so the
    sample 1 (the integer 32767) is sent high byte first, 7f ff, where
    little-endian packing is ff 7f. And NaN is not clamped: the clamp gives
    NaN, which is stored as 0. *)
Lemma createBlob_host_byte_order :
  createBlob BigEndian [Finite 1]
    = Some {| data := str "f/8="; mimeType := str "audio/pcm;rate=16000" |}
  /\ Base64.decode (str "f/8=") = Some [127; 255]
  /\ packed LittleEndian (clamped_int16 (Finite 1)) = [255; 127]
  /\ clamp NaN = NaN
  /\ sample_to_int16 NaN = 0.
Proof. repeat split. Qed.

End PCMFacts.

(** ** Number values *)

Section Float64Facts.
Import Float64.

Lemma eqb_eq (x y : t) : eqb x y = true <-> x = y.
Proof.
  destruct x as [a|a m e|a], y as [b|b n f|b]; cbn [eqb];
    try (split; [discriminate|discriminate]).
  - rewrite Bool.eqb_true_iff. split; [intros ->; reflexivity|intros H; injection H as ->; reflexivity].
  - rewrite !andb_true_iff, Bool.eqb_true_iff, Pos.eqb_eq, Z.eqb_eq. split.
    + intros [[-> ->] ->]. reflexivity.
    + intros H. injection H as -> -> ->. repeat split.
  - rewrite Bool.eqb_true_iff. split; [intros ->; reflexivity|intros H; injection H as ->; reflexivity].
Qed.

Lemma pow2_pos (n : Z) : 0 < 2 ^ n \/ (n < 0 /\ 2 ^ n = 0).
Proof.
  destruct (Z_lt_le_dec n 0) as [H|H].
  - right. split; [exact H|]. apply Z.pow_neg_r, H.
  - left. apply Z.pow_pos_nonneg; lia.
Qed.

Lemma pow2_split (x y : Z) : 0 <= x -> 0 <= y -> 2 ^ (x + y) = 2 ^ x * 2 ^ y.
Proof. intros. apply Z.pow_add_r; assumption. Qed.

Lemma floor_log2_spec (a b : Z) : 0 < a -> 0 < b -> bracket a b (floor_log2 a b).
Proof.
  intros Ha Hb. unfold floor_log2, bracket. cbv zeta.
  pose proof (Z.log2_spec a Ha) as [Ha1 Ha2].
  pose proof (Z.log2_spec b Hb) as [Hb1 Hb2].
  pose proof (Z.log2_nonneg a) as Hla. pose proof (Z.log2_nonneg b) as Hlb.
  rewrite Z.pow_succ_r in Ha2, Hb2 by assumption.
  set (la := Z.log2 a) in *. set (lb := Z.log2 b) in *.
  assert (HA : 0 < 2 ^ la) by (apply Z.pow_pos_nonneg; lia).
  assert (HB : 0 < 2 ^ lb) by (apply Z.pow_pos_nonneg; lia).
  destruct (Z.ltb_spec (a * 2 ^ lb) (b * 2 ^ la)) as [Hlt|Hge].
  - destruct (Z_le_gt_dec 0 (la - lb - 1)) as [Hs|Hs].
    + rewrite (Z.max_r 0 (la - lb - 1)), (Z.max_l 0 (- (la - lb - 1))) by lia.
      assert (E : 2 ^ la = 2 ^ lb * (2 * 2 ^ (la - lb - 1))).
      { rewrite <- (Z.pow_succ_r 2) by lia. rewrite <- pow2_split by lia. f_equal. lia. }
      assert (HT : 0 < 2 ^ (la - lb - 1)) by (apply Z.pow_pos_nonneg; lia).
      set (T := 2 ^ (la - lb - 1)) in *. rewrite Z.pow_0_r. nia.
    + rewrite (Z.max_l 0 (la - lb - 1)), (Z.max_r 0 (- (la - lb - 1))) by lia.
      assert (E : 2 * 2 ^ lb = 2 ^ la * 2 ^ (- (la - lb - 1))).
      { rewrite <- (Z.pow_succ_r 2) by lia. rewrite <- pow2_split by lia. f_equal. lia. }
      assert (HT : 0 < 2 ^ (- (la - lb - 1))) by (apply Z.pow_pos_nonneg; lia).
      set (T := 2 ^ (- (la - lb - 1))) in *. rewrite Z.pow_0_r. nia.
  - destruct (Z_le_gt_dec 0 (la - lb)) as [Hs|Hs].
    + rewrite (Z.max_r 0 (la - lb)), (Z.max_l 0 (- (la - lb))) by lia.
      assert (E : 2 ^ la = 2 ^ lb * 2 ^ (la - lb)).
      { rewrite <- pow2_split by lia. f_equal. lia. }
      assert (HT : 0 < 2 ^ (la - lb)) by (apply Z.pow_pos_nonneg; lia).
      set (T := 2 ^ (la - lb)) in *. rewrite Z.pow_0_r. nia.
    + rewrite (Z.max_l 0 (la - lb)), (Z.max_r 0 (- (la - lb))) by lia.
      assert (E : 2 ^ lb = 2 ^ la * 2 ^ (- (la - lb))).
      { rewrite <- pow2_split by lia. f_equal. lia. }
      assert (HT : 0 < 2 ^ (- (la - lb))) by (apply Z.pow_pos_nonneg; lia).
      set (T := 2 ^ (- (la - lb))) in *. rewrite Z.pow_0_r. nia.
Qed.

Lemma bracket_le (a b L L' : Z) :
  0 < a -> 0 < b -> bracket a b L -> bracket a b L' -> L' <= L.
Proof.
  intros Ha Hb [_ Hup] [Hlow _].
  destruct (Z_le_gt_dec L' L) as [H|H]; [exact H|exfalso].
  assert (P1 : 0 < 2 ^ Z.max 0 L) by (apply Z.pow_pos_nonneg; lia).
  assert (P2 : 0 < 2 ^ Z.max 0 (- L)) by (apply Z.pow_pos_nonneg; lia).
  assert (P3 : 0 < 2 ^ Z.max 0 L') by (apply Z.pow_pos_nonneg; lia).
  assert (P4 : 0 < 2 ^ Z.max 0 (- L')) by (apply Z.pow_pos_nonneg; lia).
  assert (Hcmp : 2 ^ (Z.max 0 L' + Z.max 0 (- L)) < 2 ^ (1 + Z.max 0 L + Z.max 0 (- L'))).
  { rewrite !pow2_split by lia. rewrite Z.pow_1_r.
    set (A := 2 ^ Z.max 0 L) in *. set (B := 2 ^ Z.max 0 (- L)) in *.
    set (C := 2 ^ Z.max 0 L') in *. set (D := 2 ^ Z.max 0 (- L')) in *.
    assert (b * (C * B) < b * (2 * A * D)); [|nia].
    nia. }
  apply Z.pow_lt_mono_r_iff in Hcmp; lia.
Qed.

Lemma bracket_unique (a b L L' : Z) :
  0 < a -> 0 < b -> bracket a b L -> bracket a b L' -> L = L'.
Proof.
  intros Ha Hb H H'.
  pose proof (bracket_le a b L L' Ha Hb H H').
  pose proof (bracket_le a b L' L Ha Hb H' H). lia.
Qed.

Lemma bracket_dyadic (a b : Z) (m : positive) (e : Z) :
  0 < a -> 0 < b -> is_dyadic a b m e -> bracket a b (Z.log2 (Z.pos m) + e).
Proof.
  intros Ha Hb Hd. unfold is_dyadic in Hd. unfold bracket.
  pose proof (Z.log2_spec (Z.pos m) ltac:(lia)) as [Hm1 Hm2].
  pose proof (Z.log2_nonneg (Z.pos m)) as Hlm.
  rewrite Z.pow_succ_r in Hm2 by assumption.
  set (lm := Z.log2 (Z.pos m)) in *. set (L := lm + e).
  assert (P1 : 0 < 2 ^ Z.max 0 L) by (apply Z.pow_pos_nonneg; lia).
  assert (P2 : 0 < 2 ^ Z.max 0 (- L)) by (apply Z.pow_pos_nonneg; lia).
  assert (P3 : 0 < 2 ^ Z.max 0 e) by (apply Z.pow_pos_nonneg; lia).
  assert (P4 : 0 < 2 ^ Z.max 0 (- e)) by (apply Z.pow_pos_nonneg; lia).
  assert (P5 : 0 < 2 ^ lm) by (apply Z.pow_pos_nonneg; lia).
  assert (E : 2 ^ Z.max 0 L * 2 ^ Z.max 0 (- e)
              = 2 ^ lm * (2 ^ Z.max 0 e * 2 ^ Z.max 0 (- L))).
  { rewrite <- !pow2_split by lia. f_equal. unfold L. lia. }
  set (A := 2 ^ Z.max 0 L) in *. set (B := 2 ^ Z.max 0 (- L)) in *.
  set (C := 2 ^ Z.max 0 e) in *. set (D := 2 ^ Z.max 0 (- e)) in *.
  set (M := 2 ^ lm) in *.
  assert (K : a * B * D = Z.pos m * C * b * B) by nia.
  split.
  - assert (b * A * D <= a * B * D); [|nia].
    rewrite K. replace (b * A * D) with (b * (A * D)) by ring. rewrite E. nia.
  - assert (a * B * D < 2 * (b * A) * D); [|nia].
    rewrite K. replace (2 * (b * A) * D) with (2 * b * (A * D)) by ring. rewrite E. nia.
Qed.

Lemma strip_shift (m : positive) (j : nat) (e : Z) :
  is_odd m = true -> strip (Pos.iter xO m (Pos.of_succ_nat j)) e = (m, e + Z.of_nat (S j)).
Proof.
  intros Hodd. revert e. induction j as [|j IH]; intros e.
  - cbn. destruct m; try discriminate; cbn; f_equal; lia.
  - rewrite SuccNat2Pos.inj_succ, Pos.iter_succ. cbn [strip].
    rewrite IH. f_equal. lia.
Qed.

Lemma iter_xO (m : positive) (j : positive) :
  Z.pos (Pos.iter xO m j) = Z.pos m * 2 ^ Z.pos j.
Proof.
  induction j using Pos.peano_ind.
  - cbn. lia.
  - rewrite Pos.iter_succ, Pos2Z.inj_xO, IHj, Pos2Z.inj_succ, Z.pow_succ_r by lia. ring.
Qed.

Lemma strip_pow2 (m : positive) (j : Z) (q : positive) (e : Z) :
  is_odd m = true -> 0 <= j -> Z.pos q = Z.pos m * 2 ^ j ->
  strip q e = (m, e + j).
Proof.
  intros Hodd Hj Hq. destruct j as [|j|j]; [| |lia].
  - rewrite Z.pow_0_r, Z.mul_1_r in Hq. injection Hq as ->.
    destruct m; try discriminate; cbn; f_equal; lia.
  - rewrite <- iter_xO in Hq. injection Hq as ->.
    destruct (Pos2Nat.is_succ j) as [n Hn].
    replace j with (Pos.of_succ_nat n) by (apply Pos2Nat.inj; rewrite SuccNat2Pos.id_succ; lia).
    rewrite strip_shift by exact Hodd. f_equal; try lia.
Qed.

(** Rounding a value that is a binary64 gives the value. *)
Lemma round_exact (negative : bool) (a b : Z) (m : positive) (e : Z) :
  0 < a -> 0 < b -> is_dyadic a b m e ->
  is_double (Dyadic negative m e) = true ->
  round negative a b = Dyadic negative m e.
Proof.
  intros Ha Hb Hd Hdouble. cbn [is_double] in Hdouble.
  rewrite !andb_true_iff, Z.ltb_lt, !Z.leb_le in Hdouble.
  destruct Hdouble as [[[Hodd Hm] He] Hmax].
  unfold round. rewrite (proj2 (Z.eqb_neq a 0)) by lia.
  assert (HL : floor_log2 a b = Z.log2 (Z.pos m) + e).
  { apply (bracket_unique a b); try assumption.
    - apply floor_log2_spec; assumption.
    - apply bracket_dyadic; assumption. }
  rewrite HL.
  assert (Hlm : Z.log2 (Z.pos m) <= 52).
  { assert (Z.log2 (Z.pos m) < 53); [|lia]. apply Z.log2_lt_pow2; lia. }
  pose proof (Z.log2_nonneg (Z.pos m)) as Hlm0.
  set (ulp := Z.max (Z.log2 (Z.pos m) + e - 52) (-1074)).
  assert (Hulp : ulp <= e) by (unfold ulp; lia).
  assert (Hq : a * 2 ^ Z.max 0 (- ulp)
               = (Z.pos m * 2 ^ (e - ulp)) * (b * 2 ^ Z.max 0 ulp)).
  { unfold is_dyadic in Hd.
    assert (P1 : 0 < 2 ^ Z.max 0 (- e)) by (apply Z.pow_pos_nonneg; lia).
    assert (E : 2 ^ Z.max 0 e * 2 ^ Z.max 0 (- ulp)
                = 2 ^ (e - ulp) * 2 ^ Z.max 0 ulp * 2 ^ Z.max 0 (- e)).
    { rewrite <- !pow2_split by lia. f_equal. lia. }
    apply (Z.mul_reg_r _ _ (2 ^ Z.max 0 (- e))); [lia|].
    set (A := 2 ^ Z.max 0 (- ulp)) in *. set (B := 2 ^ Z.max 0 ulp) in *.
    set (C := 2 ^ Z.max 0 e) in *. set (D := 2 ^ Z.max 0 (- e)) in *.
    set (T := 2 ^ (e - ulp)) in *.
    replace (a * A * D) with (a * D * A) by ring. rewrite Hd.
    replace (Z.pos m * C * b * A) with (Z.pos m * b * (C * A)) by ring.
    rewrite E. ring. }
  assert (Hden : 0 < b * 2 ^ Z.max 0 ulp).
  { apply Z.mul_pos_pos; [lia|apply Z.pow_pos_nonneg; lia]. }
  unfold nearest_even. cbv zeta. rewrite Hq.
  rewrite Z.div_mul, Z.mod_mul by lia.
  replace (2 * 0 ?= b * 2 ^ Z.max 0 ulp) with Lt
    by (symmetry; apply Z.compare_lt_iff; lia).
  assert (Hpos : 0 < Z.pos m * 2 ^ (e - ulp)).
  { apply Z.mul_pos_pos; [lia|apply Z.pow_pos_nonneg; lia]. }
  destruct (Z.pos m * 2 ^ (e - ulp)) as [|q|q] eqn:Eq; try lia.
  rewrite (strip_pow2 m (e - ulp) q ulp Hodd ltac:(lia) (eq_sym Eq)).
  replace (ulp + (e - ulp)) with e by lia.
  rewrite (proj2 (Z.ltb_ge 1023 (Z.log2 (Z.pos m) + e))) by lia.
  reflexivity.
Qed.

End Float64Facts.

(** ** Decimal text of numbers *)

Section DecimalFacts.
Import Float64 JSON.

Lemma is_digit_spec (c : Z) : is_digit c = true <-> 48 <= c <= 57.
Proof. unfold is_digit. rewrite andb_true_iff, !Z.leb_le. tauto. Qed.

Lemma uint_chars_digits (d : Decimal.uint) : forallb is_digit (uint_chars d) = true.
Proof. induction d; cbn [uint_chars forallb]; try rewrite IHd; reflexivity. Qed.

Lemma digits_are_digits (p : positive) : forallb is_digit (digits p) = true.
Proof. apply uint_chars_digits. Qed.

Lemma fold_digits_acc (d : Decimal.uint) (acc : positive) :
  fold_left (fun acc c => 10 * acc + (c - 48)) (uint_chars d) (Z.pos acc)
  = Z.pos (Pos.of_uint_acc d acc).
Proof.
  revert acc. induction d; intros acc; cbn [uint_chars fold_left Pos.of_uint_acc];
    [reflexivity|..];
    match goal with
    | |- fold_left _ _ ?z = Z.pos (Pos.of_uint_acc _ ?q) =>
        replace z with (Z.pos q) by lia; apply IHd
    end.
Qed.

Lemma fold_digits (d : Decimal.uint) :
  digits_value (uint_chars d) = Z.of_N (Pos.of_uint d).
Proof.
  unfold digits_value.
  induction d; cbn [uint_chars fold_left Pos.of_uint]; [reflexivity|exact IHd|..];
    match goal with
    | |- fold_left _ _ ?z = Z.of_N (N.pos (Pos.of_uint_acc _ ?q)) =>
        replace z with (Z.pos q) by lia; apply fold_digits_acc
    end.
Qed.

Lemma digits_value_digits (p : positive) : digits_value (digits p) = Z.pos p.
Proof.
  unfold digits. rewrite fold_digits, DecimalPos.Unsigned.of_to. reflexivity.
Qed.

(** The decimal digits of a positive number: at least one, no leading zero. *)
Lemma to_uint_leading (p : positive) :
  match Pos.to_uint p with
  | Decimal.Nil | Decimal.D0 _ => False
  | _ => True
  end.
Proof.
  pose proof (DecimalPos.Unsigned.to_of (Pos.to_uint p)) as H.
  rewrite DecimalPos.Unsigned.of_to in H. cbn [N.to_uint] in H.
  pose proof (DecimalPos.Unsigned.to_uint_nonzero p) as Hz.
  destruct (Pos.to_uint p) as [|d| | | | | | | | |] eqn:E; try exact I.
  - discriminate H.
  - unfold Decimal.unorm in H. cbn [Decimal.nzhead] in H.
    destruct (Decimal.nzhead d) eqn:Hd; try discriminate H.
    + injection H as ->. apply Hz. reflexivity.
    + injection H as ->. exact (DecimalFacts.nzhead_nonzero _ _ Hd).
Qed.

Lemma digits_head (p : positive) :
  exists c tail, digits p = c :: tail /\ 49 <= c <= 57.
Proof.
  unfold digits. pose proof (to_uint_leading p) as Hlead.
  destruct (Pos.to_uint p); try contradiction;
    cbn [uint_chars]; eexists; eexists; (split; [reflexivity|lia]).
Qed.

Lemma digits_value_app (a b : jsstring) :
  digits_value (a ++ b)
  = fold_left (fun acc c => 10 * acc + (c - 48)) b (digits_value a).
Proof. unfold digits_value. apply fold_left_app. Qed.

Lemma fold_zeros (n : nat) (acc : Z) :
  fold_left (fun acc c => 10 * acc + (c - 48)) (repeat 48 n) acc = acc * 10 ^ Z.of_nat n.
Proof.
  revert acc. induction n as [|n IH]; intros acc.
  - cbn. lia.
  - cbn [repeat fold_left]. rewrite IH, Nat2Z.inj_succ, Z.pow_succ_r by lia. ring.
Qed.

Lemma digits_value_zeros_after (ds : jsstring) (n : Z) :
  0 <= n -> digits_value (ds ++ zeros n) = digits_value ds * 10 ^ n.
Proof.
  intros Hn. rewrite digits_value_app. unfold zeros.
  rewrite fold_zeros, Z2Nat.id by exact Hn. reflexivity.
Qed.

Lemma digits_value_zeros_before (ds : jsstring) (n : Z) :
  digits_value (48 :: zeros n ++ ds) = digits_value ds.
Proof.
  change (48 :: zeros n ++ ds) with ((48 :: zeros n) ++ ds).
  rewrite digits_value_app.
  replace (digits_value (48 :: zeros n)) with 0; [reflexivity|].
  change (48 :: zeros n) with (repeat 48 (S (Z.to_nat n))).
  unfold digits_value. rewrite fold_zeros. reflexivity.
Qed.

(** *** The text of a Number denotes it *)

Lemma candidate_valid (x : t) (negative : bool) (s p : Z) (r : positive * Z) :
  candidate x negative s p = Some r ->
  of_decimal negative (Z.pos (fst r)) (snd r) = x.
Proof.
  unfold candidate.
  destruct (trim (Z.to_nat (Z.log2 s) + 1) s p) as [s' p'].
  destruct s' as [|ds|ds]; try discriminate.
  destruct (eqb (of_decimal negative (Z.pos ds) p') x) eqn:E; [|discriminate].
  intros H. injection H as <-. apply eqb_eq, E.
Qed.

Lemma shortest_valid (fuel : nat) (x : t) (negative : bool) (a b p : Z)
      (exact : positive * Z) :
  of_decimal negative (Z.pos (fst exact)) (snd exact) = x ->
  of_decimal negative (Z.pos (fst (shortest fuel x negative a b p exact)))
    (snd (shortest fuel x negative a b p exact)) = x.
Proof.
  intros Hexact. revert p. induction fuel as [|fuel IH]; intros p; [exact Hexact|].
  cbn [shortest]. cbv zeta.
  destruct (candidate x negative (a * 10 ^ Z.max 0 (- p) / (b * 10 ^ Z.max 0 p)) p)
    as [lower|] eqn:El;
  destruct (candidate x negative (a * 10 ^ Z.max 0 (- p) / (b * 10 ^ Z.max 0 p) + 1) p)
    as [upper|] eqn:Eu.
  - pose proof (candidate_valid _ _ _ _ _ El). pose proof (candidate_valid _ _ _ _ _ Eu).
    destruct (_ ?= _); [destruct (Z.even _)| |]; assumption.
  - exact (candidate_valid _ _ _ _ _ El).
  - exact (candidate_valid _ _ _ _ _ Eu).
  - apply IH.
Qed.

(** Between the two bounds the numeral is rounded. *)
Lemma of_decimal_round (negative : bool) (s p : Z) :
  p < 310 -> -324 - (Z.log2 s + 1) < p ->
  of_decimal negative s p = round negative (s * 10 ^ Z.max 0 p) (10 ^ Z.max 0 (- p)).
Proof.
  intros H1 H2. unfold of_decimal.
  rewrite (proj2 (Z.leb_gt 310 p)), (proj2 (Z.leb_gt p (-324 - (Z.log2 s + 1))))
    by assumption.
  reflexivity.
Qed.

Lemma decimal_of_valid (negative : bool) (m : positive) (e : Z) :
  is_double (Dyadic negative m e) = true ->
  of_decimal negative (Z.pos (fst (decimal_of negative m e)))
    (snd (decimal_of negative m e)) = Dyadic negative m e.
Proof.
  intros Hdouble. unfold decimal_of. cbv zeta. apply shortest_valid.
  destruct (Z.leb_spec 0 e) as [He|He]; cbn [fst snd].
  - rewrite of_decimal_round
      by first [lia | pose proof (Z.log2_nonneg (Z.pos (Z.to_pos (Z.pos m * 2 ^ e)))); lia].
    assert (Hpos : 0 < Z.pos m * 2 ^ e)
      by (apply Z.mul_pos_pos; [lia|apply Z.pow_pos_nonneg; lia]).
    rewrite Z2Pos.id by exact Hpos.
    change (Z.max 0 (- 0)) with 0. change (Z.max 0 0) with 0.
    rewrite Z.pow_0_r, Z.mul_1_r.
    apply round_exact; try exact Hdouble; try lia.
    unfold is_dyadic. rewrite (Z.max_l 0 (- e)), (Z.max_r 0 e) by lia.
    rewrite Z.pow_0_r. ring.
  - assert (H5 : 0 < 5 ^ (- e)) by (apply Z.pow_pos_nonneg; lia).
    assert (H2 : 0 < 2 ^ (- e)) by (apply Z.pow_pos_nonneg; lia).
    assert (H10 : 10 ^ (- e) = 2 ^ (- e) * 5 ^ (- e))
      by (rewrite <- Z.pow_mul_l; reflexivity).
    assert (H25 : 2 ^ (- e) <= 5 ^ (- e)) by (apply Z.pow_le_mono_l; lia).
    assert (Hlog : - e <= Z.log2 (Z.pos m * 5 ^ (- e)))
      by (apply Z.log2_le_pow2; nia).
    cbn [is_double] in Hdouble.
    rewrite Z2Pos.id by nia.
    rewrite of_decimal_round by lia.
    rewrite (Z.max_l 0 e), (Z.max_r 0 (- e)) by lia. rewrite Z.pow_0_r, Z.mul_1_r.
    apply round_exact; try exact Hdouble; try nia.
    unfold is_dyadic. rewrite (Z.max_l 0 e), (Z.max_r 0 (- e)) by lia.
    rewrite Z.pow_0_r, H10. ring.
Qed.

Lemma strip_spec (q : positive) (e : Z) :
  is_odd (fst (strip q e)) = true
  /\ e <= snd (strip q e)
  /\ Z.pos q = Z.pos (fst (strip q e)) * 2 ^ (snd (strip q e) - e).
Proof.
  revert e. induction q as [q IH|q IH|]; intros e; cbn [strip fst snd].
  - repeat split; [lia|]. rewrite Z.sub_diag, Z.pow_0_r. lia.
  - destruct (IH (e + 1)) as (Hodd & Hle & Hq).
    repeat split; [exact Hodd|lia|].
    replace (snd (strip q (e + 1)) - e) with (Z.succ (snd (strip q (e + 1)) - (e + 1)))
      by lia.
    rewrite Z.pow_succ_r by lia. rewrite Pos2Z.inj_xO, Hq. ring.
  - repeat split; [lia|]. rewrite Z.sub_diag, Z.pow_0_r. lia.
Qed.

(** An integer of magnitude at most 2^53 is a Number: converting it
    rounds nothing, and JSON text keeps it. *)
Lemma of_Z_safe (n : Z) :
  Z.abs n <= 9007199254740992 ->
  to_Z (of_Z n) = Some n /\ kept_number (of_Z n) = true.
Proof.
  intros Hn. destruct n as [|q|q]; [split; reflexivity| |];
    unfold of_Z; cbn [Z.abs Z.ltb Z.compare];
    rewrite of_decimal_round by (pose proof (Z.log2_nonneg (Z.pos q)); lia);
    change (Z.max 0 (- 0)) with 0; change (Z.max 0 0) with 0;
    rewrite Z.pow_0_r, Z.mul_1_r;
    destruct (strip_spec q 0) as (Hodd & Hle & Hq);
    destruct (strip q 0) as [m e] eqn:Es; cbn [fst snd] in *;
    rewrite Z.sub_0_r in Hq;
    assert (Hpow : 0 < 2 ^ e) by (apply Z.pow_pos_nonneg; lia);
    assert (Hlog : Z.log2 (Z.pos m) + e <= 53)
      by (rewrite Z.add_comm, <- Z.log2_mul_pow2, <- Hq by lia;
          change 53 with (Z.log2 9007199254740992); apply Z.log2_le_mono; lia);
    assert (Hdouble : is_double (Dyadic (match q with _ => false end) m e) = true
                      /\ is_double (Dyadic true m e) = true)
      by (cbn [is_double]; rewrite Hodd;
          assert (Z.pos m < 2 ^ 53)
            by (assert (Z.pos m <= 2 ^ 53) by (change (2 ^ 53) with 9007199254740992; nia);
                assert (Z.pos m <> 2 ^ 53)
                  by (intros Hm; change (2 ^ 53) with (Z.pos 9007199254740992) in Hm;
                      injection Hm as ->; discriminate Hodd);
                lia);
          split; repeat (apply andb_true_iff; split); try reflexivity;
            first [apply Z.ltb_lt; assumption | apply Z.leb_le; lia]);
    destruct Hdouble as [Hplus Hminus].
  - rewrite (round_exact false (Z.pos q) 1 m e); try lia; try exact Hplus.
    + split; [|unfold kept_number; rewrite Hplus; reflexivity].
      cbn [to_Z]. rewrite (proj2 (Z.leb_le 0 e)) by lia. rewrite <- Hq. reflexivity.
    + unfold is_dyadic. rewrite (Z.max_l 0 (- e)), (Z.max_r 0 e) by lia.
      rewrite Z.pow_0_r. lia.
  - rewrite (round_exact true (Z.pos q) 1 m e); try lia; try exact Hminus.
    + split; [|unfold kept_number; rewrite Hminus; reflexivity].
      cbn [to_Z]. rewrite (proj2 (Z.leb_le 0 e)) by lia. rewrite <- Hq. reflexivity.
    + unfold is_dyadic. rewrite (Z.max_l 0 (- e)), (Z.max_r 0 e) by lia.
      rewrite Z.pow_0_r. lia.
Qed.

End DecimalFacts.

Section NumberTextFacts.
Import Float64 JSON.

Lemma span_digits_app (ds rest : jsstring) :
  forallb is_digit ds = true -> stops rest -> span_digits (ds ++ rest) = (ds, rest).
Proof.
  intros Hds Hrest. induction ds as [|c ds IH].
  - destruct rest as [|c rest]; [reflexivity|]. cbn in *. rewrite Hrest. reflexivity.
  - cbn [forallb] in Hds. apply andb_true_iff in Hds. destruct Hds as [Hc Hds].
    cbn [app span_digits]. rewrite Hc, (IH Hds). reflexivity.
Qed.

Lemma delimited_stops (rest : jsstring) : delimited rest = true -> stops rest.
Proof.
  destruct rest as [|c rest]; [intros _; exact I|].
  unfold delimited, stops. intros H.
  apply orb_true_iff in H. destruct H as [H|H]; [apply orb_true_iff in H; destruct H as [H|H]|];
    apply Z.eqb_eq in H; subst c; reflexivity.
Qed.

Lemma delimited_no_fraction (rest : jsstring) :
  delimited rest = true -> parse_fraction rest = Some ([], rest).
Proof.
  destruct rest as [|c rest]; [reflexivity|].
  unfold delimited, parse_fraction. intros H.
  apply orb_true_iff in H. destruct H as [H|H]; [apply orb_true_iff in H; destruct H as [H|H]|];
    apply Z.eqb_eq in H; subst c; reflexivity.
Qed.

Lemma delimited_no_exponent (rest : jsstring) :
  delimited rest = true -> parse_exponent rest = Some (0, rest).
Proof.
  destruct rest as [|c rest]; [reflexivity|].
  unfold delimited, parse_exponent. intros H.
  apply orb_true_iff in H. destruct H as [H|H]; [apply orb_true_iff in H; destruct H as [H|H]|];
    apply Z.eqb_eq in H; subst c; reflexivity.
Qed.

Lemma parse_exponent_text (x : Z) (rest : jsstring) :
  x <> 0 -> delimited rest = true ->
  parse_exponent (exponent_text x ++ rest) = Some (x, rest).
Proof.
  intros Hx Hrest. unfold exponent_text, parse_exponent. cbn [app].
  change ((101 =? 101) || (101 =? 69)) with true. cbv iota.
  destruct (digits_head (Z.to_pos (Z.abs x))) as (c & tail & E & Hc).
  pose proof (span_digits_app (digits (Z.to_pos (Z.abs x))) rest
                (digits_are_digits _) (delimited_stops _ Hrest)) as Hspan.
  pose proof (digits_value_digits (Z.to_pos (Z.abs x))) as Hval.
  rewrite Z2Pos.id in Hval by lia.
  destruct (Z.leb_spec 0 x) as [Hpos|Hneg].
  - change (43 =? 45) with false. change (43 =? 43) with true. cbv iota.
    rewrite Hspan, E. rewrite E in Hval. rewrite Hval. f_equal. f_equal. lia.
  - change (45 =? 45) with true. cbv iota.
    rewrite Hspan, E. rewrite E in Hval. rewrite Hval. f_equal. f_equal. lia.
Qed.

Lemma exponent_text_stops (x : Z) (rest : jsstring) : stops (exponent_text x ++ rest).
Proof. reflexivity. Qed.

Lemma exponent_text_no_fraction (x : Z) (rest : jsstring) :
  parse_fraction (exponent_text x ++ rest) = Some ([], exponent_text x ++ rest).
Proof. reflexivity. Qed.

Lemma parse_fraction_digits (ds rest : jsstring) :
  ds <> [] -> forallb is_digit ds = true -> stops rest ->
  parse_fraction (46 :: ds ++ rest) = Some (ds, rest).
Proof.
  intros Hne Hds Hrest. unfold parse_fraction.
  change (46 =? 46) with true. cbv iota.
  rewrite span_digits_app by assumption.
  destruct ds; [contradiction|reflexivity].
Qed.

(** A number token read part by part. *)
Lemma parse_number_parts (negative : bool) (int after : jsstring)
      (fraction : jsstring) (s3 : jsstring) (exponent : Z) (rest : jsstring) :
  (exists d more, int = d :: more /\ 49 <= d <= 57 \/ int = [48]) ->
  forallb is_digit int = true ->
  stops after ->
  parse_fraction after = Some (fraction, s3) ->
  parse_exponent s3 = Some (exponent, rest) ->
  parse_number ((if negative then [45] else []) ++ int ++ after)
  = Some (JNumber (of_decimal negative (digits_value (int ++ fraction))
                     (exponent - Z.of_nat (length fraction))), rest).
Proof.
  intros Hint Hdigits Hafter Hfrac Hexp.
  assert (Hspan : span_digits (int ++ after) = (int, after))
    by (apply span_digits_app; assumption).
  assert (Hbody :
    match span_digits (int ++ after) with
    | ([], _) => None
    | (d :: more, s2) =>
        if (d =? 48) && (match more with [] => false | _ => true end) then None
        else
          match parse_fraction s2 with
          | None => None
          | Some (fraction, s3) =>
              match parse_exponent s3 with
              | None => None
              | Some (exponent, rest) =>
                  Some (JNumber
                          (of_decimal negative
                             (digits_value ((d :: more) ++ fraction))
                             (exponent - Z.of_nat (length fraction))),
                        rest)
              end
          end
    end
    = Some (JNumber (of_decimal negative (digits_value (int ++ fraction))
                       (exponent - Z.of_nat (length fraction))), rest)).
  { rewrite Hspan.
    destruct Hint as [d [more [[-> Hd] | ->]]].
    - rewrite (proj2 (Z.eqb_neq d 48)) by lia. cbn [andb].
      rewrite Hfrac, Hexp. reflexivity.
    - cbn [andb Z.eqb Pos.eqb]. rewrite Hfrac, Hexp. reflexivity. }
  unfold parse_number. destruct negative.
  - cbn [app]. change (45 =? 45) with true. cbv iota. exact Hbody.
  - cbn [app].
    destruct Hint as [d [more [[-> Hd] | ->]]].
    + cbn [app] in *. rewrite (proj2 (Z.eqb_neq d 45)) by lia. exact Hbody.
    + cbn [app] in *. change (48 =? 45) with false. cbv iota. exact Hbody.
Qed.

Lemma firstn_skipn_digits (ds : jsstring) (n : nat) :
  forallb is_digit ds = true ->
  forallb is_digit (firstn n ds) = true /\ forallb is_digit (skipn n ds) = true.
Proof.
  intros H. rewrite <- (firstn_skipn n ds) in H.
  rewrite forallb_app in H. apply andb_true_iff in H. exact H.
Qed.

Ltac same_exponent :=
  match goal with
  | |- Some (JNumber (of_decimal _ _ ?x), _) = Some (JNumber (of_decimal _ _ ?y), _) =>
      replace x with y; [reflexivity|]
  end.

(** The text [format] writes for the digits of [s] denotes [s * 10^p]. *)
Lemma parse_format (negative : bool) (s : positive) (p : Z) (rest : jsstring) :
  delimited rest = true ->
  parse_number ((if negative then [45] else [])
                  ++ format (digits s) (p + Z.of_nat (length (digits s))) ++ rest)
  = Some (JNumber (of_decimal negative (Z.pos s) p), rest).
Proof.
  intros Hrest.
  pose proof (digits_are_digits s) as Hds.
  pose proof (digits_value_digits s) as Hval.
  destruct (digits_head s) as (d & tail & E & Hd).
  set (ds := digits s) in *. set (k := Z.of_nat (length ds)).
  assert (Hk : 0 < k) by (unfold k; rewrite E; cbn [length]; lia).
  set (n := p + k).
  unfold format. cbv zeta. fold k.
  destruct ((k <=? n) && (n <=? 21)) eqn:C1.
  { (* digits followed by zeros *)
    apply andb_true_iff in C1. destruct C1 as [C1 C1']. apply Z.leb_le in C1.
    erewrite (parse_number_parts negative (ds ++ zeros (n - k)) rest [] rest 0 rest).
    - rewrite app_nil_r, digits_value_zeros_after, Hval by lia.
      cbn [length]. change (0 - Z.of_nat 0) with 0.
      replace (n - k) with p by (unfold n; lia).
      assert (Hp : 0 <= p <= 21) by (unfold n in *; apply Z.leb_le in C1'; lia).
      rewrite !of_decimal_round
        by first [lia
                 | pose proof (Z.log2_nonneg (Z.pos s * 10 ^ p)); lia
                 | pose proof (Z.log2_nonneg (Z.pos s)); lia].
      change (Z.max 0 (- 0)) with 0. change (Z.max 0 0) with 0.
      rewrite Z.pow_0_r, Z.mul_1_r.
      rewrite (Z.max_r 0 p), (Z.max_l 0 (- p)) by (unfold n in C1; lia).
      rewrite Z.pow_0_r. reflexivity.
    - rewrite E. cbn [app]. exists d, (tail ++ zeros (n - k)). left. split; [reflexivity|exact Hd].
    - rewrite forallb_app, Hds. unfold zeros.
      induction (Z.to_nat (n - k)) as [|j IH]; [reflexivity|exact IH].
    - apply delimited_stops, Hrest.
    - apply delimited_no_fraction, Hrest.
    - apply delimited_no_exponent, Hrest. }
  destruct ((0 <? n) && (n <=? 21)) eqn:C2.
  { (* a point inside the digits *)
    apply andb_true_iff in C2. destruct C2 as [C2 C2'].
    apply Z.ltb_lt in C2. apply Z.leb_le in C2'.
    apply andb_false_iff in C1.
    assert (Hnk : n < k).
    { destruct C1 as [C1|C1]; apply Z.leb_gt in C1; lia. }
    destruct (firstn_skipn_digits ds (Z.to_nat n) Hds) as [Hf Hs].
    assert (Hlen : length (skipn (Z.to_nat n) ds) = Z.to_nat (k - n)).
    { rewrite length_skipn. unfold k. lia. }
    replace ((firstn (Z.to_nat n) ds ++ 46 :: skipn (Z.to_nat n) ds) ++ rest)
      with (firstn (Z.to_nat n) ds ++ (46 :: skipn (Z.to_nat n) ds ++ rest))
      by (rewrite <- app_assoc; reflexivity).
    erewrite (parse_number_parts negative (firstn (Z.to_nat n) ds)
                (46 :: skipn (Z.to_nat n) ds ++ rest)
                (skipn (Z.to_nat n) ds) rest 0 rest).
    - rewrite firstn_skipn, Hval, Hlen. same_exponent. unfold n in *. lia.
    - rewrite E. destruct (Z.to_nat n) as [|j] eqn:En; [lia|].
      cbn [firstn]. exists d, (firstn j tail). left. split; [reflexivity|exact Hd].
    - exact Hf.
    - reflexivity.
    - apply parse_fraction_digits.
      + intros Hnil. rewrite Hnil in Hlen. cbn in Hlen. lia.
      + exact Hs.
      + apply delimited_stops, Hrest.
    - apply delimited_no_exponent, Hrest. }
  destruct ((-6 <? n) && (n <=? 0)) eqn:C3.
  { (* zero, a point, zeros, the digits *)
    apply andb_true_iff in C3. destruct C3 as [_ C3]. apply Z.leb_le in C3.
    change ((48 :: 46 :: zeros (- n) ++ ds) ++ rest)
      with ([48] ++ (46 :: (zeros (- n) ++ ds) ++ rest)).
    erewrite (parse_number_parts negative [48] (46 :: (zeros (- n) ++ ds) ++ rest)
                (zeros (- n) ++ ds) rest 0 rest).
    - cbn [app]. rewrite digits_value_zeros_before, Hval.
      rewrite length_app. unfold zeros at 1. rewrite repeat_length.
      same_exponent. unfold n in *. fold k. lia.
    - exists 48, []. right. reflexivity.
    - reflexivity.
    - reflexivity.
    - apply parse_fraction_digits.
      + rewrite E. intros Hnil. apply app_eq_nil in Hnil. destruct Hnil as [_ Hnil].
        discriminate Hnil.
      + rewrite forallb_app, Hds, andb_true_r. unfold zeros.
        induction (Z.to_nat (- n)) as [|j IH]; [reflexivity|exact IH].
      + apply delimited_stops, Hrest.
    - apply delimited_no_exponent, Hrest. }
  (* one digit, the others after a point, an exponent *)
  assert (Hn1 : n - 1 <> 0).
  { intros Hz. assert (n = 1) by lia.
    apply andb_false_iff in C2. destruct C2 as [C2|C2];
      [apply Z.ltb_ge in C2|apply Z.leb_gt in C2]; lia. }
  rewrite E. rewrite E in Hds, Hval. cbn [forallb] in Hds.
  apply andb_true_iff in Hds. destruct Hds as [Hd' Htail].
  destruct tail as [|d2 tail].
  - change ((d :: exponent_text (n - 1)) ++ rest)
      with ([d] ++ (exponent_text (n - 1) ++ rest)).
    erewrite (parse_number_parts negative [d] (exponent_text (n - 1) ++ rest)
                [] (exponent_text (n - 1) ++ rest) (n - 1) rest).
    + rewrite app_nil_r, Hval. cbn [length]. same_exponent.
      unfold n, k. rewrite E. cbn [length]. lia.
    + exists d, []. left. split; [reflexivity|exact Hd].
    + cbn [forallb]. rewrite Hd'. reflexivity.
    + apply exponent_text_stops.
    + apply exponent_text_no_fraction.
    + apply parse_exponent_text; assumption.
  - replace ((d :: 46 :: (d2 :: tail) ++ exponent_text (n - 1)) ++ rest)
      with ([d] ++ (46 :: (d2 :: tail) ++ (exponent_text (n - 1) ++ rest)))
      by (cbn [app]; rewrite <- app_assoc; reflexivity).
    erewrite (parse_number_parts negative [d]
                (46 :: (d2 :: tail) ++ (exponent_text (n - 1) ++ rest))
                (d2 :: tail) (exponent_text (n - 1) ++ rest) (n - 1) rest).
    + cbn [app]. rewrite Hval. same_exponent.
      unfold n, k. rewrite E. cbn [length]. lia.
    + exists d, []. left. split; [reflexivity|exact Hd].
    + cbn [forallb]. rewrite Hd'. reflexivity.
    + reflexivity.
    + apply parse_fraction_digits; [discriminate|exact Htail|apply exponent_text_stops].
    + apply parse_exponent_text; assumption.
Qed.

(** A number JSON text keeps is read back from its text. *)
Lemma parse_number_toString (x : Float64.t) (rest : jsstring) :
  kept_number x = true -> delimited rest = true ->
  parse_number (toString x ++ rest) = Some (JNumber x, rest).
Proof.
  intros Hkept Hrest. unfold kept_number in Hkept.
  apply andb_true_iff in Hkept. destruct Hkept as [Hdouble Hkept].
  destruct x as [[|]|negative m e|negative]; try discriminate Hkept.
  - cbn [toString].
    apply (parse_number_parts false [48] rest [] rest 0 rest).
    + exists 48, []. right. reflexivity.
    + reflexivity.
    + apply delimited_stops, Hrest.
    + apply delimited_no_fraction, Hrest.
    + apply delimited_no_exponent, Hrest.
  - cbn [toString].
    pose proof (decimal_of_valid negative m e Hdouble) as Hvalid.
    destruct (decimal_of negative m e) as [s p]. cbn [fst snd] in Hvalid.
    rewrite <- app_assoc, parse_format by exact Hrest.
    rewrite Hvalid. reflexivity.
Qed.

Lemma toString_head (x : Float64.t) :
  exists c tail, toString x = c :: tail /\ (c = 45 \/ c = 73 \/ 48 <= c <= 57).
Proof.
  destruct x as [negative|negative m e|negative]; cbn [toString].
  - exists 48, []. split; [reflexivity|lia].
  - destruct (decimal_of negative m e) as [s p].
    destruct negative; [eexists; eexists; split; [reflexivity|lia]|].
    cbn [app].
    destruct (digits_head s) as (d & tail & E & Hd).
    unfold format. cbv zeta. rewrite E.
    set (k := Z.of_nat (length (d :: tail))).
    set (n := p + k).
    destruct ((k <=? n) && (n <=? 21)).
    { eexists; eexists; split; [reflexivity|lia]. }
    destruct ((0 <? n) && (n <=? 21)) eqn:C2.
    { apply andb_true_iff in C2. destruct C2 as [C2 _]. apply Z.ltb_lt in C2.
      destruct (Z.to_nat n) as [|j] eqn:En; [lia|].
      cbn [firstn app]. eexists; eexists; split; [reflexivity|lia]. }
    destruct ((-6 <? n) && (n <=? 0)).
    { eexists; eexists; split; [reflexivity|lia]. }
    destruct tail; eexists; eexists; (split; [reflexivity|lia]).
  - destruct negative; [exists 45, (str "Infinity")|exists 73, (str "nfinity")];
      (split; [reflexivity|lia]).
Qed.

End NumberTextFacts.

(** ** JSON text *)

Section JSONFacts.
Import JSON.

Lemma value_ind_nested (P : value -> Prop) :
  P JNull -> (forall b, P (JBool b)) -> (forall n, P (JNumber n)) ->
  (forall s, P (JString s)) ->
  (forall l, Forall P l -> P (JArray l)) ->
  (forall m, Forall (fun kv => P (snd kv)) m -> P (JObject m)) ->
  forall v, P v.
Proof.
  intros Hnull Hbool Hnum Hstr Harr Hobj. fix IH 1.
  intros [|b|n|s|l|m].
  - exact Hnull.
  - apply Hbool.
  - apply Hnum.
  - apply Hstr.
  - apply Harr. induction l as [|x l IHl]; constructor; [apply IH|exact IHl].
  - apply Hobj. induction m as [|[k x] m IHm]; constructor; [apply IH|exact IHm].
Qed.

Lemma is_code_unit_spec (c : Z) : is_code_unit c = true <-> 0 <= c < 65536.
Proof. unfold is_code_unit. rewrite andb_true_iff, Z.leb_le, Z.ltb_lt. tauto. Qed.

Lemma hex_value_digit (d : Z) : 0 <= d < 16 -> hex_value (hex_digit d) = Some d.
Proof.
  intros Hd. unfold hex_digit, hex_value.
  destruct (Z.ltb_spec d 10).
  - replace ((48 <=? 48 + d) && (48 + d <=? 57)) with true
      by (symmetry; apply andb_true_iff; split; apply Z.leb_le; lia).
    f_equal. lia.
  - replace ((48 <=? 87 + d) && (87 + d <=? 57)) with false
      by (symmetry; apply andb_false_iff; right; apply Z.leb_gt; lia).
    replace ((97 <=? 87 + d) && (87 + d <=? 102)) with true
      by (symmetry; apply andb_true_iff; split; apply Z.leb_le; lia).
    f_equal. lia.
Qed.

Lemma parse_unicode_escape (c : Z) (tail : jsstring) :
  0 <= c < 65536 ->
  parse_chars (unicode_escape c ++ tail) = prepend c (parse_chars tail).
Proof.
  intros Hc. unfold unicode_escape. cbn [app parse_chars].
  cbn [Z.eqb Pos.eqb]. unfold hex4.
  rewrite !hex_value_digit by (Z.div_mod_to_equations; lia).
  replace (c / 4096 * 4096 + c / 256 mod 16 * 256 + c / 16 mod 16 * 16 + c mod 16)
    with c by (Z.div_mod_to_equations; lia).
  reflexivity.
Qed.

Lemma parse_quote_unit (c : Z) (tail : jsstring) :
  0 <= c < 65536 ->
  parse_chars (quote_unit c ++ tail) = prepend c (parse_chars tail).
Proof.
  intros Hc. unfold quote_unit.
  destruct (Z.eqb_spec c 8) as [->|N8]; [reflexivity|].
  destruct (Z.eqb_spec c 9) as [->|N9]; [reflexivity|].
  destruct (Z.eqb_spec c 10) as [->|N10]; [reflexivity|].
  destruct (Z.eqb_spec c 12) as [->|N12]; [reflexivity|].
  destruct (Z.eqb_spec c 13) as [->|N13]; [reflexivity|].
  destruct (Z.eqb_spec c 34) as [->|N34]; [reflexivity|].
  destruct (Z.eqb_spec c 92) as [->|N92]; [reflexivity|].
  destruct ((c <? 32) || is_high_surrogate c || is_low_surrogate c) eqn:E.
  - apply parse_unicode_escape, Hc.
  - apply orb_false_iff in E. destruct E as [E _].
    apply orb_false_iff in E. destruct E as [E _].
    cbn [app parse_chars].
    rewrite (proj2 (Z.eqb_neq c 34) N34), (proj2 (Z.eqb_neq c 92) N92), E.
    reflexivity.
Qed.

Lemma parse_surrogate_pair (c d : Z) (tail : jsstring) :
  is_high_surrogate c = true -> is_low_surrogate d = true ->
  parse_chars (c :: d :: tail) = prepend c (prepend d (parse_chars tail)).
Proof.
  unfold is_high_surrogate, is_low_surrogate.
  rewrite !andb_true_iff, !Z.leb_le. intros [Hc1 Hc2] [Hd1 Hd2].
  cbn [parse_chars].
  rewrite (proj2 (Z.eqb_neq c 34)), (proj2 (Z.eqb_neq c 92)),
          (proj2 (Z.ltb_ge c 32)) by lia.
  rewrite (proj2 (Z.eqb_neq d 34)), (proj2 (Z.eqb_neq d 92)),
          (proj2 (Z.ltb_ge d 32)) by lia.
  reflexivity.
Qed.

(** A quoted string is read back as the string it quotes. *)
Lemma parse_quote_chars (s rest : jsstring) :
  forallb is_code_unit s = true ->
  parse_chars (quote_chars s ++ 34 :: rest) = Some (s, rest).
Proof.
  remember (length s) as n eqn:Hn.
  assert (Hle : (length s <= n)%nat) by lia. clear Hn.
  revert s Hle. induction n as [|n IH]; intros s Hle Hwf.
  - destruct s; [reflexivity|simpl in Hle; lia].
  - destruct s as [|c s]; [reflexivity|].
    simpl in Hle. cbn [forallb] in Hwf. apply andb_true_iff in Hwf.
    destruct Hwf as [Hc Hs]. apply is_code_unit_spec in Hc.
    cbn [quote_chars]. destruct (is_high_surrogate c) eqn:Hhigh.
    + destruct s as [|d s'].
      * rewrite parse_unicode_escape by exact Hc. reflexivity.
      * destruct (is_low_surrogate d) eqn:Hlow.
        -- cbn [forallb] in Hs. apply andb_true_iff in Hs. destruct Hs as [_ Hs'].
           cbn [app]. rewrite parse_surrogate_pair by assumption.
           rewrite IH by (simpl in Hle; first [lia | exact Hs']). reflexivity.
        -- rewrite <- app_assoc, parse_unicode_escape by exact Hc.
           rewrite IH by first [lia | exact Hs]. reflexivity.
    + rewrite <- app_assoc, parse_quote_unit by exact Hc.
      rewrite IH by first [lia | exact Hs]. reflexivity.
Qed.

Lemma parse_quote (s rest : jsstring) :
  forallb is_code_unit s = true ->
  parse_chars (quote_chars s ++ [34] ++ rest) = Some (s, rest).
Proof. apply parse_quote_chars. Qed.

Lemma skip_ws_head (c : Z) (tail : jsstring) :
  is_ws c = false -> skip_ws (c :: tail) = c :: tail.
Proof. intros H. cbn [skip_ws]. rewrite H. reflexivity. Qed.

(** The first character of a value's text opens a token. *)
Lemma stringify_head (v : value) :
  exists c tail, stringify v = c :: tail /\
    is_ws c = false /\ c <> 93 /\ c <> 125 /\ c <> 44.
Proof.
  destruct v as [|[|]|x|s|l|m]; cbn [stringify];
    [exists 110, (str "ull")|exists 116, (str "rue")|exists 102, (str "alse")
    | |eexists; eexists|eexists; eexists|eexists; eexists];
    try (split; [reflexivity|]; split; [reflexivity|lia]).
  destruct (Float64.is_finite x).
  - destruct (toString_head x) as (c & tail & E & Hc).
    exists c, tail. split; [exact E|].
    unfold is_ws. rewrite !orb_false_iff, !Z.eqb_neq. repeat split; lia.
  - exists 110, (str "ull"). split; [reflexivity|]. split; [reflexivity|lia].
Qed.

Lemma kept_number_finite (x : Float64.t) :
  kept_number x = true -> Float64.is_finite x = true.
Proof.
  unfold kept_number. destruct x as [| |negative]; try reflexivity.
  rewrite andb_false_r. discriminate.
Qed.

Lemma kept_number_head (x : Float64.t) :
  kept_number x = true ->
  exists c tail, Float64.toString x = c :: tail /\ (c = 45 \/ 48 <= c <= 57).
Proof.
  intros Hkept. destruct (toString_head x) as (c & tail & E & Hc).
  exists c, tail. split; [exact E|].
  destruct Hc as [Hc|[Hc|Hc]]; [left; exact Hc| |right; exact Hc].
  subst c. exfalso.
  destruct x as [negative|negative m e|negative].
  - discriminate E.
  - cbn [Float64.toString] in E. destruct (Float64.decimal_of negative m e) as [s p].
    destruct negative; [discriminate E|]. cbn [app] in E.
    destruct (digits_head s) as (d & t & Ed & Hd).
    unfold Float64.format in E. cbv zeta in E. rewrite Ed in E.
    destruct ((Z.of_nat (length (d :: t)) <=? p + Z.of_nat (length (d :: t)))
              && (p + Z.of_nat (length (d :: t)) <=? 21)).
    { injection E as E _. lia. }
    destruct ((0 <? p + Z.of_nat (length (d :: t)))
              && (p + Z.of_nat (length (d :: t)) <=? 21)) eqn:C2.
    { apply andb_true_iff in C2. destruct C2 as [C2 _]. apply Z.ltb_lt in C2.
      destruct (Z.to_nat (p + Z.of_nat (length (d :: t)))) as [|j] eqn:En; [lia|].
      cbn [firstn app] in E. injection E as E _. lia. }
    destruct ((-6 <? p + Z.of_nat (length (d :: t)))
              && (p + Z.of_nat (length (d :: t)) <=? 0)).
    { discriminate E. }
    destruct t; injection E as E _; lia.
  - unfold kept_number in Hkept. rewrite andb_false_r in Hkept. discriminate.
Qed.

Lemma parse_value_number (x : Float64.t) :
  kept_number x = true -> reads_back (JNumber x).
Proof.
  intros Hkept fuel rest Hfuel Hrest.
  destruct fuel as [|fuel]; [simpl in Hfuel; lia|].
  pose proof (parse_number_toString x rest Hkept Hrest) as H.
  cbn [stringify]. rewrite (kept_number_finite x Hkept).
  destruct (kept_number_head x Hkept) as (c & tail & E & Hc).
  rewrite E in *. cbn [app] in *. cbn [parse_value].
  assert (Hws : is_ws c = false).
  { unfold is_ws. rewrite !orb_false_iff, !Z.eqb_neq. lia. }
  rewrite skip_ws_head by exact Hws.
  rewrite (proj2 (Z.eqb_neq c 34)), (proj2 (Z.eqb_neq c 91)),
          (proj2 (Z.eqb_neq c 123)), (proj2 (Z.eqb_neq c 110)),
          (proj2 (Z.eqb_neq c 116)), (proj2 (Z.eqb_neq c 102)) by lia.
  exact H.
Qed.

Lemma parse_value_string (s : jsstring) :
  forallb is_code_unit s = true -> reads_back (JString s).
Proof.
  intros Hwf fuel rest Hfuel _. destruct fuel as [|fuel]; [simpl in Hfuel; lia|].
  cbn [stringify]. unfold quote. cbn [app parse_value skip_ws is_ws Z.eqb Pos.eqb orb].
  rewrite <- app_assoc. cbn [app].
  rewrite parse_quote_chars by exact Hwf. reflexivity.
Qed.

Lemma join_cons (x : jsstring) (y : jsstring) (l : list jsstring) :
  join (x :: y :: l) = x ++ 44 :: join (y :: l).
Proof. reflexivity. Qed.

Lemma parse_elements_join (l : list value) :
  l <> [] ->
  Forall (fun v => well_formed v = true -> reads_back v) l ->
  forallb well_formed l = true ->
  forall (fuel : nat) (rest : jsstring),
    (list_sum (map (fun x => S (size x)) l) <= fuel)%nat ->
    parse_elements fuel (join (map stringify l) ++ 93 :: rest) = Some (l, rest).
Proof.
  intros Hne Hall. induction Hall as [|x l Hx Hl IH]; [contradiction|].
  intros Hwf fuel rest Hfuel.
  cbn [forallb] in Hwf. apply andb_true_iff in Hwf. destruct Hwf as [Hwx Hwl].
  cbn [map list_sum fold_right] in Hfuel. fold (list_sum (map (fun x => S (size x)) l)) in Hfuel.
  destruct fuel as [|fuel]; [lia|]. cbn [parse_elements].
  destruct l as [|y l].
  - cbn [map join]. rewrite (Hx Hwx) by (simpl in *; first [lia|reflexivity]).
    reflexivity.
  - cbn [map]. rewrite join_cons, <- app_assoc. cbn [app].
    rewrite (Hx Hwx) by first [lia|reflexivity].
    cbn [skip_ws is_ws Z.eqb Pos.eqb orb].
    change (stringify y :: map stringify l) with (map stringify (y :: l)).
    rewrite IH by first [discriminate|exact Hwl|lia]. reflexivity.
Qed.

Lemma parse_members_join (m : list (jsstring * value)) :
  m <> [] ->
  Forall (fun kv => well_formed (snd kv) = true -> reads_back (snd kv)) m ->
  forallb (fun kv => forallb is_code_unit (fst kv) && well_formed (snd kv)) m = true ->
  forall (fuel : nat) (rest : jsstring),
    (list_sum (map (fun kv => S (size (snd kv))) m) <= fuel)%nat ->
    parse_members fuel
      (join (map (fun kv => quote (fst kv) ++ 58 :: stringify (snd kv)) m)
         ++ 125 :: rest)
    = Some (m, rest).
Proof.
  intros Hne Hall. induction Hall as [|[k x] m Hx Hm IH]; [contradiction|].
  intros Hwf fuel rest Hfuel.
  cbn [forallb fst snd] in Hwf. apply andb_true_iff in Hwf.
  destruct Hwf as [Hwx Hwm]. apply andb_true_iff in Hwx. destruct Hwx as [Hwk Hwx].
  cbn [map list_sum fold_right snd] in Hfuel.
  fold (list_sum (map (fun kv => S (size (snd kv))) m)) in Hfuel.
  cbn [snd] in Hx.
  destruct fuel as [|fuel]; [lia|]. cbn [parse_members].
  destruct m as [|y m].
  - cbn [map join fst snd]. unfold quote.
    cbn [app skip_ws is_ws Z.eqb Pos.eqb orb].
    repeat (rewrite <- app_assoc; cbn [app]).
    rewrite parse_quote_chars by exact Hwk.
    cbn [skip_ws is_ws Z.eqb Pos.eqb orb].
    rewrite (Hx Hwx) by (simpl in *; first [lia|reflexivity]).
    reflexivity.
  - cbn [map]. rewrite join_cons. cbn [fst snd]. unfold quote at 1.
    cbn [app skip_ws is_ws Z.eqb Pos.eqb orb].
    repeat (rewrite <- app_assoc; cbn [app]).
    rewrite parse_quote_chars by exact Hwk.
    cbn [skip_ws is_ws Z.eqb Pos.eqb orb].
    rewrite (Hx Hwx) by first [lia|reflexivity].
    cbn [skip_ws is_ws Z.eqb Pos.eqb orb].
    change ((quote (fst y) ++ 58 :: stringify (snd y))
              :: map (fun kv => quote (fst kv) ++ 58 :: stringify (snd kv)) m)
      with (map (fun kv => quote (fst kv) ++ 58 :: stringify (snd kv)) (y :: m)).
    rewrite IH by first [discriminate|exact Hwm|lia]. reflexivity.
Qed.

Lemma join_head (x : jsstring) (l : list jsstring) (tail : jsstring) :
  exists tail', join (x :: l) ++ tail = x ++ tail'.
Proof.
  destruct l as [|y l].
  - exists tail. reflexivity.
  - rewrite join_cons, <- app_assoc. eexists. reflexivity.
Qed.

Lemma parse_value_array (fuel : nat) (r rest : jsstring) (l : list value) :
  parse_elements fuel r = Some (l, rest) ->
  (exists c tail, r = c :: tail /\ is_ws c = false /\ c <> 93) ->
  parse_value (S fuel) (91 :: r) = Some (JArray l, rest).
Proof.
  intros H (c & tail & -> & Hws & H93).
  cbn [parse_value skip_ws]. change (is_ws 91) with false. cbv iota.
  change (91 =? 34) with false. change (91 =? 91) with true. cbv iota.
  rewrite skip_ws_head by exact Hws.
  rewrite (proj2 (Z.eqb_neq c 93) H93), H. reflexivity.
Qed.

Lemma define_new (key : jsstring) (v : value) (members : list (jsstring * value)) :
  forallb (fun m => negb (str_eqb (fst m) key) && negb (precedes key (fst m))) members
    = true ->
  define key v members = members ++ [(key, v)].
Proof.
  induction members as [|[k w] members IH]; [reflexivity|].
  cbn [forallb fst]. intros H. apply andb_true_iff in H. destruct H as [H Hrest].
  apply andb_true_iff in H. destruct H as [Hk Hp].
  apply negb_true_iff in Hk, Hp.
  cbn [define app]. rewrite Hk, Hp, (IH Hrest). reflexivity.
Qed.

Lemma ordered_app (a b : list (jsstring * value)) :
  ordered (a ++ b) = true ->
  ordered a = true /\ ordered b = true
  /\ Forall (fun x => forallb (fun m => negb (str_eqb (fst x) (fst m))
                                        && negb (precedes (fst m) (fst x))) b = true) a.
Proof.
  induction a as [|[k w] a IH]; cbn [app ordered].
  - intros H. repeat split; [exact H|constructor].
  - intros H. apply andb_true_iff in H. destruct H as [Hk Hrest].
    rewrite forallb_app in Hk. apply andb_true_iff in Hk. destruct Hk as [Hka Hkb].
    destruct (IH Hrest) as (Ha & Hb & Hall).
    rewrite Hka, Ha. repeat split; [exact Hb|]. constructor; assumption.
Qed.

(** The members of an object, read from left to right, give the object. *)
Lemma object_of_ordered (members : list (jsstring * value)) :
  ordered members = true -> object_of members = members.
Proof.
  unfold object_of.
  assert (H : forall acc, ordered (acc ++ members) = true ->
              fold_left (fun object m => define (fst m) (snd m) object) members acc
              = acc ++ members).
  { induction members as [|[k v] members IH]; intros acc Hord.
    - cbn. rewrite app_nil_r. reflexivity.
    - cbn [fold_left fst snd].
      destruct (ordered_app acc ((k, v) :: members) Hord) as (_ & _ & Hall).
      rewrite define_new.
      + rewrite IH; rewrite <- app_assoc; [reflexivity|exact Hord].
      + clear IH Hord. induction Hall as [|[k' w'] acc Hx Hall IH']; [reflexivity|].
        cbn [forallb fst] in *. apply andb_true_iff in Hx. destruct Hx as [Hx _].
        rewrite Hx, IH'. reflexivity. }
  intros Hord. apply (H []). exact Hord.
Qed.

Lemma parse_value_object (fuel : nat) (r rest : jsstring)
      (l : list (jsstring * value)) :
  parse_members fuel r = Some (l, rest) ->
  (exists tail, r = 34 :: tail) ->
  parse_value (S fuel) (123 :: r) = Some (JObject (object_of l), rest).
Proof.
  intros H (tail & ->).
  cbn [parse_value skip_ws is_ws Z.eqb Pos.eqb orb].
  rewrite H. reflexivity.
Qed.

(** Every well-formed value is read back from its text. *)
Lemma parse_value_stringify (v : value) : well_formed v = true -> reads_back v.
Proof.
  induction v as [|b|n|s|l IH|m IH] using value_ind_nested; intros Hwf.
  - intros [|fuel] rest Hfuel _; [simpl in Hfuel; lia|reflexivity].
  - intros [|fuel] rest Hfuel _; [simpl in Hfuel; lia|destruct b; reflexivity].
  - apply parse_value_number, Hwf.
  - apply parse_value_string, Hwf.
  - intros fuel rest Hfuel _. cbn [well_formed] in Hwf. cbn [size] in Hfuel.
    destruct fuel as [|fuel]; [lia|].
    destruct l as [|x l]; [reflexivity|].
    cbn [stringify app]. rewrite <- app_assoc. cbn [app].
    apply parse_value_array.
    + apply parse_elements_join; [discriminate|exact IH|exact Hwf|lia].
    + destruct (join_head (stringify x) (map stringify l) (93 :: rest)) as [t Ht].
      destruct (stringify_head x) as (c & tail & Ec & Hws & H93 & _).
      exists c, (tail ++ t). split; [|split; assumption].
      etransitivity; [exact Ht|]. rewrite Ec. reflexivity.
  - intros fuel rest Hfuel _. cbn [well_formed] in Hwf. cbn [size] in Hfuel.
    apply andb_true_iff in Hwf. destruct Hwf as [Hwf Hord].
    destruct fuel as [|fuel]; [lia|].
    destruct m as [|[k x] m]; [reflexivity|].
    cbn [stringify app]. rewrite <- app_assoc. cbn [app].
    rewrite <- (object_of_ordered _ Hord) at 2.
    apply parse_value_object.
    + apply parse_members_join; [discriminate|exact IH|exact Hwf|lia].
    + destruct (join_head (quote k ++ 58 :: stringify x)
                  (map (fun kv => quote (fst kv) ++ 58 :: stringify (snd kv)) m)
                  (125 :: rest)) as [t Ht].
      eexists. etransitivity; [exact Ht|]. reflexivity.
Qed.

Lemma join_length (A : Type) (f : A -> nat) (g : A -> jsstring) (l : list A) :
  Forall (fun a => (f a <= length (g a))%nat) l ->
  (list_sum (map (fun a => S (f a)) l) <= length (join (map g l)) + 1)%nat.
Proof.
  intros H. induction H as [|a l Ha Hl IH]; [simpl; lia|].
  cbn [map list_sum fold_right]. fold (list_sum (map (fun a => S (f a)) l)).
  destruct l as [|b l].
  - cbn [map join list_sum fold_right]. lia.
  - cbn [map]. rewrite join_cons, length_app. cbn [length].
    cbn [map] in IH. lia.
Qed.

Lemma size_le_length (v : value) : (size v <= length (stringify v))%nat.
Proof.
  induction v as [|b|n|s|l IH|m IH] using value_ind_nested.
  - simpl. lia.
  - destruct b; simpl; lia.
  - cbn [size stringify]. destruct (stringify_head (JNumber n)) as (c & tail & E & _).
    cbn [stringify] in E. rewrite E. simpl. lia.
  - cbn [size stringify]. unfold quote. simpl. lia.
  - cbn [size stringify length]. rewrite length_app. cbn [length].
    pose proof (join_length _ size stringify l IH). lia.
  - cbn [size stringify length]. rewrite length_app. cbn [length].
    assert (H : Forall (fun kv : jsstring * value =>
                (size (snd kv) <= length (quote (fst kv) ++ 58%Z :: stringify (snd kv)))%nat) m).
    { eapply Forall_impl; [|exact IH]. intros [k x]. cbn [fst snd].
      rewrite length_app. cbn [length]. lia. }
    pose proof (join_length _ (fun kv => size (snd kv))
                  (fun kv => quote (fst kv) ++ 58 :: stringify (snd kv)) m H) as HJ.
    cbv beta in HJ. lia.
Qed.

(** [JSON.parse(JSON.stringify(v))] is [v]. *)
Lemma parse_stringify (v : value) :
  well_formed v = true -> parse (stringify v) = Some v.
Proof.
  intros Hwf. unfold parse.
  pose proof (parse_value_stringify v Hwf (2 * length (stringify v) + 2)%nat []) as H.
  rewrite app_nil_r in H. rewrite H.
  - reflexivity.
  - pose proof (size_le_length v). lia.
  - reflexivity.
Qed.

End JSONFacts.

Section JSONExamples.
Import JSON.

(** Numbers with a fraction or an exponent; an integer beyond 2^53, rounded
    to the nearest Number; a numeral beyond every Number, an infinity,
    which is written [null]; and -0, which is written [0]. *)
Example parse_numbers :
  option_map stringify
    (parse (str "[0.5, 1e3, 1.50, 9007199254740993, 1e400, -0, 0.1, 1E+21, 1e-7]"))
  = Some (str "[0.5,1000,1.5,9007199254740992,null,0,0.1,1e+21,1e-7]").
Proof. vm_compute. reflexivity. Qed.

(** Of two members with the same name the later one gives the value, at
    the place of the first; a key that is an array index comes first. *)
Example parse_duplicate_members :
  parse (123 :: quote (str "b") ++ 58 :: 49 :: 44
           :: quote (str "2") ++ 58 :: 50 :: 44
           :: quote (str "b") ++ 58 :: 51 :: [125])
  = Some (JObject [(str "2", JNumber (Float64.of_Z 2));
                   (str "b", JNumber (Float64.of_Z 3))]).
Proof. vm_compute. reflexivity. Qed.

(** What is no JSON text. *)
Example parse_rejects :
  map parse
    [str "01"; str "1."; str ".5"; str "1e"; str "-"; str "+1"; str "[1,]";
     str "nul"; str "1 2"; []]
  = [None; None; None; None; None; None; None; None; None; None].
Proof. vm_compute. reflexivity. Qed.

End JSONExamples.


(** ** Strings *)

Section StringFacts.

Lemma str_eqb_eq (a b : jsstring) : str_eqb a b = true <-> a = b.
Proof.
  revert b. induction a as [|x a IH]; intros [|y b]; simpl;
    try (split; [discriminate|discriminate]); [split; reflexivity|].
  rewrite andb_true_iff, Z.eqb_eq, IH. split.
  - intros [-> ->]. reflexivity.
  - intros H. injection H as -> ->. split; reflexivity.
Qed.

Lemma str_eqb_refl (a : jsstring) : str_eqb a a = true.
Proof. apply str_eqb_eq. reflexivity. Qed.

Lemma str_eqb_neq (a b : jsstring) : str_eqb a b = false <-> a <> b.
Proof.
  rewrite <- str_eqb_eq. destruct (str_eqb a b); split; congruence.
Qed.

End StringFacts.

(** ** The transcript accumulator *)

Section TranscriptFacts.
Import App.

Lemma set_inputText_same (s : State) : set_inputText (inputText s) s = s.
Proof. destruct s. reflexivity. Qed.

Lemma set_inputText_twice (a b : jsstring) (s : State) :
  set_inputText a (set_inputText b s) = set_inputText a s.
Proof. reflexivity. Qed.

Lemma onmessage_transcript (fragment : jsstring) (s : State) :
  onmessage (transcriptMessage fragment) s
  = set_inputText (inputText s ++ fragment) s.
Proof.
  unfold onmessage, transcriptMessage. cbn.
  destruct fragment as [|c fragment]; cbn [Web.nonempty]; [|reflexivity].
  rewrite app_nil_r, set_inputText_same. reflexivity.
Qed.

(** C3. Fragments f1, ..., fn delivered in order leave in the input buffer
    its former content followed by f1 + ... + fn (the concatenation itself
    when the buffer was empty), each fragment verbatim and in arrival order;
    nothing else of the state changes, and with no fragment the state is the
    same. *)
Theorem transcript_fragments_concatenate (fragments : list jsstring) (s : State) :
  deliver (map transcriptMessage fragments) s
    = set_inputText (inputText s ++ concat fragments) s
  /\ inputText (deliver (map transcriptMessage fragments) s)
     = inputText s ++ concat fragments
  /\ inputText (deliver (map transcriptMessage fragments) (set_inputText [] s))
     = concat fragments
  /\ deliver (map transcriptMessage []) s = s.
Proof.
  assert (H : forall st, deliver (map transcriptMessage fragments) st
                         = set_inputText (inputText st ++ concat fragments) st).
  { unfold deliver. induction fragments as [|f l IH]; intros st.
    - cbn [map fold_left concat]. rewrite app_nil_r, set_inputText_same. reflexivity.
    - cbn [map fold_left concat]. rewrite onmessage_transcript, IH.
      cbn [inputText set_inputText]. rewrite <- app_assoc. reflexivity. }
  split; [apply H|]. split; [rewrite H; reflexivity|].
  split; [rewrite H; reflexivity|reflexivity].
Qed.

End TranscriptFacts.

(** ** History *)

Section HistoryFacts.
Import App.

Lemma deleteHistoryItem_removes (id : jsstring) (h : list HistoryItem.t) :
  RemovesExactly id h (deleteHistoryItem id h).
Proof.
  unfold deleteHistoryItem. induction h as [|item h IH]; cbn [filter].
  - constructor.
  - destruct (str_eqb (HistoryItem.id item) id) eqn:E; cbn [negb].
    + apply removes_drop; [apply str_eqb_eq, E|exact IH].
    + apply removes_keep; [apply str_eqb_neq, E|exact IH].
Qed.

Lemma RemovesExactly_functional (id : jsstring) (h a b : list HistoryItem.t) :
  RemovesExactly id h a -> RemovesExactly id h b -> a = b.
Proof.
  intros Ha. revert b. induction Ha as [|item h a E Ha IH|item h a E Ha IH];
    intros b Hb; inversion Hb; subst;
    first [reflexivity | congruence | apply IH; assumption
          | f_equal; apply IH; assumption].
Qed.

(** C7. Deleting by id removes exactly the entries with that id: an entry
    is in the new history if and only if it was in the old one under another
    id, the kept entries are unchanged and in the same relative order, and
    no other part of the state changes. *)
Theorem handleDeleteHistoryItem_exact (id : jsstring) (s : State) :
  RemovesExactly id (history s) (history (handleDeleteHistoryItem id s))
  /\ (forall item : HistoryItem.t,
        In item (history (handleDeleteHistoryItem id s))
        <-> In item (history s) /\ HistoryItem.id item <> id)
  /\ (forall l1 l2 : list HistoryItem.t,
        deleteHistoryItem id (l1 ++ l2)
        = deleteHistoryItem id l1 ++ deleteHistoryItem id l2)
  /\ handleDeleteHistoryItem id s
     = set_history (history (handleDeleteHistoryItem id s)) s.
Proof.
  split; [apply deleteHistoryItem_removes|]. split; [|split].
  - intros item. cbn [handleDeleteHistoryItem history set_history].
    unfold deleteHistoryItem. rewrite filter_In, negb_true_iff, str_eqb_neq.
    reflexivity.
  - intros l1 l2. unfold deleteHistoryItem. apply filter_app.
  - reflexivity.
Qed.

End HistoryFacts.

(** ** The enhancement chips *)

Section GoldenCardFacts.
Import GoldenCard.

Lemma endsWith_app (p t : jsstring) : endsWith (p ++ t) t = true.
Proof.
  unfold endsWith. rewrite length_app.
  destruct (Z.ltb_spec (Z.of_nat (length p + length t) - Z.of_nat (length t)) 0);
    [lia|].
  replace (Z.to_nat (Z.of_nat (length p + length t) - Z.of_nat (length t)))
    with (length p) by lia.
  rewrite skipn_app, skipn_all, Nat.sub_diag. cbn [skipn app].
  apply str_eqb_refl.
Qed.

Lemma endsWith_suffix (p t : jsstring) :
  endsWith p t = true <-> exists q, p = q ++ t.
Proof.
  split.
  - unfold endsWith.
    destruct (Z.ltb_spec (Z.of_nat (length p) - Z.of_nat (length t)) 0);
      [discriminate|].
    intros E. apply str_eqb_eq in E.
    exists (firstn (Z.to_nat (Z.of_nat (length p) - Z.of_nat (length t))) p).
    rewrite <- E at 2. symmetry. apply firstn_skipn.
  - intros [q ->]. apply endsWith_app.
Qed.

(** C10. A prompt that already ends with the snippet is left unchanged, so
    applying the same snippet twice in a row gives what applying it once
    gives. *)
Theorem handleEnhance_idempotent (p t : jsstring) :
  (endsWith p t = true -> handleEnhance t p = p)
  /\ endsWith (handleEnhance t p) t = true
  /\ handleEnhance t (handleEnhance t p) = handleEnhance t p.
Proof.
  assert (Hends : endsWith (handleEnhance t p) t = true).
  { unfold handleEnhance. destruct (endsWith p t) eqn:E; [exact E|apply endsWith_app]. }
  split; [|split].
  - intros E. unfold handleEnhance. rewrite E. reflexivity.
  - exact Hends.
  - unfold handleEnhance at 1. rewrite Hends. reflexivity.
Qed.

(** The chip [' Format output as JSON.'] on a prompt that ends with it. *)
Lemma handleEnhance_idempotent_witness :
  handleEnhance (str " Format output as JSON.")
                (str "A red kite. Format output as JSON.")
    = str "A red kite. Format output as JSON."
  /\ handleEnhance (str " Format output as JSON.")
       (handleEnhance (str " Format output as JSON.") (str "A red kite."))
     = handleEnhance (str " Format output as JSON.") (str "A red kite.").
Proof.
  split.
  - destruct (handleEnhance_idempotent (str "A red kite. Format output as JSON.")
                (str " Format output as JSON.")) as [H _].
    apply H. reflexivity.
  - destruct (handleEnhance_idempotent (str "A red kite.")
                (str " Format output as JSON.")) as (_ & _ & H).
    exact H.
Defined.

End GoldenCardFacts.

(** ** The audio teardown and the recording controller *)

Section TeardownFrame.
Import Web Api App.

Variable host : Host.

Lemma alertsOf_app (a b : list Effect) : alertsOf (a ++ b) = alertsOf a ++ alertsOf b.
Proof. apply flat_map_app. Qed.

Lemma alertsOf_released (calls : list ReleaseCall) : alertsOf (map Released calls) = [].
Proof. induction calls as [|c l IH]; [reflexivity|exact IH]. Qed.

Lemma keeps_ret (A : Type) (a : A) : keepsFlagAndAlerts (ret a).
Proof. intros s. split; reflexivity. Qed.

Lemma keeps_call (A : Type) (r : Result A) : keepsFlagAndAlerts (call r).
Proof. intros s. split; reflexivity. Qed.

Lemma keeps_gets (A : Type) (f : State -> A) : keepsFlagAndAlerts (gets f).
Proof. intros s. split; reflexivity. Qed.

Lemma keeps_bind (A B : Type) (m : M A) (k : A -> M B) :
  keepsFlagAndAlerts m -> (forall a, keepsFlagAndAlerts (k a)) ->
  keepsFlagAndAlerts (bind m k).
Proof.
  intros Hm Hk s. unfold bind. specialize (Hm s).
  destruct (m s) as [[a|e] s1]; cbn [snd] in Hm.
  - destruct (Hk a s1) as [H1 H2]. destruct Hm as [H3 H4]. split; congruence.
  - exact Hm.
Qed.

Lemma keeps_release (c : ReleaseCall) : keepsFlagAndAlerts (release host c).
Proof.
  intros s. unfold release. destruct (releaseThrows host c) as [e|].
  - split; reflexivity.
  - unfold modify, emit. cbn [snd isRecording trace set_trace].
    split; [reflexivity|]. rewrite alertsOf_app. cbn. apply app_nil_r.
Qed.

Lemma keeps_clear (f : State -> State) :
  (forall s, isRecording (f s) = isRecording s /\ trace (f s) = trace s) ->
  keepsFlagAndAlerts (modify f).
Proof.
  intros Hf s. unfold modify. cbn [snd]. destruct (Hf s) as [H1 H2].
  split; [exact H1|]. rewrite H2. reflexivity.
Qed.

Lemma keeps_when (A : Type) (o : option A) (f : A -> M unit) :
  (forall a, keepsFlagAndAlerts (f a)) -> keepsFlagAndAlerts (when o f).
Proof. intros Hf. destruct o as [a|]; [apply Hf|apply keeps_ret]. Qed.

Lemma keeps_forEach (A : Type) (l : list A) (f : A -> M unit) :
  (forall a, keepsFlagAndAlerts (f a)) -> keepsFlagAndAlerts (forEach l f).
Proof.
  intros Hf. induction l as [|a l IH]; cbn [forEach].
  - apply keeps_ret.
  - apply keeps_bind; [apply Hf|intros _; exact IH].
Qed.

(** Whatever the release calls do, the teardown neither sets the
    recording flag nor shows an alert. *)
Lemma keeps_cleanupAudio : keepsFlagAndAlerts (cleanupAudio host).
Proof.
  unfold cleanupAudio.
  repeat first
    [ apply keeps_bind; [|intros ?]
    | apply keeps_gets
    | apply keeps_when; intros ?
    | apply keeps_forEach; intros ?
    | apply keeps_release
    | apply keeps_clear; intros ?; split; reflexivity ].
Qed.

(** There is no handler inside the teardown: when the release call of the
    first held resource throws, the teardown throws with the state as it
    was. *)
Lemma cleanupAudio_throw_aborts (s : State) (p : AudioNode) (e : jsstring) :
  processorRef s = Some p ->
  releaseThrows host (NodeDisconnect p) = Some e ->
  cleanupAudio host s = (Threw e, s).
Proof.
  intros Hheld Hthrows. unfold cleanupAudio, bind, gets, when.
  rewrite Hheld. unfold release. rewrite Hthrows. reflexivity.
Qed.

(** A failing [try] block throws without having written to the trace. *)
Lemma startRecording_try_fails (s : State) :
  acquisitionFails host = true ->
  exists (e : jsstring) (s1 : State),
    startRecording_try host s = (Threw e, s1) /\ trace s1 = trace s.
Proof.
  unfold acquisitionFails, startRecording_try, startRecording_begin,
    startRecording_resume, bind, modify, call.
  destruct (getUserMedia host) as [stream|e1]; [|intros _; eexists; eexists; split; reflexivity].
  destruct (newAudioContext host) as [ctx|e2]; [|intros _; eexists; eexists; split; reflexivity].
  destruct (createMediaStreamSource host) as [src|e3]; [|intros _; eexists; eexists; split; reflexivity].
  destruct (createScriptProcessor host) as [proc|e4]; [|intros _; eexists; eexists; split; reflexivity].
  destruct (sourceConnect host) as [[]|e5]; [|intros _; eexists; eexists; split; reflexivity].
  destruct (processorConnect host) as [[]|e6]; [discriminate|intros _; eexists; eexists; split; reflexivity].
Qed.

End TeardownFrame.

Section AudioFacts.
Import Web Api App.

Variable host : Host.
Hypothesis release_never_throws : forall c, releaseThrows host c = None.

Lemma set_trace_same (s : State) : set_trace (trace s) s = s.
Proof. destruct s. reflexivity. Qed.

Lemma release_ok (c : ReleaseCall) (s : State) :
  release host c s = (Returned tt, emit (Released c) s).
Proof. unfold release. rewrite release_never_throws. reflexivity. Qed.

Lemma forEach_release_ok (tracks : list MediaStreamTrack) (s : State) :
  forEach tracks (fun track => release host (TrackStop track)) s
  = (Returned tt, emit_all (map (fun t => Released (TrackStop t)) tracks) s).
Proof.
  revert s. induction tracks as [|t l IH]; intros s.
  - cbn [forEach map]. unfold ret, emit_all. rewrite app_nil_r, set_trace_same.
    reflexivity.
  - cbn [forEach map]. unfold bind. rewrite release_ok, IH.
    unfold emit_all, emit. cbn [trace set_trace]. rewrite <- app_assoc.
    reflexivity.
Qed.

Lemma emit_all_nil (s : State) : emit_all [] s = s.
Proof. unfold emit_all. rewrite app_nil_r. apply set_trace_same. Qed.

(** One guarded release of the teardown, followed by the rest [k]. *)
Lemma guarded_release {A : Type} (ref : State -> option A)
      (calls : A -> list ReleaseCall) (body : A -> M unit)
      (clear : State -> State) (k : M unit) (s : State) :
  (forall a st, ref st = Some a ->
     body a st = (Returned tt, clear (emit_all (map Released (calls a)) st))) ->
  (forall st, ref st = None -> clear st = st) ->
  (o <- gets ref ;; when o body ;; k) s
  = k (clear (emit_all (map Released
                          (match ref s with Some a => calls a | None => [] end)) s)).
Proof.
  intros Hsome Hnone. unfold bind at 1, gets. unfold bind at 1, when.
  destruct (ref s) as [a|] eqn:E.
  - rewrite (Hsome a s E). reflexivity.
  - cbn [map]. rewrite emit_all_nil, (Hnone s E). reflexivity.
Qed.

Lemma guarded_release_last {A : Type} (ref : State -> option A)
      (calls : A -> list ReleaseCall) (body : A -> M unit)
      (clear : State -> State) (s : State) :
  (forall a st, ref st = Some a ->
     body a st = (Returned tt, clear (emit_all (map Released (calls a)) st))) ->
  (forall st, ref st = None -> clear st = st) ->
  (o <- gets ref ;; when o body) s
  = (Returned tt,
     clear (emit_all (map Released
                        (match ref s with Some a => calls a | None => [] end)) s)).
Proof.
  intros Hsome Hnone. unfold bind, gets, when.
  destruct (ref s) as [a|] eqn:E.
  - rewrite (Hsome a s E). reflexivity.
  - cbn [map]. rewrite emit_all_nil, (Hnone s E). reflexivity.
Qed.

Lemma cleanupAudio_ok (s : State) :
  cleanupAudio host s = (Returned tt, cleared (map Released (heldReleaseCalls s)) s).
Proof.
  unfold cleanupAudio.
  rewrite (guarded_release processorRef (fun p => [NodeDisconnect p]) _
             (set_processorRef None)).
  2: { intros p st _. unfold bind, modify. rewrite release_ok. reflexivity. }
  2: { intros [] E; cbn in E; subst; reflexivity. }
  rewrite (guarded_release sourceRef (fun n => [NodeDisconnect n]) _
             (set_sourceRef None)).
  2: { intros n st _. unfold bind, modify. rewrite release_ok. reflexivity. }
  2: { intros [] E; cbn in E; subst; reflexivity. }
  rewrite (guarded_release streamRef (fun m => map TrackStop (getTracks m)) _
             (set_streamRef None)).
  2: { intros m st _. unfold bind, modify. rewrite forEach_release_ok, map_map.
       reflexivity. }
  2: { intros [] E; cbn in E; subst; reflexivity. }
  rewrite (guarded_release_last audioContextRef (fun c => [ContextClose c]) _
             (set_audioContextRef None)).
  2: { intros c st _. unfold bind, modify. rewrite release_ok. reflexivity. }
  2: { intros [] E; cbn in E; subst; reflexivity. }
  f_equal.
  destruct s as [it ug cs h iho ir ac st pr sr ctr sp ls tr].
  unfold heldReleaseCalls, cleared, emit_all.
  cbn [set_processorRef set_sourceRef set_streamRef set_audioContextRef set_trace
       trace processorRef sourceRef streamRef audioContextRef
       inputText useGrounding conversionState history isHistoryOpen isRecording
       currentTranscriptionRef sessionPromise localStorage].
  f_equal. rewrite !map_app, <- !app_assoc. reflexivity.
Qed.


Lemma cleared_allReleased (effects : list Effect) (s : State) :
  allReleased (cleared effects s).
Proof. repeat split. Qed.


End AudioFacts.

(** C5 (amended). When a step of the [try] block fails (the microphone is
    refused, or building or wiring the audio graph throws), [startRecording]
    ends with the recording flag false and exactly one more alert shown, the
    microphone one; when moreover no release call throws, it returns
    normally with the four references cleared. *)
Theorem startRecording_failure_aborts (host : App.Host) (s : App.State) :
  App.acquisitionFails host = true ->
  App.isRecording (snd (App.startRecording host s)) = false
  /\ App.alertsOf (App.trace (snd (App.startRecording host s)))
     = App.alertsOf (App.trace s) ++ [App.MICROPHONE_ALERT]
  /\ ((forall c, App.releaseThrows host c = None) ->
      fst (App.startRecording host s) = Web.Returned tt
      /\ App.allReleased (snd (App.startRecording host s))).
Proof.
  intros Hfail.
  destruct (startRecording_try_fails host s Hfail) as (e & s1 & Htry & Htrace).
  set (s2 := App.set_isRecording false
               (App.emit (Api.Alert App.MICROPHONE_ALERT)
                  (App.emit (Api.ConsoleError (str "Microphone Access Error:") e) s1))).
  assert (Hrun : App.startRecording host s = App.cleanupAudio host s2).
  { unfold App.startRecording, App.try_catch. rewrite Htry. reflexivity. }
  rewrite Hrun.
  destruct (keeps_cleanupAudio host s2) as [Hflag Halerts].
  split; [rewrite Hflag; reflexivity|]. split.
  - rewrite Halerts. unfold s2, App.emit.
    cbn [App.trace App.set_trace App.set_isRecording].
    rewrite !alertsOf_app, Htrace. cbn [App.alertsOf flat_map app].
    rewrite app_nil_r. reflexivity.
  - intros Hrelease. rewrite (cleanupAudio_ok host Hrelease).
    split; [reflexivity|apply cleared_allReleased].
Qed.

Section AudioExamples.
Import Web Api App Scenario.



(** A refused microphone: flag off, one alert, nothing held. *)
Lemma startRecording_failure_aborts_witness :
  isRecording (snd (startRecording deniedHost idle)) = false
  /\ alertsOf (trace (snd (startRecording deniedHost idle)))
     = alertsOf (trace idle) ++ [MICROPHONE_ALERT]
  /\ fst (startRecording deniedHost idle) = Returned tt
  /\ allReleased (snd (startRecording deniedHost idle)).
Proof.
  destruct (startRecording_failure_aborts deniedHost idle eq_refl)
    as (Hflag & Halert & Hrelease).
  destruct (Hrelease (fun c => eq_refl)) as [Hreturned Hcleared].
  repeat split; assumption.
Defined.

(** C5, as stated, fails for a session failure: the rejected promise of
    [connectToLiveSession] is not seen by the [try] block, so
    [startRecording] returns with the recording flag true, the four
    resources held and no alert; a later audio block only logs the
    rejection. *)
Lemma startRecording_session_failure_uncaught :
  connectToLiveSession sessionRefusedHost = Threw (str "WebSocket connection failed")
  /\ fst (startRecording sessionRefusedHost idle) = Returned tt
  /\ isRecording (snd (startRecording sessionRefusedHost idle)) = true
  /\ heldReleaseCalls (snd (startRecording sessionRefusedHost idle))
     = [NodeDisconnect processorNode; NodeDisconnect sourceNode;
        TrackStop {| trackId := 1 |}; ContextClose context]
  /\ alertsOf (trace (snd (startRecording sessionRefusedHost idle))) = []
  /\ isRecording (onaudioprocess sessionRefusedHost [Finite 0]
                    (snd (startRecording sessionRefusedHost idle))) = true
  /\ trace (onaudioprocess sessionRefusedHost [Finite 0]
              (snd (startRecording sessionRefusedHost idle)))
     = [ConsoleError (str "Session send error") (str "WebSocket connection failed")].
Proof. repeat split. Qed.

End AudioExamples.

(** ** The chat panel *)

Section ChatFacts.
Import Web Api ChatBot.

(** C9 (amended). When the chat call throws, [sendChatMessage] throws again
    with the same message and [handleSend] catches it: the message goes to
    the console only. The chat window shows the user's message, an empty
    input field and no loading dots, whatever the error was. *)
Theorem handleSend_failure_goes_to_console (host : Host) (s : State) (error : jsstring) :
  trim_is_empty (input s) = false -> isLoading s = false ->
  sendMessage host (formatHistory (messages s)) (input s) = Threw error ->
  fst (GeminiService.sendChatMessage (sendMessage host)
         (formatHistory (messages s)) (input s)) = Threw error
  /\ messages (handleSend host s) = messages s ++ [userMessage host s]
  /\ rendered (handleSend host s)
     = (map ChatMessage.text (messages s) ++ [input s], [], false)
  /\ isOpen (handleSend host s) = isOpen s
  /\ trace (handleSend host s)
     = trace s ++ [ChatSendMessage (formatHistory (messages s)) (input s);
                   ConsoleError (str "Chat error") error].
Proof.
  intros Hinput Hloading Hthrow.
  unfold handleSend, GeminiService.sendChatMessage.
  rewrite Hinput, Hloading. cbn [orb userMessage ChatMessage.text].
  rewrite Hthrow. unfold rendered. cbn [fst messages input isLoading isOpen trace].
  rewrite map_app. repeat split.
Qed.

End ChatFacts.

Section ChatExamples.
Import Web Api ChatBot Scenario.

Lemma handleSend_failure_goes_to_console_witness :
  fst (GeminiService.sendChatMessage (sendMessage failingChat)
         (formatHistory (messages typedHi)) (input typedHi))
    = Threw (str "quota exceeded")
  /\ messages (handleSend failingChat typedHi)
     = messages typedHi ++ [userMessage failingChat typedHi]
  /\ rendered (handleSend failingChat typedHi)
     = (map ChatMessage.text (messages typedHi) ++ [input typedHi], [], false)
  /\ isOpen (handleSend failingChat typedHi) = isOpen typedHi
  /\ trace (handleSend failingChat typedHi)
     = trace typedHi
       ++ [ChatSendMessage (formatHistory (messages typedHi)) (input typedHi);
           ConsoleError (str "Chat error") (str "quota exceeded")].
Proof.
  apply (handleSend_failure_goes_to_console failingChat typedHi (str "quota exceeded"));
    reflexivity.
Defined.

(** C9, as stated, fails: after a send that fails with [quota exceeded]
    the window shows the single bubble [hi]; no bubble carries the error,
    which is found in the console trace only. *)
Lemma handleSend_failure_not_shown :
  rendered (handleSend failingChat typedHi) = ([str "hi"], [], false)
  /\ existsb (fun bubble => str_eqb bubble (str "quota exceeded"))
       (map ChatMessage.text (messages (handleSend failingChat typedHi))) = false
  /\ trace (handleSend failingChat typedHi)
     = [ChatSendMessage [] (str "hi");
        ConsoleError (str "Chat error") (str "quota exceeded")].
Proof. repeat split. Qed.

End ChatExamples.

(** ** Conversion *)

Section ConvertFacts.
Import Web Api App.

Lemma or_else_nonempty (a : option jsstring) (b : jsstring) :
  nonempty b = true -> nonempty (or_else a b) = true.
Proof.
  intros Hb. unfold or_else. destruct a as [x|]; [|exact Hb].
  destruct (nonempty x) eqn:E; [exact E|exact Hb].
Qed.

Lemma or_else_truthy (x b : jsstring) :
  nonempty x = true -> or_else (Some x) b = x.
Proof. intros H. unfold or_else. rewrite H. reflexivity. Qed.

(** The failure branch of the service, seen from [handleConvert]. *)
Lemma failed_is_failure (message : jsstring) :
  let answer := fst (GeminiService.failed message) in
  GeminiService.data answer = JSON.JNull
  /\ truthy (GeminiService.error answer) = true
  /\ or_else (GeminiService.error answer) (str "Failed to generate.")
     = or_else (Some message) (str "An unexpected error occurred.").
Proof.
  cbv zeta. unfold GeminiService.failed. cbn [fst GeminiService.data GeminiService.error].
  assert (H : nonempty (or_else (Some message) (str "An unexpected error occurred.")) = true)
    by (apply or_else_nonempty; reflexivity).
  repeat split.
  - exact H.
  - apply or_else_truthy, H.
Qed.

(** C6. A conversion request (non-blank input) with grounding disabled
    calls the model once, with no grounding tool in the request. When the
    model answers with a text that parses to a truthy value, one history
    entry is added, carrying the input text as typed and the returned value
    (the four-field result, when the text follows the schema). On every
    failure (the call throws, no text, unparsable text, null data) no entry
    is added and the error string is stored in the conversion state. *)
Theorem handleConvert_without_grounding (host : Host) (s : State) :
  useGrounding s = false -> trim_is_empty (inputText s) = false ->
  let request := GeminiService.goldenPromptRequest (inputText s) false in
  let s' := handleConvert host s in
  tools request = [] /\ contents request = inputText s
  /\ (exists log, trace s' = trace s ++ GenerateContent request :: log
                  /\ Forall (fun e => exists l m, e = ConsoleError l m) log)
  /\ ConversionState.isLoading (conversionState s') = false
  /\ ConvertOutcome host s s' (generateContent host request)
  /\ (forall (r : GoldenResult.t) (response : GenerateContentResponse),
        GoldenResult.well_formed r = true ->
        generateContent host request = Returned response ->
        Api.text response = Some (JSON.stringify (GoldenResult.toJSON r)) ->
        ConvertSucceeded host s s' (GoldenResult.toJSON r)
          (GeminiService.extractSources (groundingChunks response))).
Proof.
  intros Hground Hinput. cbv zeta.
  assert (Hmain :
    (exists log, trace (handleConvert host s)
                 = trace s ++ GenerateContent (GeminiService.goldenPromptRequest (inputText s) false) :: log
                 /\ Forall (fun e => exists l m, e = ConsoleError l m) log)
    /\ ConversionState.isLoading (conversionState (handleConvert host s)) = false
    /\ ConvertOutcome host s (handleConvert host s)
         (generateContent host (GeminiService.goldenPromptRequest (inputText s) false))).
  { unfold handleConvert, ConvertOutcome. rewrite Hinput.
    cbn [inputText useGrounding set_conversionState]. rewrite Hground.
    unfold GeminiService.generateGoldenPrompt.
    destruct (generateContent host (GeminiService.goldenPromptRequest (inputText s) false))
      as [response|message].
    - destruct (Api.text response) as [resultText|].
      + destruct (nonempty resultText) eqn:Hne.
        * destruct (JSON.parse resultText) as [data|].
          -- cbn [GeminiService.data GeminiService.error truthy orb].
             destruct (JSON.truthy data) eqn:Htruthy; cbn [negb].
             ++ split; [eexists; split; [reflexivity|constructor]|].
                split; [reflexivity|]. repeat split.
             ++ split; [eexists; split; [reflexivity|constructor]|].
                split; [reflexivity|]. repeat split.
          -- split; [eexists; split; [reflexivity|repeat constructor; eexists; eexists; reflexivity]|].
             split; [reflexivity|]. repeat split.
        * split; [eexists; split; [reflexivity|repeat constructor; eexists; eexists; reflexivity]|].
          split; [reflexivity|]. repeat split.
      + split; [eexists; split; [reflexivity|repeat constructor; eexists; eexists; reflexivity]|].
        split; [reflexivity|]. repeat split.
    - destruct (failed_is_failure message) as (Hdata & Herr & Hmsg).
      unfold GeminiService.failed in *. cbn [fst] in Hdata, Herr, Hmsg.
      cbn [GeminiService.data GeminiService.error] in *.
      rewrite Herr. cbn [orb].
      split; [eexists; split; [reflexivity|repeat constructor; eexists; eexists; reflexivity]|].
      split; [reflexivity|]. split; [reflexivity|]. split; [|reflexivity].
      cbn [conversionState set_conversionState emit_all set_trace ConversionState.error].
      f_equal. exact Hmsg. }
  destruct Hmain as (Hlog & Hloading & Hout).
  split; [reflexivity|]. split; [reflexivity|]. split; [exact Hlog|].
  split; [exact Hloading|]. split; [exact Hout|].
  intros r response Hwf Hanswer Htext.
  unfold ConvertOutcome in Hout. rewrite Hanswer, Htext in Hout.
  rewrite parse_stringify in Hout.
  - exact Hout.
  - unfold GoldenResult.well_formed in Hwf.
    repeat (apply andb_true_iff in Hwf; destruct Hwf as [Hwf ?]).
    unfold GoldenResult.toJSON. cbn [JSON.well_formed forallb fst snd].
    repeat match goal with
           | |- context [forallb JSON.is_code_unit (str ?x)] =>
               change (forallb JSON.is_code_unit (str x)) with true
           end.
    cbn [andb]. repeat (apply andb_true_iff; split); assumption || reflexivity.
Qed.

End ConvertFacts.

Section ConvertExamples.
Import Web Api App Scenario.

(** The spec's scenario: the input [Oka pilla akasamlo egurutundi] with
    grounding disabled, answered with a four-field result. *)
Lemma handleConvert_without_grounding_witness :
  tools (GeminiService.goldenPromptRequest (inputText typedIdea) false) = []
  /\ history (handleConvert answeringHost typedIdea)
     = [{| HistoryItem.id := str "1700000000000";
           HistoryItem.originalInput := str "Oka pilla akasamlo egurutundi";
           HistoryItem.result := GoldenResult.toJSON kite;
           HistoryItem.timestamp := 1700000000001 |}].
Proof.
  pose proof (handleConvert_without_grounding answeringHost typedIdea eq_refl eq_refl) as H.
  cbv zeta in H. destruct H as (Htools & _ & _ & _ & _ & Hfour).
  split; [exact Htools|].
  destruct (Hfour kite _ eq_refl eq_refl eq_refl) as [Hhistory _].
  exact Hhistory.
Defined.

End ConvertExamples.

(** ** Persistence of the history *)

Section PersistenceFacts.
Import Web Api App.

Lemma well_typed_timestamp (item : HistoryItem.t) :
  HistoryItem.well_typed item = true ->
  Z.abs (HistoryItem.timestamp item) <= 9007199254740992.
Proof.
  unfold HistoryItem.well_typed, HistoryItem.cardRenders. intros H.
  apply andb_true_iff in H. destruct H as [_ H].
  apply andb_true_iff in H. destruct H as [_ H]. apply Z.leb_le in H. lia.
Qed.

Lemma history_renders (h : list HistoryItem.t) :
  forallb HistoryItem.well_typed h = true ->
  forallb HistoryItem.cardRenders h = true.
Proof.
  induction h as [|item h IH]; [reflexivity|].
  cbn [forallb]. intros H. apply andb_true_iff in H. destruct H as [Hitem Hh].
  unfold HistoryItem.well_typed in Hitem.
  apply andb_true_iff in Hitem. destruct Hitem as [_ Hitem].
  rewrite Hitem, (IH Hh). reflexivity.
Qed.

Lemma fromJSON_toJSON (item : HistoryItem.t) :
  Z.abs (HistoryItem.timestamp item) <= 9007199254740992 ->
  HistoryItem.fromJSON (HistoryItem.toJSON item) = Some item.
Proof.
  intros Hts. destruct (of_Z_safe _ Hts) as [Hz _].
  destruct item as [i o r ts]. cbn [HistoryItem.timestamp] in *.
  unfold HistoryItem.toJSON, HistoryItem.fromJSON.
  cbn [HistoryItem.id HistoryItem.originalInput HistoryItem.result HistoryItem.timestamp].
  rewrite !str_eqb_refl. cbn [andb]. rewrite Hz.
  rewrite (proj2 (eqb_eq _ _) eq_refl). reflexivity.
Qed.


Lemma historyFromJSON_toJSON (h : list HistoryItem.t) :
  forallb HistoryItem.well_typed h = true ->
  historyFromJSON (historyToJSON h) = Some h.
Proof.
  unfold historyFromJSON, historyToJSON.
  induction h as [|item h IH]; [reflexivity|].
  cbn [forallb map itemsFromJSON]. intros H.
  apply andb_true_iff in H. destruct H as [Hitem Hh].
  rewrite (fromJSON_toJSON item (well_typed_timestamp item Hitem)), (IH Hh).
  reflexivity.
Qed.


Lemma well_typed_well_formed (item : HistoryItem.t) :
  HistoryItem.well_typed item = true ->
  JSON.well_formed (HistoryItem.toJSON item) = true.
Proof.
  intros H. pose proof (well_typed_timestamp item H) as Hts.
  destruct (of_Z_safe _ Hts) as [_ Hkept].
  unfold HistoryItem.well_typed in H.
  apply andb_true_iff in H. destruct H as [H _].
  apply andb_true_iff in H. destruct H as [H Hresult].
  apply andb_true_iff in H. destruct H as [Hid Hinput].
  unfold HistoryItem.toJSON. cbn [JSON.well_formed forallb fst snd].
  repeat match goal with
         | |- context [forallb JSON.is_code_unit (str ?x)] =>
             change (forallb JSON.is_code_unit (str x)) with true
         end.
  rewrite Hid, Hinput, Hresult, Hkept. reflexivity.
Qed.

Lemma history_well_formed (h : list HistoryItem.t) :
  forallb HistoryItem.well_typed h = true ->
  JSON.well_formed (historyToJSON h) = true.
Proof.
  unfold historyToJSON. cbn [JSON.well_formed].
  induction h as [|item h IH]; [reflexivity|].
  cbn [forallb map]. intros H. apply andb_true_iff in H. destruct H as [Hitem Hh].
  rewrite (well_typed_well_formed item Hitem), (IH Hh). reflexivity.
Qed.

Lemma getItem_setItem (key value : jsstring) (storage : Storage) :
  getItem key (setItem key value storage) = Some value.
Proof. unfold getItem, setItem. rewrite str_eqb_refl. reflexivity. Qed.

Lemma getItem_setItem_other (key other value : jsstring) (storage : Storage) :
  other <> key -> getItem other (setItem key value storage) = getItem other storage.
Proof.
  intros H. unfold getItem, setItem.
  rewrite (proj2 (str_eqb_neq other key) H). reflexivity.
Qed.

(** C8. A collection of history items, whatever its results (four-field
    or not, their members in any order) as long as JSON text keeps them and
    the drawer draws their cards, written by the persistence effect under
    ['suvarna-history'] is the
    history of the state the next mount ends in: same ids, inputs, results
    and timestamps, in the same order; the key then holds the same text, and
    no other key is written. *)
Theorem history_persistence_roundtrip (s : State) :
  forallb HistoryItem.well_typed (history s) = true ->
  let saved := JSON.stringify (historyToJSON (history s)) in
  getItem HISTORY_KEY (localStorage (persistHistory s)) = Some saved
  /\ JSON.parse saved = Some (historyToJSON (history s))
  /\ exists s' : State,
       mount (localStorage (persistHistory s)) = Some s'
       /\ history s' = history s
       /\ getItem HISTORY_KEY (localStorage s') = Some saved
       /\ forall key : jsstring, key <> HISTORY_KEY ->
            getItem key (localStorage s') = getItem key (localStorage s).
Proof.
  intros Hwt. cbv zeta.
  pose proof (parse_stringify _ (history_well_formed _ Hwt)) as Hparse.
  assert (Hsaved : getItem HISTORY_KEY (localStorage (persistHistory s))
                   = Some (JSON.stringify (historyToJSON (history s)))).
  { unfold persistHistory. cbn [localStorage set_localStorage].
    apply getItem_setItem. }
  split; [exact Hsaved|]. split; [exact Hparse|].
  unfold mount, mountEffects. cbn [localStorage initialState].
  rewrite Hsaved.
  change (nonempty (JSON.stringify (historyToJSON (history s)))) with true.
  cbv iota. rewrite Hparse, (historyFromJSON_toJSON _ Hwt), (history_renders _ Hwt).
  eexists. split; [reflexivity|]. split; [reflexivity|]. split.
  - unfold persistHistory at 1. cbn [localStorage set_localStorage history set_history].
    apply getItem_setItem.
  - intros key Hkey. unfold persistHistory.
    cbn [localStorage set_localStorage history set_history initialState].
    rewrite !getItem_setItem_other by exact Hkey. reflexivity.
Qed.

End PersistenceFacts.

Section PersistenceExamples.
Import Web Api App Scenario.

Lemma history_persistence_roundtrip_witness :
  exists s' : State,
    mount (localStorage (persistHistory withHistory)) = Some s'
    /\ history s' = history withHistory.
Proof.
  pose proof (history_persistence_roundtrip withHistory eq_refl) as H.
  cbv zeta in H. destruct H as (_ & _ & s' & Hmount & Hhistory & _).
  exists s'. split; [exact Hmount|exact Hhistory].
Defined.

End PersistenceExamples.

(* ================================================================== *)
(** * Part III. Further properties of the handlers *)
(* ================================================================== *)

(** ** A recording turn from start to stop *)

Section RecordingTurn.
Import Web Api App.

Variable host : Host.

(** The state a successful [try] block leaves. *)
Lemma startRecording_started (s : State) (stream : MediaStream)
      (ctx : AudioContext) (src proc : AudioNode) :
  getUserMedia host = Returned stream ->
  newAudioContext host = Returned ctx ->
  createMediaStreamSource host = Returned src ->
  createScriptProcessor host = Returned proc ->
  sourceConnect host = Returned tt ->
  processorConnect host = Returned tt ->
  startRecording host s
  = (Returned tt,
     set_sessionPromise (Some (connectToLiveSession host))
       (set_processorRef (Some proc)
          (set_sourceRef (Some src)
             (set_audioContextRef (Some ctx)
                (set_streamRef (Some stream)
                   (set_currentTranscriptionRef [] (set_isRecording true s))))))).
Proof.
  intros H1 H2 H3 H4 H5 H6.
  unfold startRecording, try_catch, startRecording_try, startRecording_begin,
    startRecording_resume, bind, modify, call.
  rewrite H1, H2, H3, H4, H5, H6. reflexivity.
Qed.

Lemma acquisition_succeeds :
  acquisitionFails host = false ->
  exists stream ctx src proc,
    getUserMedia host = Returned stream
    /\ newAudioContext host = Returned ctx
    /\ createMediaStreamSource host = Returned src
    /\ createScriptProcessor host = Returned proc
    /\ sourceConnect host = Returned tt
    /\ processorConnect host = Returned tt.
Proof.
  unfold acquisitionFails.
  destruct (getUserMedia host) as [stream|]; [|discriminate].
  destruct (newAudioContext host) as [ctx|]; [|discriminate].
  destruct (createMediaStreamSource host) as [src|]; [|discriminate].
  destruct (createScriptProcessor host) as [proc|]; [|discriminate].
  destruct (sourceConnect host) as [[]|]; [|discriminate].
  destruct (processorConnect host) as [[]|]; [|discriminate].
  intros _. exists stream, ctx, src, proc. repeat split.
Qed.

(** The continuation after the [await], when every step succeeds: the
    four references and the session promise are stored, nothing else is
    touched. *)
Lemma startRecording_resumed (s : State) (stream : MediaStream)
      (ctx : AudioContext) (src proc : AudioNode) :
  getUserMedia host = Returned stream ->
  newAudioContext host = Returned ctx ->
  createMediaStreamSource host = Returned src ->
  createScriptProcessor host = Returned proc ->
  sourceConnect host = Returned tt ->
  processorConnect host = Returned tt ->
  startRecording_settled host s
  = (Returned tt,
     set_sessionPromise (Some (connectToLiveSession host))
       (set_processorRef (Some proc)
          (set_sourceRef (Some src)
             (set_audioContextRef (Some ctx)
                (set_streamRef (Some stream) s))))).
Proof.
  intros H1 H2 H3 H4 H5 H6.
  unfold startRecording_settled, try_catch, startRecording_resume, bind, modify, call.
  rewrite H1, H2, H3, H4, H5, H6. reflexivity.
Qed.

(** X1. When [getUserMedia], the [AudioContext] constructor,
    [createMediaStreamSource], [createScriptProcessor] and the two
    [connect] calls all return. The part of [startRecording] that runs
    after the [await], from whatever state the handlers that ran meanwhile
    have left, returns with the four references holding what the host
    handed out and the session promise stored as it is, whatever becomes
    of it; it leaves the recording flag, the trace (no alert, no release
    call: resources referenced before are overwritten, not released), the
    input text and the history as it found them. Run with no handler in
    between, [startRecording] is the part before the [await] followed by
    that continuation, and ends with the flag true. *)
Theorem startRecording_success (s resumed : State) :
  acquisitionFails host = false ->
  exists stream ctx src proc,
    getUserMedia host = Returned stream
    /\ newAudioContext host = Returned ctx
    /\ createMediaStreamSource host = Returned src
    /\ createScriptProcessor host = Returned proc
    /\ sourceConnect host = Returned tt
    /\ processorConnect host = Returned tt
    /\ fst (startRecording_settled host resumed) = Returned tt
    /\ streamRef (snd (startRecording_settled host resumed)) = Some stream
    /\ audioContextRef (snd (startRecording_settled host resumed)) = Some ctx
    /\ sourceRef (snd (startRecording_settled host resumed)) = Some src
    /\ processorRef (snd (startRecording_settled host resumed)) = Some proc
    /\ sessionPromise (snd (startRecording_settled host resumed))
       = Some (connectToLiveSession host)
    /\ isRecording (snd (startRecording_settled host resumed)) = isRecording resumed
    /\ trace (snd (startRecording_settled host resumed)) = trace resumed
    /\ inputText (snd (startRecording_settled host resumed)) = inputText resumed
    /\ history (snd (startRecording_settled host resumed)) = history resumed
    /\ startRecording host s
       = startRecording_settled host (snd (startRecording_begin s))
    /\ isRecording (snd (startRecording_begin s)) = true
    /\ isRecording (snd (startRecording host s)) = true
    /\ trace (snd (startRecording host s)) = trace s.
Proof.
  intros Hok.
  destruct (acquisition_succeeds Hok) as (stream & ctx & src & proc & H1 & H2 & H3 & H4 & H5 & H6).
  exists stream, ctx, src, proc.
  rewrite (startRecording_started s stream ctx src proc H1 H2 H3 H4 H5 H6).
  rewrite !(startRecording_resumed _ stream ctx src proc H1 H2 H3 H4 H5 H6).
  repeat split; assumption.
Qed.

(** X2. Two clicks on the microphone button, on a host where acquisition
    succeeds and no release call throws; the first starts a turn. When the
    second comes after the first handler has finished, it stops the turn:
    the flag is false, no resource is referenced, and the release calls made
    are exactly those of the resources the first click acquired, in teardown
    order; the input text is untouched. When the second comes while
    [getUserMedia] is pending, it finds the flag true and runs
    [stopRecording] on the references held before the turn; the first
    handler then resumes and acquires everything, so that the flag is false
    while the four resources are held, and none of them has been released. *)
Theorem handleMicClick_start_then_stop (s : State) :
  isRecording s = false ->
  acquisitionFails host = false ->
  (forall c, releaseThrows host c = None) ->
  exists stream ctx src proc,
    getUserMedia host = Returned stream
    /\ newAudioContext host = Returned ctx
    /\ createMediaStreamSource host = Returned src
    /\ createScriptProcessor host = Returned proc
    /\ fst (handleMicClick host s) = Returned tt
    /\ isRecording (snd (handleMicClick host s)) = true
    /\ fst (handleMicClick host (snd (handleMicClick host s))) = Returned tt
    /\ isRecording (snd (handleMicClick host (snd (handleMicClick host s)))) = false
    /\ allReleased (snd (handleMicClick host (snd (handleMicClick host s))))
    /\ trace (snd (handleMicClick host (snd (handleMicClick host s))))
       = trace s
         ++ map Released
              (NodeDisconnect proc :: NodeDisconnect src
                 :: map TrackStop (getTracks stream) ++ [ContextClose ctx])
    /\ inputText (snd (handleMicClick host (snd (handleMicClick host s))))
       = inputText s
    /\ (let pending := snd (startRecording_begin s) in
        let stopped := snd (handleMicClick host pending) in
        let resumed := snd (startRecording_settled host stopped) in
        fst (handleMicClick host pending) = Returned tt
        /\ allReleased stopped
        /\ fst (startRecording_settled host stopped) = Returned tt
        /\ isRecording resumed = false
        /\ heldReleaseCalls resumed
           = NodeDisconnect proc :: NodeDisconnect src
               :: map TrackStop (getTracks stream) ++ [ContextClose ctx]
        /\ trace resumed = trace s ++ map Released (heldReleaseCalls s)).
Proof.
  intros Hidle Hok Hrelease.
  destruct (acquisition_succeeds Hok) as (stream & ctx & src & proc & H1 & H2 & H3 & H4 & H5 & H6).
  exists stream, ctx, src, proc.
  assert (Hfirst : handleMicClick host s = startRecording host s).
  { unfold handleMicClick, bind, gets. rewrite Hidle. reflexivity. }
  assert (Hstop : forall st, isRecording st = true ->
            handleMicClick host st
            = (Returned tt,
               cleared (map Released (heldReleaseCalls (set_isRecording false st)))
                 (set_isRecording false st))).
  { intros st Hflag. unfold handleMicClick, bind at 1, gets. rewrite Hflag.
    unfold stopRecording, bind, modify. apply (cleanupAudio_ok host Hrelease). }
  rewrite Hfirst, (startRecording_started s stream ctx src proc H1 H2 H3 H4 H5 H6).
  cbn [fst snd].
  match goal with |- context [handleMicClick host ?st] => rewrite (Hstop st eq_refl) end.
  rewrite (Hstop (snd (startRecording_begin s)) eq_refl). cbn [fst snd].
  split; [assumption|]. split; [assumption|]. split; [assumption|]. split; [assumption|].
  split; [reflexivity|]. split; [reflexivity|]. split; [reflexivity|].
  split; [reflexivity|]. split; [apply cleared_allReleased|].
  split; [reflexivity|]. split; [reflexivity|].
  cbv zeta.
  rewrite (startRecording_resumed _ stream ctx src proc H1 H2 H3 H4 H5 H6).
  cbn [fst snd].
  split; [reflexivity|]. split; [apply cleared_allReleased|].
  split; [reflexivity|]. split; [reflexivity|]. split; reflexivity.
Qed.

End RecordingTurn.

(** ** The live session callbacks *)

Section SessionCallbacks.
Import Web Api App LiveSession.

Lemma onmessage_without_fragment (message : LiveServerMessage) (s : State) :
  carriesFragment message = false -> onmessage message s = s.
Proof.
  unfold carriesFragment, onmessage.
  destruct (serverContent message) as [content|]; [|reflexivity].
  destruct (inputTranscription content) as [transcription|]; [|reflexivity].
  destruct (text transcription) as [fragment|]; [|reflexivity].
  cbn [truthy]. intros ->. reflexivity.
Qed.

Lemma deliver_filter (messages : list LiveServerMessage) (s : State) :
  deliver messages s = deliver (filter carriesFragment messages) s.
Proof.
  unfold deliver. revert s. induction messages as [|m l IH]; intros st; [reflexivity|].
  cbn [fold_left filter]. destruct (carriesFragment m) eqn:E.
  - cbn [fold_left]. apply IH.
  - rewrite (onmessage_without_fragment m st E). apply IH.
Qed.

Lemma deliver_frame (messages : list LiveServerMessage) (s : State) :
  history (deliver messages s) = history s
  /\ isRecording (deliver messages s) = isRecording s
  /\ trace (deliver messages s) = trace s.
Proof.
  unfold deliver. revert s. induction messages as [|m l IH]; intros st; [repeat split|].
  cbn [fold_left]. destruct (IH (onmessage m st)) as (H1 & H2 & H3).
  rewrite H1, H2, H3. unfold onmessage.
  destruct (serverContent m) as [content|]; [|repeat split].
  destruct (inputTranscription content) as [transcription|]; [|repeat split].
  destruct (text transcription) as [fragment|]; [|repeat split].
  destruct (nonempty fragment); repeat split.
Qed.

(** X3. Only input transcription text reaches the input field: a message
    without it (an output transcription, a turn-complete notice, an empty
    fragment) changes nothing, so removing such messages from a session's
    stream, wherever they stand, gives the same final state; no message
    touches the history, the recording flag or the trace. *)
Theorem deliver_ignores_other_messages (messages : list LiveServerMessage) (s : State) :
  deliver messages s = deliver (filter carriesFragment messages) s
  /\ (forall message, carriesFragment message = false -> onmessage message s = s)
  /\ history (deliver messages s) = history s
  /\ isRecording (deliver messages s) = isRecording s
  /\ trace (deliver messages s) = trace s.
Proof.
  split; [apply deliver_filter|].
  split; [intros m; apply onmessage_without_fragment|].
  apply deliver_frame.
Qed.

(** X4. A remote error or close notification ends the turn without
    telling the user: on every host the recording flag is false afterwards
    and no alert is shown (the error goes to the console); when no release
    call throws the callback returns with no audio resource referenced. *)
Theorem onerror_onclose_end_turn (host : Host) (err : jsstring) (s : State) :
  isRecording (snd (onerror host err s)) = false
  /\ alertsOf (trace (snd (onerror host err s))) = alertsOf (trace s)
  /\ isRecording (snd (onclose host s)) = false
  /\ alertsOf (trace (snd (onclose host s))) = alertsOf (trace s)
  /\ ((forall c, releaseThrows host c = None) ->
      fst (onerror host err s) = Returned tt
      /\ allReleased (snd (onerror host err s))
      /\ fst (onclose host s) = Returned tt
      /\ allReleased (snd (onclose host s))).
Proof.
  assert (He : onerror host err s
               = cleanupAudio host
                   (set_isRecording false
                      (emit (ConsoleError (str "Gemini Live Error:") err) s)))
    by reflexivity.
  assert (Hc : onclose host s
               = cleanupAudio host
                   (set_isRecording false
                      (emit (ConsoleLog (str "Gemini Live Session Closed")) s)))
    by reflexivity.
  rewrite He, Hc.
  match goal with |- context [ConsoleError ?l ?m] =>
    destruct (keeps_cleanupAudio host
                (set_isRecording false (emit (ConsoleError l m) s))) as [E1 E2] end.
  match goal with |- context [ConsoleLog ?l] =>
    destruct (keeps_cleanupAudio host
                (set_isRecording false (emit (ConsoleLog l) s))) as [C1 C2] end.
  split; [rewrite E1; reflexivity|]. split.
  { rewrite E2. unfold emit. cbn [trace set_trace set_isRecording].
    rewrite alertsOf_app. cbn. apply app_nil_r. }
  split; [rewrite C1; reflexivity|]. split.
  { rewrite C2. unfold emit. cbn [trace set_trace set_isRecording].
    rewrite alertsOf_app. cbn. apply app_nil_r. }
  intros Hrelease. rewrite !(cleanupAudio_ok host Hrelease). cbn [fst snd].
  repeat split.
Qed.

(** X5. An audio block, once the session promise has resolved, becomes
    exactly one [sendRealtimeInput] call whose chunk decodes to the 2N PCM
    bytes of the block; nothing else changes than the trace. While the
    promise is rejected the block is dropped with a console error, and no
    block is ever sent. *)
Theorem onaudioprocess_sends_block (host : Host) (inputData : list number)
        (s : State) (outcome : Result Session) :
  sessionPromise s = Some outcome ->
  exists pcmBlob : PCM.GeminiBlob,
    PCM.createBlob (byteOrder host) inputData = Some pcmBlob
    /\ Base64.decode (PCM.data pcmBlob)
       = Some (PCM.Uint8Array_of_buffer (byteOrder host) (PCM.Int16Array_from inputData))
    /\ onaudioprocess host inputData s
       = emit (match outcome with
               | Returned _ => SendRealtimeInput pcmBlob
               | Threw e => ConsoleError (str "Session send error") e
               end) s.
Proof.
  intros Hpromise.
  set (uint8 := PCM.Uint8Array_of_buffer (byteOrder host) (PCM.Int16Array_from inputData)).
  destruct (binary_of_bytes uint8 (Uint8Array_range _ _)) as [Hbin Hbytes].
  assert (Hblob : PCM.createBlob (byteOrder host) inputData
                  = Some {| PCM.data := Base64.encode uint8;
                            PCM.mimeType := str "audio/pcm;rate=16000" |}).
  { unfold PCM.createBlob. fold uint8. rewrite Hbin. unfold Base64.btoa.
    rewrite Hbytes. reflexivity. }
  eexists. split; [exact Hblob|]. split.
  - cbn [PCM.data]. apply decode_encode, Hbytes.
  - unfold onaudioprocess. rewrite Hblob, Hpromise. destruct outcome; reflexivity.
Qed.

End SessionCallbacks.

Section SessionExamples.
Import Web Api App Scenario.

Lemma onaudioprocess_sends_block_witness :
  exists pcmBlob : PCM.GeminiBlob,
    PCM.createBlob (byteOrder quietHost) [Finite 1; NaN] = Some pcmBlob
    /\ Base64.decode (PCM.data pcmBlob)
       = Some (PCM.Uint8Array_of_buffer (byteOrder quietHost)
                 (PCM.Int16Array_from [Finite 1; NaN]))
    /\ onaudioprocess quietHost [Finite 1; NaN] (snd (startRecording quietHost idle))
       = emit (SendRealtimeInput pcmBlob) (snd (startRecording quietHost idle)).
Proof.
  apply (onaudioprocess_sends_block quietHost [Finite 1; NaN]
           (snd (startRecording quietHost idle)) (Returned {| sessionId := 1 |})).
  reflexivity.
Defined.

Lemma startRecording_success_witness :
  fst (startRecording_settled quietHost idle) = Returned tt
  /\ isRecording (snd (startRecording_settled quietHost idle)) = false
  /\ isRecording (snd (startRecording quietHost idle)) = true
  /\ alertsOf (trace (snd (startRecording quietHost idle))) = [].
Proof.
  destruct (startRecording_success quietHost idle idle eq_refl)
    as (stream & ctx & src & proc & _ & _ & _ & _ & _ & _ & Hret & _ & _ & _ & _ & _
        & Hflag & _ & _ & _ & _ & _ & Hrun & Htrace).
  split; [exact Hret|]. split; [exact Hflag|]. split; [exact Hrun|].
  rewrite Htrace. reflexivity.
Defined.

Lemma handleMicClick_start_then_stop_witness :
  isRecording (snd (handleMicClick quietHost (snd (handleMicClick quietHost idle)))) = false
  /\ allReleased (snd (handleMicClick quietHost (snd (handleMicClick quietHost idle))))
  /\ isRecording
       (snd (startRecording_settled quietHost
               (snd (handleMicClick quietHost (snd (startRecording_begin idle))))))
     = false
  /\ heldReleaseCalls
       (snd (startRecording_settled quietHost
               (snd (handleMicClick quietHost (snd (startRecording_begin idle))))))
     = [NodeDisconnect processorNode; NodeDisconnect sourceNode;
        TrackStop {| trackId := 1 |}; ContextClose context]
  /\ trace (snd (startRecording_settled quietHost
                   (snd (handleMicClick quietHost (snd (startRecording_begin idle))))))
     = [].
Proof.
  destruct (handleMicClick_start_then_stop quietHost idle eq_refl eq_refl (fun c => eq_refl))
    as (stream & ctx & src & proc & E1 & E2 & E3 & E4 & _ & _ & _ & Hflag & Hreleased
        & _ & _ & Hpending).
  cbv zeta in Hpending.
  destruct Hpending as (_ & _ & _ & Hoff & Hheld & Htrace).
  injection E1 as <-. injection E2 as <-. injection E3 as <-. injection E4 as <-.
  split; [exact Hflag|]. split; [exact Hreleased|]. split; [exact Hoff|].
  split; [exact Hheld|exact Htrace].
Defined.

Lemma onerror_onclose_end_turn_witness :
  fst (onerror quietHost (str "closed by peer") recording) = Returned tt
  /\ allReleased (snd (onerror quietHost (str "closed by peer") recording))
  /\ fst (onclose quietHost recording) = Returned tt
  /\ allReleased (snd (onclose quietHost recording)).
Proof.
  destruct (onerror_onclose_end_turn quietHost (str "closed by peer") recording)
    as (_ & _ & _ & _ & H).
  apply H. intros c. reflexivity.
Defined.

End SessionExamples.

(** ** The conversion service and its handler, on every path *)

Section ConversionPaths.
Import Web Api App.

(** X6. [generateGoldenPrompt] makes exactly one model call, whose tools
    are the search tool alone when grounding is enabled and none otherwise,
    and logs nothing but console errors. Its answer either has no error, or
    has a non-empty error string together with null data and no source: a
    failure never carries partial data. *)
Theorem generateGoldenPrompt_answer
        (generateContent : GenerateContentParameters -> Result GenerateContentResponse)
        (input : jsstring) (useGrounding : bool) :
  tools (GeminiService.goldenPromptRequest input useGrounding)
    = (if useGrounding then [googleSearch] else [])
  /\ contents (GeminiService.goldenPromptRequest input useGrounding) = input
  /\ (exists log,
        snd (GeminiService.generateGoldenPrompt generateContent input useGrounding)
        = GenerateContent (GeminiService.goldenPromptRequest input useGrounding) :: log
        /\ Forall (fun e => exists l m, e = ConsoleError l m) log)
  /\ (GeminiService.error
        (fst (GeminiService.generateGoldenPrompt generateContent input useGrounding))
      = None
      \/ exists message,
           GeminiService.error
             (fst (GeminiService.generateGoldenPrompt generateContent input useGrounding))
           = Some message
           /\ nonempty message = true
           /\ GeminiService.data
                (fst (GeminiService.generateGoldenPrompt generateContent input useGrounding))
              = JSON.JNull
           /\ GeminiService.sources
                (fst (GeminiService.generateGoldenPrompt generateContent input useGrounding))
              = []).
Proof.
  split; [reflexivity|]. split; [reflexivity|].
  assert (Hfailed : forall message,
            exists m, GeminiService.error (fst (GeminiService.failed message)) = Some m
                      /\ nonempty m = true).
  { intros message. eexists. split; [reflexivity|].
    apply or_else_nonempty. reflexivity. }
  unfold GeminiService.generateGoldenPrompt.
  destruct (generateContent (GeminiService.goldenPromptRequest input useGrounding))
    as [response|message].
  - destruct (Api.text response) as [resultText|].
    + destruct (nonempty resultText).
      * destruct (JSON.parse resultText) as [data|].
        -- split; [eexists; split; [reflexivity|constructor]|]. left. reflexivity.
        -- split; [eexists; split;
                   [reflexivity|repeat constructor; eexists; eexists; reflexivity]|].
           right. destruct (Hfailed (str "Failed to parse Golden Prompt.")) as (m & E & Hm).
           exists m. repeat split; assumption.
      * split; [eexists; split;
                [reflexivity|repeat constructor; eexists; eexists; reflexivity]|].
        right. destruct (Hfailed (str "No response from Gemini")) as (m & E & Hm).
        exists m. repeat split; assumption.
    + split; [eexists; split;
              [reflexivity|repeat constructor; eexists; eexists; reflexivity]|].
      right. destruct (Hfailed (str "No response from Gemini")) as (m & E & Hm).
      exists m. repeat split; assumption.
  - split; [eexists; split;
            [reflexivity|repeat constructor; eexists; eexists; reflexivity]|].
    right. destruct (Hfailed message) as (m & E & Hm).
    exists m. repeat split; assumption.
Qed.

Lemma flat_map_length_le (A B : Type) (f : A -> list B) (l : list A) :
  (forall a, (length (f a) <= 1)%nat) ->
  (length (flat_map f l) <= length l)%nat.
Proof.
  intros Hf. induction l as [|a l IH]; [simpl; lia|].
  cbn [flat_map]. rewrite length_app. cbn [length]. specialize (Hf a). lia.
Qed.

(** X7. The grounding citations: every extracted source has a non-empty
    uri and a non-empty title (chunks lacking either are skipped), there are
    no more sources than chunks, they come in the order of their chunks, and
    missing metadata gives none. *)
Theorem extractSources_complete_only (chunks1 chunks2 : list GroundingChunk) :
  Forall (fun source =>
            nonempty (GroundingSource.uri source) = true
            /\ nonempty (GroundingSource.title source) = true)
         (GeminiService.extractSources (Some chunks1))
  /\ (length (GeminiService.extractSources (Some chunks1)) <= length chunks1)%nat
  /\ GeminiService.extractSources (Some (chunks1 ++ chunks2))
     = GeminiService.extractSources (Some chunks1)
       ++ GeminiService.extractSources (Some chunks2)
  /\ GeminiService.extractSources None = [].
Proof.
  unfold GeminiService.extractSources. split; [|split; [|split]].
  - apply Forall_flat_map. apply Forall_forall. intros chunk _.
    unfold GeminiService.sourceOfChunk.
    destruct (web chunk) as [w|]; [|constructor].
    destruct (uri w) as [u|]; [|constructor].
    destruct (title w) as [t|]; [|constructor].
    destruct (nonempty u) eqn:Hu, (nonempty t) eqn:Ht; cbn [andb]; constructor;
      [split; assumption|constructor].
  - apply flat_map_length_le. intros chunk. unfold GeminiService.sourceOfChunk.
    destruct (web chunk) as [w|]; [|simpl; lia].
    destruct (uri w) as [u|]; [|simpl; lia].
    destruct (title w) as [t|]; [|simpl; lia].
    destruct (nonempty u && nonempty t); simpl; lia.
  - apply flat_map_app.
  - reflexivity.
Qed.

(** X8. Whatever the model answers and whether grounding is on or off,
    [handleConvert] either leaves the history as it is, with the result
    shown before still shown, or puts one entry in front of it, carrying
    the input as typed and a truthy result, with no error stored. It never
    edits the input text, the grounding switch or the saved store; on
    blank input it does nothing at all; otherwise it makes one model call,
    with the search tool exactly when grounding is on, and ends with the
    loading flag off. *)
Theorem handleConvert_every_path (host : Host) (s : State) :
  (history (handleConvert host s) = history s
   /\ ConversionState.result (conversionState (handleConvert host s))
      = ConversionState.result (conversionState s)
   \/ exists item,
        history (handleConvert host s) = item :: history s
        /\ HistoryItem.originalInput item = inputText s
        /\ JSON.truthy (HistoryItem.result item) = true
        /\ ConversionState.result (conversionState (handleConvert host s))
           = HistoryItem.result item
        /\ ConversionState.error (conversionState (handleConvert host s)) = None)
  /\ inputText (handleConvert host s) = inputText s
  /\ useGrounding (handleConvert host s) = useGrounding s
  /\ localStorage (handleConvert host s) = localStorage s
  /\ (trim_is_empty (inputText s) = true -> handleConvert host s = s)
  /\ (trim_is_empty (inputText s) = false ->
      ConversionState.isLoading (conversionState (handleConvert host s)) = false
      /\ exists log,
           trace (handleConvert host s)
           = trace s
             ++ GenerateContent
                  (GeminiService.goldenPromptRequest (inputText s) (useGrounding s))
                :: log
           /\ tools (GeminiService.goldenPromptRequest (inputText s) (useGrounding s))
              = (if useGrounding s then [googleSearch] else [])
           /\ Forall (fun e => exists l m, e = ConsoleError l m) log).
Proof.
  unfold handleConvert.
  destruct (trim_is_empty (inputText s)) eqn:Hblank.
  { split; [left; split; reflexivity|]. repeat split; try reflexivity; discriminate. }
  cbn [inputText useGrounding set_conversionState].
  unfold GeminiService.generateGoldenPrompt.
  destruct (generateContent host
              (GeminiService.goldenPromptRequest (inputText s) (useGrounding s)))
    as [response|message].
  - destruct (Api.text response) as [resultText|].
    + destruct (nonempty resultText).
      * destruct (JSON.parse resultText) as [data|].
        -- cbn [GeminiService.data GeminiService.error truthy orb].
           destruct (JSON.truthy data) eqn:Htruthy; cbn [negb].
           ++ split.
              { right. eexists. split; [reflexivity|]. repeat split. exact Htruthy. }
              repeat split; try discriminate.
              eexists. split; [reflexivity|]. split; [reflexivity|constructor].
           ++ split; [left; split; reflexivity|].
              repeat split; try discriminate.
              eexists. split; [reflexivity|]. split; [reflexivity|constructor].
        -- split; [left; split; reflexivity|].
           repeat split; try discriminate.
           eexists. split; [reflexivity|]. split; [reflexivity|].
           repeat constructor; eexists; eexists; reflexivity.
      * split; [left; split; reflexivity|].
        repeat split; try discriminate.
        eexists. split; [reflexivity|]. split; [reflexivity|].
        repeat constructor; eexists; eexists; reflexivity.
    + split; [left; split; reflexivity|].
      repeat split; try discriminate.
      eexists. split; [reflexivity|]. split; [reflexivity|].
      repeat constructor; eexists; eexists; reflexivity.
  - destruct (failed_is_failure message) as (Hdata & Herr & Hmsg).
    unfold GeminiService.failed in *. cbn [fst] in Hdata, Herr, Hmsg.
    cbn [GeminiService.data GeminiService.error] in *.
    rewrite Herr. cbn [orb].
    split; [left; split; reflexivity|].
    repeat split; try discriminate.
    eexists. split; [reflexivity|]. split; [reflexivity|].
    repeat constructor; eexists; eexists; reflexivity.
Qed.

End ConversionPaths.

(** ** The history list *)

Section HistoryAlgebra.
Import Web Api App.

Lemma set_history_same (s : State) : set_history (history s) s = s.
Proof. destruct s. reflexivity. Qed.

Lemma deleteHistoryItem_absent (id : jsstring) (h : list HistoryItem.t) :
  Forall (fun item => HistoryItem.id item <> id) h -> deleteHistoryItem id h = h.
Proof.
  intros H. unfold deleteHistoryItem. induction H as [|item h Hitem Hh IH]; [reflexivity|].
  cbn [filter]. rewrite (proj2 (str_eqb_neq _ _) Hitem). cbn [negb]. rewrite IH.
  reflexivity.
Qed.

Lemma deleteHistoryItem_idempotent (a : jsstring) (h : list HistoryItem.t) :
  deleteHistoryItem a (deleteHistoryItem a h) = deleteHistoryItem a h.
Proof.
  unfold deleteHistoryItem. induction h as [|item h IH]; [reflexivity|].
  cbn [filter]. destruct (negb (str_eqb (HistoryItem.id item) a)) eqn:E; [|exact IH].
  cbn [filter]. rewrite E, IH. reflexivity.
Qed.

Lemma deleteHistoryItem_commutes (a b : jsstring) (h : list HistoryItem.t) :
  deleteHistoryItem a (deleteHistoryItem b h)
  = deleteHistoryItem b (deleteHistoryItem a h).
Proof.
  unfold deleteHistoryItem. induction h as [|item h IH]; [reflexivity|].
  cbn [filter].
  destruct (negb (str_eqb (HistoryItem.id item) a)) eqn:Ea,
           (negb (str_eqb (HistoryItem.id item) b)) eqn:Eb;
    cbn [filter]; rewrite ?Ea, ?Eb, IH; reflexivity.
Qed.

(** X9. Deleting is idempotent, deletions by two ids commute, deleting an
    id no entry carries changes nothing, and a deletion never lengthens the
    history. *)
Theorem handleDeleteHistoryItem_algebra (a b : jsstring) (s : State) :
  handleDeleteHistoryItem a (handleDeleteHistoryItem a s) = handleDeleteHistoryItem a s
  /\ handleDeleteHistoryItem a (handleDeleteHistoryItem b s)
     = handleDeleteHistoryItem b (handleDeleteHistoryItem a s)
  /\ (Forall (fun item => HistoryItem.id item <> a) (history s) ->
      handleDeleteHistoryItem a s = s)
  /\ (length (history (handleDeleteHistoryItem a s)) <= length (history s))%nat.
Proof.
  split; [|split; [|split]].
  - destruct s. unfold handleDeleteHistoryItem. cbn [history set_history].
    rewrite deleteHistoryItem_idempotent. reflexivity.
  - destruct s. unfold handleDeleteHistoryItem. cbn [history set_history].
    rewrite deleteHistoryItem_commutes. reflexivity.
  - intros Habsent. unfold handleDeleteHistoryItem.
    rewrite (deleteHistoryItem_absent a _ Habsent). apply set_history_same.
  - unfold handleDeleteHistoryItem. cbn [history set_history].
    unfold deleteHistoryItem. apply filter_length_le.
Qed.

(** X10. An entry just added is removed again by deleting its id: the
    history is then the former one without the entries that share that id
    (two conversions finished in the same millisecond get the same id and
    go together); when no former entry has the id, the state is exactly the
    one before the addition. *)
Theorem delete_after_add (host : Host) (input : jsstring) (result : JSON.value)
        (s : State) :
  history (handleDeleteHistoryItem (JSON.number_chars (Date_now host 0))
             (addToHistory host input result s))
  = deleteHistoryItem (JSON.number_chars (Date_now host 0)) (history s)
  /\ (Forall (fun item => HistoryItem.id item <> JSON.number_chars (Date_now host 0))
             (history s) ->
      handleDeleteHistoryItem (JSON.number_chars (Date_now host 0))
        (addToHistory host input result s) = s).
Proof.
  assert (H : history (handleDeleteHistoryItem (JSON.number_chars (Date_now host 0))
                         (addToHistory host input result s))
              = deleteHistoryItem (JSON.number_chars (Date_now host 0)) (history s)).
  { unfold handleDeleteHistoryItem, addToHistory. cbn [history set_history].
    unfold deleteHistoryItem. cbn [filter HistoryItem.id].
    rewrite str_eqb_refl. reflexivity. }
  split; [exact H|]. intros Habsent.
  unfold handleDeleteHistoryItem in *. cbn [history set_history] in H.
  unfold addToHistory at 1. cbn [history set_history].
  unfold addToHistory in H. cbn [history set_history] in H.
  rewrite H, (deleteHistoryItem_absent _ _ Habsent).
  destruct s. reflexivity.
Qed.

End HistoryAlgebra.

Section HistoryAlgebraExamples.
Import Web Api App Scenario.

Lemma handleDeleteHistoryItem_algebra_witness :
  handleDeleteHistoryItem (str "42") withHistory = withHistory.
Proof.
  destruct (handleDeleteHistoryItem_algebra (str "42") (str "42") withHistory)
    as (_ & _ & H & _).
  apply H. repeat constructor. discriminate.
Defined.

Lemma delete_after_add_witness :
  handleDeleteHistoryItem (JSON.number_chars (Date_now quietHost 0))
    (addToHistory quietHost (str "Oka robot") (GoldenResult.toJSON kite) idle)
  = idle.
Proof.
  destruct (delete_after_add quietHost (str "Oka robot") (GoldenResult.toJSON kite) idle)
    as [_ H].
  apply H. constructor.
Defined.

End HistoryAlgebraExamples.

(** ** Mounting and reloading *)

Section MountFacts.
Import Web Api App.

Lemma persistHistory_key (s : State) :
  getItem HISTORY_KEY (localStorage (persistHistory s))
  = Some (JSON.stringify (historyToJSON (history s)))
  /\ history (persistHistory s) = history s
  /\ trace (persistHistory s) = trace s.
Proof.
  unfold persistHistory. cbn [localStorage set_localStorage history trace].
  split; [apply getItem_setItem|split; reflexivity].
Qed.



(** X12. Mounting with nothing usable saved (no entry under the key, an
    empty text, or a text that does not parse) starts from the empty history
    and writes [[]] under the key: an unparsable saved history is not kept,
    it is logged to the console and overwritten. *)
Theorem mount_starts_empty (storage : Storage) :
  match getItem HISTORY_KEY storage with
  | None => True
  | Some saved => nonempty saved = false \/ JSON.parse saved = None
  end ->
  exists s' : State,
    mount storage = Some s'
    /\ history s' = []
    /\ getItem HISTORY_KEY (localStorage s') = Some (str "[]")
    /\ trace s'
       = match getItem HISTORY_KEY storage with
         | Some saved =>
             if nonempty saved
             then [ConsoleError (str "Failed to parse history") (str "SyntaxError")]
             else []
         | None => []
         end.
Proof.
  unfold mount, mountEffects. cbn [localStorage initialState].
  destruct (getItem HISTORY_KEY storage) as [saved|].
  - intros [Hempty|Hparse].
    + rewrite Hempty. eexists. split; [reflexivity|]. split; [reflexivity|].
      split; [|reflexivity]. apply getItem_setItem.
    + destruct (nonempty saved).
      * rewrite Hparse. eexists. split; [reflexivity|]. split; [reflexivity|].
        split; [|reflexivity]. apply getItem_setItem.
      * eexists. split; [reflexivity|]. split; [reflexivity|].
        split; [|reflexivity]. apply getItem_setItem.
  - intros _. eexists. split; [reflexivity|]. split; [reflexivity|].
    split; [|reflexivity]. apply getItem_setItem.
Qed.

Lemma uint_chars_code_units (d : Decimal.uint) :
  forallb JSON.is_code_unit (Float64.uint_chars d) = true.
Proof. induction d; cbn [Float64.uint_chars forallb]; try rewrite IHd; reflexivity. Qed.

Lemma number_chars_code_units (n : Z) :
  forallb JSON.is_code_unit (JSON.number_chars n) = true.
Proof.
  destruct n; cbn [JSON.number_chars forallb]; unfold Float64.digits;
    try rewrite uint_chars_code_units; reflexivity.
Qed.

(** A time value is among the integers a Number holds exactly. *)
Lemma time_value_safe (t : TimeValue) : (Z.abs t <=? 9007199254740992) = true.
Proof.
  destruct t as [ms Hclip]. cbn [milliseconds].
  apply Z.leb_le in Hclip. apply Z.leb_le. lia.
Qed.

(** A persisted, well-typed history is the history of the next mount. *)
Lemma mount_persisted (s : State) :
  forallb HistoryItem.well_typed (history s) = true ->
  exists s' : State,
    mount (localStorage (persistHistory s)) = Some s' /\ history s' = history s.
Proof.
  intros Hwt.
  pose proof (parse_stringify _ (history_well_formed _ Hwt)) as Hparse.
  destruct (persistHistory_key s) as [Hsaved _].
  unfold mount, mountEffects. cbn [localStorage initialState]. rewrite Hsaved.
  change (nonempty (JSON.stringify (historyToJSON (history s)))) with true.
  cbv iota. rewrite Hparse, (historyFromJSON_toJSON _ Hwt), (history_renders _ Hwt).
  eexists. split; reflexivity.
Qed.

(** X13. A successful conversion survives a reload: when the history so
    far is well typed, the input is a JS string and the model answers with
    the text of a four-field result, the history after [handleConvert],
    written by the persistence effect and read by the next mount, is the new
    entry followed by the former history. *)
Theorem conversion_survives_reload (host : Host) (s : State) (r : GoldenResult.t)
        (response : GenerateContentResponse) :
  trim_is_empty (inputText s) = false ->
  forallb JSON.is_code_unit (inputText s) = true ->
  forallb HistoryItem.well_typed (history s) = true ->
  GoldenResult.well_formed r = true ->
  generateContent host
    (GeminiService.goldenPromptRequest (inputText s) (useGrounding s))
    = Returned response ->
  Api.text response = Some (JSON.stringify (GoldenResult.toJSON r)) ->
  exists s' : State,
    mount (localStorage (persistHistory (handleConvert host s))) = Some s'
    /\ history s'
       = {| HistoryItem.id := JSON.number_chars (Date_now host 0);
            HistoryItem.originalInput := inputText s;
            HistoryItem.result := GoldenResult.toJSON r;
            HistoryItem.timestamp := Date_now host 1 |} :: history s.
Proof.
  intros Hblank Hinput Hwt Hr Hanswer Htext.
  assert (Hjson : JSON.well_formed (GoldenResult.toJSON r) = true).
  { unfold GoldenResult.well_formed in Hr.
    repeat (apply andb_true_iff in Hr; destruct Hr as [Hr ?]).
    unfold GoldenResult.toJSON. cbn [JSON.well_formed forallb fst snd].
    repeat match goal with
           | |- context [forallb JSON.is_code_unit (str ?x)] =>
               change (forallb JSON.is_code_unit (str x)) with true
           end.
    cbn [andb]. repeat (apply andb_true_iff; split); assumption || reflexivity. }
  assert (Hhistory : history (handleConvert host s)
                     = {| HistoryItem.id := JSON.number_chars (Date_now host 0);
                          HistoryItem.originalInput := inputText s;
                          HistoryItem.result := GoldenResult.toJSON r;
                          HistoryItem.timestamp := Date_now host 1 |} :: history s).
  { unfold handleConvert. rewrite Hblank.
    cbn [inputText useGrounding set_conversionState].
    unfold GeminiService.generateGoldenPrompt. rewrite Hanswer, Htext.
    change (nonempty (JSON.stringify (GoldenResult.toJSON r))) with true.
    cbv iota. rewrite (parse_stringify _ Hjson). reflexivity. }
  destruct (mount_persisted (handleConvert host s)) as (s' & Hmount & Hsame).
  - rewrite Hhistory. cbn [forallb]. rewrite Hwt, andb_true_r.
    unfold HistoryItem.well_typed, HistoryItem.cardRenders.
    cbn [HistoryItem.id HistoryItem.originalInput HistoryItem.result
         HistoryItem.timestamp].
    rewrite number_chars_code_units, Hinput, Hjson, (time_clip (Date_now host 1)).
    reflexivity.
  - exists s'. split; [exact Hmount|]. rewrite Hsame. exact Hhistory.
Qed.

End MountFacts.


(** ** The PCM encoder: size of the chunk, symmetry and order *)

Section EncoderFacts.
Import PCM Samples.

Lemma b64_char_alphabet (i : Z) : 0 <= i < 64 -> In (Base64.b64_char i) Base64.alphabet.
Proof.
  intros Hi. unfold Base64.b64_char. apply nth_In.
  change (length Base64.alphabet) with 64%nat. lia.
Qed.

Lemma encode_alphabet (bs : list Z) :
  forallb Base64.is_byte bs = true ->
  Forall (fun c => In c Base64.alphabet \/ c = Base64.pad) (Base64.encode bs).
Proof.
  induction bs as [|a|a b|a b c l IH] using list_ind3; intros Hb.
  - constructor.
  - simpl in Hb. rewrite andb_true_r in Hb. apply is_byte_spec in Hb.
    destruct (group24_bytes a 0 0 Hb) as (Hn & _); [lia|lia|].
    replace (a * 65536 + 0 * 256 + 0) with (a * 65536) in Hn by lia.
    destruct (group24_sextets _ Hn) as (R0 & R1 & _).
    cbn [Base64.encode].
    repeat (apply Forall_cons;
            [first [left; apply b64_char_alphabet; assumption | right; reflexivity]|]).
    apply Forall_nil.
  - simpl in Hb. rewrite andb_true_r in Hb. apply andb_true_iff in Hb.
    destruct Hb as [Ha Hb]. apply is_byte_spec in Ha, Hb.
    destruct (group24_bytes a b 0 Ha Hb) as (Hn & _); [lia|].
    replace (a * 65536 + b * 256 + 0) with (a * 65536 + b * 256) in Hn by lia.
    destruct (group24_sextets _ Hn) as (R0 & R1 & R2 & _).
    cbn [Base64.encode].
    repeat (apply Forall_cons;
            [first [left; apply b64_char_alphabet; assumption | right; reflexivity]|]).
    apply Forall_nil.
  - simpl in Hb. apply andb_true_iff in Hb. destruct Hb as [Ha Hb].
    apply andb_true_iff in Hb. destruct Hb as [Hb Hc].
    apply andb_true_iff in Hc. destruct Hc as [Hc Hl].
    apply is_byte_spec in Ha, Hb, Hc.
    destruct (group24_bytes a b c Ha Hb Hc) as (Hn & _).
    destruct (group24_sextets _ Hn) as (R0 & R1 & R2 & R3 & _).
    cbn [Base64.encode].
    repeat (apply Forall_cons; [left; apply b64_char_alphabet; assumption|]).
    apply IH, Hl.
Qed.

(** X14. The chunk of a block of N samples is a text of 4 * ceil(2N / 3)
    characters, each a letter of the base64 alphabet or the padding sign;
    a block of 4096 samples gives 10924 characters. *)
Theorem createBlob_text_size (bo : ByteOrder) (frame : list number) :
  exists blob : GeminiBlob,
    createBlob bo frame = Some blob
    /\ length (data blob) = (4 * ((2 * length frame + 2) / 3))%nat
    /\ Forall (fun c => In c Base64.alphabet \/ c = Base64.pad) (data blob)
    /\ (length frame = 4096%nat -> length (data blob) = (4 * 2731)%nat).
Proof.
  set (uint8 := Uint8Array_of_buffer bo (Int16Array_from frame)).
  destruct (binary_of_bytes uint8 (Uint8Array_range bo _)) as [Hbin Hbytes].
  assert (Hlen : length (Base64.encode uint8) = (4 * ((2 * length frame + 2) / 3))%nat).
  { rewrite encode_length. unfold uint8, Int16Array_from.
    rewrite Uint8Array_length, length_map. reflexivity. }
  exists {| data := Base64.encode uint8; mimeType := str "audio/pcm;rate=16000" |}.
  split; [|split; [|split]].
  - unfold createBlob. fold uint8. rewrite Hbin. unfold Base64.btoa.
    rewrite Hbytes. reflexivity.
  - exact Hlen.
  - cbn [data]. apply encode_alphabet, Hbytes.
  - intros H4096. cbn [data]. rewrite Hlen, H4096. reflexivity.
Qed.

Lemma sample_to_int16_finite (q : Q) :
  sample_to_int16 (Finite q)
  = (if Qle_bool 1 q then 32767
     else if Qle_bool q (-1) then -32767
     else truncate (q * 32767))
  /\ -32767 <= sample_to_int16 (Finite q) <= 32767.
Proof.
  assert (Hval : sample_to_int16 (Finite q)
                 = (if Qle_bool 1 q then 32767
                    else if Qle_bool q (-1) then -32767
                    else truncate (q * 32767))).
  { unfold sample_to_int16, clamp. cbn [Math_min].
    destruct (Qle_bool 1 q) eqn:H1; [reflexivity|].
    cbn [Math_max]. destruct (Qle_bool q (-1)) eqn:H2; [reflexivity|].
    cbn [mul]. apply ToInt16_small.
    unfold Qle_bool in H1, H2. cbn in H1, H2. apply Z.leb_gt in H1, H2.
    pose proof (truncate_scaled q ltac:(lia) ltac:(lia)). lia. }
  split; [exact Hval|]. rewrite Hval.
  destruct (Qle_bool 1 q) eqn:H1; [lia|].
  destruct (Qle_bool q (-1)) eqn:H2; [lia|].
  unfold Qle_bool in H1, H2. cbn in H1, H2. apply Z.leb_gt in H1, H2.
  apply truncate_scaled; lia.
Qed.

Lemma truncate_opp (q : Q) : truncate (- q * 32767) = - truncate (q * 32767).
Proof.
  unfold truncate. destruct q as [n d]. cbn [Qopp Qmult Qnum Qden].
  rewrite Z.mul_opp_l, Z.quot_opp_l by lia. reflexivity.
Qed.

(** X15. The encoder is odd: the negated sample stores the negated integer
    (so -1 stores -32767 and the value -32768 is never produced), for
    finite samples, the infinities and NaN alike. *)
Theorem sample_to_int16_odd (x : number) :
  sample_to_int16 (negate x) = - sample_to_int16 x
  /\ sample_to_int16 x <> -32768.
Proof.
  split.
  - destruct x as [|[|]|q]; try reflexivity. cbn [negate].
    destruct (sample_to_int16_finite q) as [-> _].
    destruct (sample_to_int16_finite (- q)) as [-> _].
    unfold Qle_bool. destruct q as [n d]. cbn [Qopp Qnum Qden].
    destruct (Z.leb_spec (1 * Z.pos d) (- n * 1)), (Z.leb_spec (n * 1) (-1 * Z.pos d)),
             (Z.leb_spec (1 * Z.pos d) (n * 1)), (Z.leb_spec (- n * 1) (-1 * Z.pos d));
      try lia.
    apply (truncate_opp (n # d)).
  - destruct x as [|[|]|q]; try discriminate.
    destruct (sample_to_int16_finite q) as [_ H]. lia.
Qed.

Lemma quot_le_nonneg (n1 d1 n2 d2 : Z) :
  0 < d1 -> 0 < d2 -> 0 <= n1 -> n1 * d2 <= n2 * d1 ->
  Z.quot n1 d1 <= Z.quot n2 d2.
Proof.
  intros Hd1 Hd2 Hn1 Hle.
  assert (Hn2 : 0 <= n2) by nia.
  rewrite !Z.quot_div_nonneg by lia.
  apply Z.div_le_lower_bound; [lia|].
  pose proof (Z.mul_div_le n1 d1 Hd1) as Hfloor.
  assert (Hq : 0 <= n1 / d1) by (apply Z.div_pos; lia).
  nia.
Qed.

Lemma truncate_le (p q : Q) : (p <= q)%Q -> truncate p <= truncate q.
Proof.
  unfold Qle, truncate. destruct p as [n1 d1], q as [n2 d2]. cbn [Qnum Qden].
  intros Hle.
  destruct (Z_le_gt_dec 0 n1) as [Hn1|Hn1].
  - apply quot_le_nonneg; lia.
  - destruct (Z_le_gt_dec 0 n2) as [Hn2|Hn2].
    + assert (Z.quot n1 (Z.pos d1) <= 0).
      { replace n1 with (- - n1) by lia. rewrite Z.quot_opp_l by lia.
        pose proof (Z.quot_pos (- n1) (Z.pos d1)). lia. }
      pose proof (Z.quot_pos n2 (Z.pos d2)). lia.
    + replace n1 with (- - n1) by lia. replace n2 with (- - n2) by lia.
      rewrite (Z.quot_opp_l (- n1)), (Z.quot_opp_l (- n2)) by lia.
      pose proof (quot_le_nonneg (- n2) (Z.pos d2) (- n1) (Z.pos d1)). lia.
Qed.

(** X16. The encoder keeps the order of samples: a finite sample not
    above another stores an integer not above the other's. *)
Theorem sample_to_int16_monotone (p q : Q) :
  (p <= q)%Q -> sample_to_int16 (Finite p) <= sample_to_int16 (Finite q).
Proof.
  intros Hle.
  destruct (sample_to_int16_finite p) as [Hp Rp].
  destruct (sample_to_int16_finite q) as [Hq Rq].
  destruct (Qle_bool 1 q) eqn:Q1; [lia|].
  destruct (Qle_bool p (-1)) eqn:P2.
  - destruct (Qle_bool 1 p) eqn:P1.
    + apply Qle_bool_iff in P1, P2.
      pose proof (Qle_trans _ _ _ P1 P2) as Habs. exfalso. apply Habs. reflexivity.
    + lia.
  - assert (P1 : Qle_bool 1 p = false).
    { destruct (Qle_bool 1 p) eqn:P1; [|reflexivity].
      apply Qle_bool_iff in P1. pose proof (Qle_trans _ _ _ P1 Hle) as H.
      apply Qle_bool_iff in H. congruence. }
    assert (Q2 : Qle_bool q (-1) = false).
    { destruct (Qle_bool q (-1)) eqn:Q2; [|reflexivity].
      apply Qle_bool_iff in Q2. pose proof (Qle_trans _ _ _ Hle Q2) as H.
      apply Qle_bool_iff in H. congruence. }
    rewrite P1 in Hp. rewrite Q2 in Hq. rewrite Hp, Hq.
    apply truncate_le. apply Qmult_le_compat_r; [exact Hle|unfold Qle; simpl; lia].
Qed.

End EncoderFacts.

Section EncoderExamples.
Import PCM.

Lemma sample_to_int16_monotone_witness :
  sample_to_int16 (Finite (1 # 3)) <= sample_to_int16 (Finite (1 # 2)).
Proof. apply sample_to_int16_monotone. unfold Qle. simpl. lia. Defined.

End EncoderExamples.

Section ReloadExamples.
Import Web Api App Scenario Cases.

(** An unparsable saved history is replaced by the empty one. *)
Lemma mount_starts_empty_witness :
  exists s' : State,
    mount corruptStorage = Some s'
    /\ history s' = []
    /\ getItem HISTORY_KEY (localStorage s') = Some (str "[]").
Proof.
  destruct (mount_starts_empty corruptStorage) as (s' & Hmount & Hhistory & Hkey & _).
  - right. reflexivity.
  - exists s'. repeat split; assumption.
Defined.

Lemma conversion_survives_reload_witness :
  exists s' : State,
    mount (localStorage (persistHistory (handleConvert answeringHost typedIdea))) = Some s'
    /\ length (history s') = 1%nat.
Proof.
  destruct (conversion_survives_reload answeringHost typedIdea kite
              {| Api.text := Some (JSON.stringify (GoldenResult.toJSON kite));
                 groundingChunks := None |}
              eq_refl eq_refl eq_refl eq_refl eq_refl eq_refl)
    as (s' & Hmount & Hhistory).
  exists s'. split; [exact Hmount|]. rewrite Hhistory. reflexivity.
Defined.

(** A saved entry whose result is [null]: its card throws when the loaded
    history is drawn, and the store is left with the [[]] of the first
    commit. *)
Example mount_card_throws :
  let entry := {| HistoryItem.id := str "1";
                  HistoryItem.originalInput := str "Oka Robot";
                  HistoryItem.result := JSON.JNull;
                  HistoryItem.timestamp := 1 |} in
  match mountEffects
          (setItem HISTORY_KEY (JSON.stringify (historyToJSON [entry])) emptyStorage) with
  | Foreign installed s1 =>
      installed = historyToJSON [entry]
      /\ getItem HISTORY_KEY (localStorage s1) = Some (str "[]")
  | Loaded _ => False
  end.
Proof. vm_compute. split; reflexivity. Qed.

(** A saved entry whose result lists its members in another order, with one
    more: it is loaded and written back as it was. *)
Example mount_keeps_member_order :
  let entry := {| HistoryItem.id := str "1";
                  HistoryItem.originalInput := str "Oka Robot";
                  HistoryItem.result :=
                    JSON.JObject
                      [(str "category", JSON.JString (str "Image"));
                       (str "goldenPrompt", JSON.JString (str "A robot"));
                       (str "confidence", JSON.JNumber (Float64.Dyadic false 1 (-1)))];
                  HistoryItem.timestamp := 1700000000000 |} in
  let saved := JSON.stringify (historyToJSON [entry]) in
  match mountEffects (setItem HISTORY_KEY saved emptyStorage) with
  | Loaded s' =>
      history s' = [entry]
      /\ getItem HISTORY_KEY (localStorage s') = Some saved
  | Foreign _ _ => False
  end.
Proof. vm_compute. split; reflexivity. Qed.

End ReloadExamples.

(** ** The chat panel, on every path *)

Section ChatPaths.
Import Web Api ChatBot.

Lemma trim_nonblank_nonempty (s : jsstring) :
  trim_is_empty s = false -> nonempty s = true.
Proof. destruct s; [discriminate|reflexivity]. Qed.

(** X17. A send that the service answers adds two bubbles, in order: the
    user's message with the text typed, then the model's with the reply (or
    the fallback sentence when the reply is missing or empty, so a model
    bubble is never blank). The prior turns sent to the service are the
    messages shown before, without the new one, which goes as the message
    itself; the input field is cleared and the loading flag is off. *)
Theorem handleSend_success (host : Host) (s : State) (reply : option jsstring) :
  trim_is_empty (input s) = false -> isLoading s = false ->
  sendMessage host (formatHistory (messages s)) (input s) = Returned reply ->
  exists botMsg : ChatMessage.t,
    messages (handleSend host s) = messages s ++ [userMessage host s; botMsg]
    /\ ChatMessage.text (userMessage host s) = input s
    /\ ChatMessage.role (userMessage host s) = ChatMessage.user
    /\ ChatMessage.role botMsg = ChatMessage.model
    /\ ChatMessage.text botMsg = or_else reply NO_RESPONSE
    /\ nonempty (ChatMessage.text botMsg) = true
    /\ input (handleSend host s) = []
    /\ isLoading (handleSend host s) = false
    /\ trace (handleSend host s)
       = trace s ++ [ChatSendMessage (formatHistory (messages s)) (input s)]
    /\ length (formatHistory (messages s)) = length (messages s).
Proof.
  intros Hinput Hloading Hreply.
  unfold handleSend, GeminiService.sendChatMessage.
  rewrite Hinput, Hloading. cbn [orb userMessage ChatMessage.text].
  rewrite Hreply. cbn [messages input isLoading trace].
  eexists. split; [rewrite <- app_assoc; reflexivity|].
  cbn [ChatMessage.text ChatMessage.role].
  repeat split.
  - apply or_else_nonempty. reflexivity.
  - unfold formatHistory. apply length_map.
Qed.

(** X18. On every path [handleSend] only appends to the conversation: the
    messages shown before stay, in place, followed by at most two new ones,
    none with an empty text. A blank input, or a send while another is in
    flight, changes nothing and calls nothing; otherwise exactly one call is
    made and the loading flag is off at the end. *)
Theorem handleSend_appends (host : Host) (s : State) :
  (exists added : list ChatMessage.t,
     messages (handleSend host s) = messages s ++ added
     /\ (length added <= 2)%nat
     /\ Forall (fun m => nonempty (ChatMessage.text m) = true) added)
  /\ isOpen (handleSend host s) = isOpen s
  /\ (trim_is_empty (input s) = true \/ isLoading s = true -> handleSend host s = s)
  /\ (trim_is_empty (input s) = false -> isLoading s = false ->
      isLoading (handleSend host s) = false
      /\ input (handleSend host s) = []
      /\ exists log,
           trace (handleSend host s)
           = trace s ++ ChatSendMessage (formatHistory (messages s)) (input s) :: log
           /\ Forall (fun e => exists l m, e = ConsoleError l m) log).
Proof.
  unfold handleSend, GeminiService.sendChatMessage.
  destruct (trim_is_empty (input s)) eqn:Hblank.
  { cbn [orb]. split; [exists []; rewrite app_nil_r; repeat constructor|].
    split; [reflexivity|]. split; [reflexivity|]. discriminate. }
  destruct (isLoading s) eqn:Hloading.
  { cbn [orb]. split; [exists []; rewrite app_nil_r; repeat constructor|].
    split; [reflexivity|]. split; [reflexivity|]. discriminate. }
  cbn [orb userMessage ChatMessage.text].
  pose proof (trim_nonblank_nonempty _ Hblank) as Hne.
  destruct (sendMessage host (formatHistory (messages s)) (input s)) as [reply|error];
    cbn [messages input isLoading isOpen trace].
  - split.
    { eexists. split; [rewrite <- app_assoc; reflexivity|].
      split; [simpl; lia|].
      repeat constructor; cbn [ChatMessage.text]; [exact Hne|].
      apply or_else_nonempty. reflexivity. }
    split; [reflexivity|]. split; [intros [H|H]; discriminate H|].
    intros _ _. repeat split. exists []. split; [reflexivity|constructor].
  - split.
    { eexists. split; [reflexivity|]. split; [simpl; lia|].
      repeat constructor. exact Hne. }
    split; [reflexivity|]. split; [intros [H|H]; discriminate H|].
    intros _ _. repeat split. eexists. split; [reflexivity|].
    repeat constructor. eexists; eexists; reflexivity.
Qed.

End ChatPaths.

Section ChatPathExamples.
Import Web Api ChatBot Scenario Cases.

Lemma handleSend_success_witness :
  map ChatMessage.text (messages (handleSend answeringChat typedHi))
  = [str "hi"; str "namaste"].
Proof.
  destruct (handleSend_success answeringChat typedHi (Some (str "namaste"))
              eq_refl eq_refl eq_refl)
    as (botMsg & Hmessages & _ & _ & _ & Htext & _).
  rewrite Hmessages. cbn [messages typedHi app map userMessage ChatMessage.text input].
  rewrite Htext. reflexivity.
Defined.

End ChatPathExamples.

(** ** Enhancement chips in sequence *)

Section ChipFacts.
Import GoldenCard.

(** X19. Enhancing never rewrites the prompt: after any sequence of chips
    the prompt before is still there as a prefix, the text grew by at most
    the chips' lengths put together, and it ends with the chip applied
    last. *)
Theorem handleEnhance_sequence (chips : list jsstring) (last : jsstring)
        (prompt : jsstring) :
  (exists added : jsstring,
     fold_left (fun p t => handleEnhance t p) chips prompt = prompt ++ added
     /\ (length added <= list_sum (map (@length Z) chips))%nat)
  /\ endsWith (fold_left (fun p t => handleEnhance t p) (chips ++ [last]) prompt) last
     = true.
Proof.
  split.
  - revert prompt. induction chips as [|t chips IH]; intros prompt.
    + exists []. split; [symmetry; apply app_nil_r|simpl; lia].
    + cbn [fold_left map list_sum fold_right].
      destruct (IH (handleEnhance t prompt)) as (added & Heq & Hlen).
      rewrite Heq. unfold handleEnhance. destruct (endsWith prompt t).
      * exists added. split; [reflexivity|]. unfold list_sum in Hlen. lia.
      * exists (t ++ added). split; [symmetry; apply app_assoc|].
        rewrite length_app. unfold list_sum in Hlen. lia.
  - rewrite fold_left_app. cbn [fold_left]. unfold handleEnhance.
    destruct (endsWith (fold_left _ chips prompt) last) eqn:E; [exact E|].
    apply endsWith_app.
Qed.

End ChipFacts.

(** ** The preview *)

Section PreviewFacts.
Import Web Preview.

(** X20. The preview timer calls the model only for an input of more than
    five code units while no conversion is loading, and then once; a failed
    or empty answer gives an empty preview, never an error. An empty input
    clears the preview; an input of one to five code units, or a timer that
    fires during a conversion, leaves the preview shown before in place. *)
Theorem previewTimer_behaviour
        (generateContent : PreviewParameters -> Result (option jsstring))
        (inputText : jsstring) (isLoading : bool) (previewTranslation : jsstring) :
  (length (snd (previewTimer generateContent inputText isLoading previewTranslation))
   <= 1)%nat
  /\ ((length inputText <= 5)%nat \/ isLoading = true ->
      snd (previewTimer generateContent inputText isLoading previewTranslation) = [])
  /\ ((5 < length inputText)%nat -> isLoading = false ->
      snd (previewTimer generateContent inputText isLoading previewTranslation)
      = [previewRequest inputText]
      /\ fst (previewTimer generateContent inputText isLoading previewTranslation)
         = match generateContent (previewRequest inputText) with
           | Returned (Some text) => text
           | _ => []
           end)
  /\ (inputText = [] ->
      fst (previewTimer generateContent inputText isLoading previewTranslation) = [])
  /\ (inputText <> [] -> (length inputText <= 5)%nat \/ isLoading = true ->
      fst (previewTimer generateContent inputText isLoading previewTranslation)
      = previewTranslation).
Proof.
  unfold previewTimer.
  destruct (Z.ltb_spec 5 (Z.of_nat (length inputText))) as [Hlong|Hshort];
    destruct isLoading; cbn [andb negb fst snd length].
  - destruct (Z.eqb_spec (Z.of_nat (length inputText)) 0) as [E|E]; [lia|].
    cbn [fst snd length]. repeat split; try lia; try discriminate; try reflexivity.
    intros ->. simpl in Hlong. lia.
  - split; [lia|]. split; [intros [H|H]; [lia|discriminate]|].
    split.
    { intros _ _. split; [reflexivity|]. unfold quickPreview.
      destruct (generateContent (previewRequest inputText)) as [[text|]|e];
        try reflexivity.
      unfold or_else. destruct text; reflexivity. }
    split; [intros ->; simpl in Hlong; lia|].
    intros _ [H|H]; [lia|discriminate].
  - destruct (Z.eqb_spec (Z.of_nat (length inputText)) 0) as [E|E];
      cbn [fst snd length].
    + repeat split; try lia; try reflexivity.
      intros Hne. destruct inputText; [contradiction|simpl in E; lia].
    + repeat split; try lia; try reflexivity; try discriminate.
      intros ->. simpl in E. lia.
  - destruct (Z.eqb_spec (Z.of_nat (length inputText)) 0) as [E|E];
      cbn [fst snd length].
    + repeat split; try lia; try reflexivity.
      intros Hne. destruct inputText; [contradiction|simpl in E; lia].
    + repeat split; try lia; try reflexivity.
      intros ->. simpl in E. lia.
Qed.

End PreviewFacts.

(** ** The history drawer *)

Section DrawerFacts.
Import Web HistoryDrawer.

Variable toLowerCase : jsstring -> jsstring.

(** Newest first: an entry's timestamp is not below those after it. *)
Let newestFirst (a b : HistoryItem.t) : Prop :=
  HistoryItem.timestamp b <= HistoryItem.timestamp a.

Lemma insertByTimestamp_perm (item : HistoryItem.t) (l : list HistoryItem.t) :
  Permutation (insertByTimestamp item l) (item :: l).
Proof.
  induction l as [|other l IH]; cbn [insertByTimestamp]; [reflexivity|].
  destruct (HistoryItem.timestamp item <? HistoryItem.timestamp other); [|reflexivity].
  rewrite IH. apply perm_swap.
Qed.

Lemma sortNewestFirst_perm (l : list HistoryItem.t) : Permutation (sortNewestFirst l) l.
Proof.
  unfold sortNewestFirst. induction l as [|item l IH]; cbn [fold_right]; [reflexivity|].
  rewrite insertByTimestamp_perm, IH. reflexivity.
Qed.

Lemma insertByTimestamp_sorted (item : HistoryItem.t) (l : list HistoryItem.t) :
  StronglySorted newestFirst l -> StronglySorted newestFirst (insertByTimestamp item l).
Proof.
  induction 1 as [|other l Hsorted IH Hall]; cbn [insertByTimestamp].
  - repeat constructor.
  - destruct (Z.ltb_spec (HistoryItem.timestamp item) (HistoryItem.timestamp other)).
    + constructor; [exact IH|].
      apply Forall_forall. intros x Hx.
      apply (Permutation_in _ (insertByTimestamp_perm item l)) in Hx.
      destruct Hx as [<-|Hx]; [unfold newestFirst; lia|].
      rewrite Forall_forall in Hall. apply Hall, Hx.
    + constructor; [constructor; assumption|].
      constructor; [unfold newestFirst; lia|].
      eapply Forall_impl; [|exact Hall]. unfold newestFirst. intros x Hx. lia.
Qed.

Lemma sortNewestFirst_sorted (l : list HistoryItem.t) :
  StronglySorted newestFirst (sortNewestFirst l).
Proof.
  unfold sortNewestFirst. induction l as [|item l IH]; cbn [fold_right].
  - constructor.
  - apply insertByTimestamp_sorted, IH.
Qed.

Lemma sortNewestFirst_sorted_id (l : list HistoryItem.t) :
  StronglySorted newestFirst l -> sortNewestFirst l = l.
Proof.
  unfold sortNewestFirst. induction 1 as [|item l Hsorted IH Hall]; [reflexivity|].
  cbn [fold_right]. rewrite IH. destruct l as [|other l]; [reflexivity|].
  cbn [insertByTimestamp]. inversion Hall as [|? ? Hother _]; subst.
  unfold newestFirst in Hother.
  destruct (Z.ltb_spec (HistoryItem.timestamp item) (HistoryItem.timestamp other));
    [lia|reflexivity].
Qed.

Lemma filterMatching_spec (searchTerm : jsstring) (history kept : list HistoryItem.t) :
  filterMatching toLowerCase searchTerm history = Some kept ->
  (forall item, In item kept
                <-> In item history
                    /\ matchesSearch toLowerCase searchTerm item = Some true)
  /\ (length kept <= length history)%nat.
Proof.
  revert kept. induction history as [|x history IH]; intros kept; cbn [filterMatching].
  - intros E. injection E as <-. split; [|simpl; lia].
    intros item. simpl. tauto.
  - destruct (matchesSearch toLowerCase searchTerm x) as [keep|] eqn:Hx; [|discriminate].
    destruct (filterMatching toLowerCase searchTerm history) as [kept'|]; [|discriminate].
    intros E. injection E as <-. destruct (IH kept' eq_refl) as [Hin Hlen].
    destruct keep.
    + split; [|simpl; lia]. intros item. cbn [In]. rewrite Hin. split.
      * intros [<-|[H1 H2]]; [split; [left; reflexivity|exact Hx]|split; [right|]; assumption].
      * intros [[<-|H1] H2]; [left; reflexivity|right; split; assumption].
    + split; [|simpl; lia]. intros item. cbn [In]. rewrite Hin. split.
      * intros [H1 H2]. split; [right|]; assumption.
      * intros [[<-|H1] H2]; [congruence|split; assumption].
Qed.

(** X21. What the drawer lists, when its filter does not throw: exactly
    the entries of the history that match the search term, each as often as
    it occurs among the matches, newest first; and when the matching entries
    already stand newest first in the history (as [addToHistory] builds it)
    they are listed in the history's order. *)
Theorem filteredHistory_lists_matches (searchTerm : jsstring)
        (history shown : list HistoryItem.t) :
  filteredHistory toLowerCase searchTerm history = Some shown ->
  StronglySorted (fun a b => HistoryItem.timestamp b <= HistoryItem.timestamp a) shown
  /\ (forall item, In item shown
                   <-> In item history
                       /\ matchesSearch toLowerCase searchTerm item = Some true)
  /\ (length shown <= length history)%nat
  /\ exists kept,
       filterMatching toLowerCase searchTerm history = Some kept
       /\ Permutation shown kept
       /\ (StronglySorted
             (fun a b => HistoryItem.timestamp b <= HistoryItem.timestamp a) kept ->
           shown = kept).
Proof.
  unfold filteredHistory.
  destruct (filterMatching toLowerCase searchTerm history) as [kept|] eqn:Hkept;
    [|discriminate].
  cbn [option_map]. intros E. injection E as <-.
  destruct (filterMatching_spec _ _ _ Hkept) as [Hin Hlen].
  pose proof (sortNewestFirst_perm kept) as Hperm.
  split; [apply sortNewestFirst_sorted|]. split; [|split].
  - intros item. rewrite <- Hin. split; apply Permutation_in;
      [exact Hperm|symmetry; exact Hperm].
  - rewrite (Permutation_length Hperm). exact Hlen.
  - exists kept. split; [reflexivity|]. split; [exact Hperm|].
    apply sortNewestFirst_sorted_id.
Qed.

Lemma includes_empty (s : jsstring) : includes s [] = true.
Proof. destruct s; reflexivity. Qed.

(** X22. With the search field empty (and a case mapping that maps the
    empty string to itself) the drawer lists every entry of the history,
    newest first, and its filter never throws, whatever the stored results
    look like. *)
Theorem filteredHistory_empty_term (history : list HistoryItem.t) :
  toLowerCase [] = [] ->
  filteredHistory toLowerCase [] history = Some (sortNewestFirst history)
  /\ Permutation (sortNewestFirst history) history
  /\ StronglySorted (fun a b => HistoryItem.timestamp b <= HistoryItem.timestamp a)
       (sortNewestFirst history).
Proof.
  intros Hlower.
  assert (Hall : filterMatching toLowerCase [] history = Some history).
  { induction history as [|item history IH]; [reflexivity|].
    cbn [filterMatching]. unfold matchesSearch at 1.
    rewrite Hlower, includes_empty, IH. reflexivity. }
  unfold filteredHistory. rewrite Hall.
  split; [reflexivity|]. split; [apply sortNewestFirst_perm|apply sortNewestFirst_sorted].
Qed.

(** X23. The filter reads [item.result.goldenPrompt] of every entry whose
    input does not match: one such entry whose result has no goldenPrompt
    string makes the whole filter throw, whatever the other entries are. *)
Theorem filteredHistory_throws (searchTerm : jsstring) (history : list HistoryItem.t)
        (item : HistoryItem.t) :
  In item history ->
  includes (toLowerCase (HistoryItem.originalInput item)) (toLowerCase searchTerm)
    = false ->
  goldenPromptOf item = None ->
  filteredHistory toLowerCase searchTerm history = None.
Proof.
  intros Hin Hinput Hprompt.
  assert (Hitem : matchesSearch toLowerCase searchTerm item = None).
  { unfold matchesSearch. rewrite Hinput, Hprompt. reflexivity. }
  unfold filteredHistory.
  assert (Hfilter : filterMatching toLowerCase searchTerm history = None).
  { induction history as [|x history IH]; [contradiction|].
    cbn [filterMatching]. destruct Hin as [->|Hin].
    - rewrite Hitem. reflexivity.
    - rewrite (IH Hin). destruct (matchesSearch toLowerCase searchTerm x); reflexivity. }
  rewrite Hfilter. reflexivity.
Qed.

End DrawerFacts.

Section DrawerExamples.
Import Web HistoryDrawer Scenario Cases.

Lemma filteredHistory_lists_matches_witness :
  StronglySorted (fun a b => HistoryItem.timestamp b <= HistoryItem.timestamp a)
    [newer; older]
  /\ filteredHistory asciiLowerCase (str "ROBOT") [older] = Some [older].
Proof.
  destruct (filteredHistory_lists_matches asciiLowerCase (str "o") [older; newer]
              [newer; older] eq_refl) as (Hsorted & _).
  split; [exact Hsorted|reflexivity].
Defined.

Lemma filteredHistory_empty_term_witness :
  filteredHistory asciiLowerCase [] [older; newer] = Some [newer; older].
Proof.
  destruct (filteredHistory_empty_term asciiLowerCase [older; newer] eq_refl) as [H _].
  exact H.
Defined.

(** An entry stored with the result 7 (an answer that ignored the schema),
    searched with a term its input does not contain. *)
Lemma filteredHistory_throws_witness :
  filteredHistory asciiLowerCase (str "zebra")
    [newer; {| HistoryItem.id := str "3"; HistoryItem.originalInput := str "x";
               HistoryItem.result := JSON.JNumber (Float64.of_Z 7); HistoryItem.timestamp := 3 |}]
  = None.
Proof.
  apply (filteredHistory_throws asciiLowerCase (str "zebra") _
           {| HistoryItem.id := str "3"; HistoryItem.originalInput := str "x";
              HistoryItem.result := JSON.JNumber (Float64.of_Z 7); HistoryItem.timestamp := 3 |}).
  - right. left. reflexivity.
  - reflexivity.
  - reflexivity.
Defined.

End DrawerExamples.

(** ** Two chat turns *)

Section ChatTurns.
Import Web Api ChatBot.

(** X24. The prior turns of a request are the conversation as shown: after
    a send that was answered, the next send passes the turns passed before,
    then the user's earlier message, then the model's reply to it (the
    fallback sentence when it was empty), each with its role and its text
    as the only part. *)
Theorem handleSend_next_history (host : Host) (s : State) (reply : option jsstring)
        (nextInput : jsstring) :
  trim_is_empty (input s) = false -> isLoading s = false ->
  sendMessage host (formatHistory (messages s)) (input s) = Returned reply ->
  trim_is_empty nextInput = false ->
  let typed :=
    {| isOpen := isOpen (handleSend host s);
       input := nextInput;
       messages := messages (handleSend host s);
       isLoading := isLoading (handleSend host s);
       trace := [] |} in
  exists log,
    trace (handleSend host typed)
    = ChatSendMessage
        (formatHistory (messages s)
           ++ [{| role := ChatMessage.user; parts := [input s] |};
               {| role := ChatMessage.model; parts := [or_else reply NO_RESPONSE] |}])
        nextInput :: log.
Proof.
  intros Hinput Hloading Hreply Hnext. cbv zeta.
  assert (Hfirst : messages (handleSend host s)
                   = messages s
                     ++ [userMessage host s;
                         {| ChatMessage.id := JSON.number_chars (Date_now host 2 + 1);
                            ChatMessage.role := ChatMessage.model;
                            ChatMessage.text := or_else reply NO_RESPONSE;
                            ChatMessage.timestamp := Date_now host 3 |}]
                   /\ isLoading (handleSend host s) = false).
  { unfold handleSend, GeminiService.sendChatMessage.
    rewrite Hinput, Hloading. cbn [orb userMessage ChatMessage.text].
    rewrite Hreply. cbn [messages isLoading]. rewrite <- app_assoc. split; reflexivity. }
  destruct Hfirst as [Hmessages Hidle].
  unfold handleSend at 1. cbn [input isLoading messages trace].
  rewrite Hnext, Hidle. cbn [orb]. rewrite Hmessages.
  unfold GeminiService.sendChatMessage. cbn [userMessage ChatMessage.text input].
  unfold formatHistory at 1 2 3. rewrite map_app.
  cbn [map userMessage ChatMessage.role ChatMessage.text].
  fold (formatHistory (messages s)).
  destruct (sendMessage host _ nextInput); eexists; reflexivity.
Qed.

End ChatTurns.

Section ChatTurnExamples.
Import Web Api ChatBot Scenario Cases.

Lemma handleSend_next_history_witness :
  exists log,
    trace (handleSend answeringChat
             {| isOpen := true; input := str "inka?";
                messages := messages (handleSend answeringChat typedHi);
                isLoading := false; trace := [] |})
    = ChatSendMessage
        [{| role := ChatMessage.user; parts := [str "hi"] |};
         {| role := ChatMessage.model; parts := [str "namaste"] |}]
        (str "inka?") :: log.
Proof.
  exact (handleSend_next_history answeringChat typedHi (Some (str "namaste"))
           (str "inka?") eq_refl eq_refl eq_refl eq_refl).
Defined.

End ChatTurnExamples.
